(** * flights-scraper: trip search orchestration and result caching

    A shallow embedding of [src/index.ts] (with the declarations of
    [types.ts]) and the properties of its search and caching pipeline.

    The program is asynchronous but strictly sequential: every [await]
    completes before the next statement runs.  It is embedded as a state and
    exception monad over a [World] holding the process environment, the file
    system, the in-memory city mapping, the remote provider and the log of
    HTTP requests issued so far.  Reading a file fails when the file is not
    there; whether a write is accepted is the disk's to say.

    Values are JavaScript values as the program sees them at run time (the
    provider's replies are cast from [any], the cache file is whatever
    [JSON.parse] returns), so the data model is dynamic: [jsval].

    Numbers are finite decimals (stop counts, prices), kept exactly: the
    rounding of a literal to the nearest double, the exponent notation that
    JavaScript prints from 1e21 on and below 1e-6, and the non-finite
    doubles, which no JSON text denotes, are outside this development.
    Strings are sequences of bytes holding UTF-8 text.

    Of [writeToSpreadSheet], the rows that it computes are embedded
    ([formatTime], [formatDate] and the cells of each flight); the calls to
    the spreadsheet service are not, the run only learns their outcome. *)

From Stdlib Require Import ZArith Ascii String List Bool Lia.
From Stdlib Require Import DecimalString DecimalFacts DecimalZ.
From stdpp Require Import base option list strings gmap.

#[local] Arguments String.append !_ _ / : simpl nomatch.

(** ** Numbers

    A number is the decimal expansion that JavaScript prints for it: a
    sign, the digits before the point and the digits after it. *)
Record number : Type := {
  negative : bool;
  integral : Decimal.uint;
  fraction : Decimal.uint
}.

(** The digits without the zeros at their end. *)
Definition trim_zeros (f : Decimal.uint) : Decimal.uint :=
  Decimal.rev (Decimal.nzhead (Decimal.rev f)).

(** [n === 0] (and [n === -0]). *)
Definition is_zero (n : number) : bool :=
  Decimal.uint_beq (Decimal.unorm (integral n)) Decimal.zero
  && Decimal.uint_beq (Decimal.nzhead (fraction n)) Decimal.Nil.

(** The expansion has no superfluous digit, and zero has no sign. *)
Definition canonical (n : number) : bool :=
  Decimal.uint_beq (Decimal.unorm (integral n)) (integral n)
  && Decimal.uint_beq (trim_zeros (fraction n)) (fraction n)
  && negb (negative n && is_zero n).

Definition canon (neg : bool) (i f : Decimal.uint) : number :=
  let n := {| negative := false; integral := Decimal.unorm i; fraction := trim_zeros f |} in
  {| negative := neg && negb (is_zero n); integral := integral n; fraction := fraction n |}.

Definition number_of_Z (z : Z) : number :=
  match Z.to_int z with
  | Decimal.Pos d => {| negative := false; integral := d; fraction := Decimal.Nil |}
  | Decimal.Neg d => {| negative := true; integral := d; fraction := Decimal.Nil |}
  end.

(** The integer part, as [Math.trunc] gives it. *)
Definition truncate (n : number) : Z :=
  Z.of_int (if negative n then Decimal.Neg (integral n) else Decimal.Pos (integral n)).

(** The point and the digits after it, when there are any. *)
Definition fraction_text (f : Decimal.uint) : string :=
  match f with
  | Decimal.Nil => ""
  | _ => "." +:+ NilEmpty.string_of_uint f
  end.

Definition number_to_string (n : number) : string :=
  (if negative n then "-" else "")
  +:+ NilZero.string_of_uint (integral n)
  +:+ fraction_text (fraction n).

(** One decimal place to the left and to the right. *)
Definition times_ten (p : Decimal.uint * Decimal.uint) : Decimal.uint * Decimal.uint :=
  let '(i, f) := p in
  match f with
  | Decimal.Nil => (Decimal.app i (Decimal.D0 Decimal.Nil), Decimal.Nil)
  | Decimal.D0 f' => (Decimal.app i (Decimal.D0 Decimal.Nil), f')
  | Decimal.D1 f' => (Decimal.app i (Decimal.D1 Decimal.Nil), f')
  | Decimal.D2 f' => (Decimal.app i (Decimal.D2 Decimal.Nil), f')
  | Decimal.D3 f' => (Decimal.app i (Decimal.D3 Decimal.Nil), f')
  | Decimal.D4 f' => (Decimal.app i (Decimal.D4 Decimal.Nil), f')
  | Decimal.D5 f' => (Decimal.app i (Decimal.D5 Decimal.Nil), f')
  | Decimal.D6 f' => (Decimal.app i (Decimal.D6 Decimal.Nil), f')
  | Decimal.D7 f' => (Decimal.app i (Decimal.D7 Decimal.Nil), f')
  | Decimal.D8 f' => (Decimal.app i (Decimal.D8 Decimal.Nil), f')
  | Decimal.D9 f' => (Decimal.app i (Decimal.D9 Decimal.Nil), f')
  end.

Definition tenth (p : Decimal.uint * Decimal.uint) : Decimal.uint * Decimal.uint :=
  let '(i, f) := p in
  match Decimal.rev i with
  | Decimal.Nil => (Decimal.Nil, Decimal.D0 f)
  | Decimal.D0 r => (Decimal.rev r, Decimal.D0 f)
  | Decimal.D1 r => (Decimal.rev r, Decimal.D1 f)
  | Decimal.D2 r => (Decimal.rev r, Decimal.D2 f)
  | Decimal.D3 r => (Decimal.rev r, Decimal.D3 f)
  | Decimal.D4 r => (Decimal.rev r, Decimal.D4 f)
  | Decimal.D5 r => (Decimal.rev r, Decimal.D5 f)
  | Decimal.D6 r => (Decimal.rev r, Decimal.D6 f)
  | Decimal.D7 r => (Decimal.rev r, Decimal.D7 f)
  | Decimal.D8 r => (Decimal.rev r, Decimal.D8 f)
  | Decimal.D9 r => (Decimal.rev r, Decimal.D9 f)
  end.

(** [neg i.f] times ten to the [e]. *)
Definition scaled (neg : bool) (i f : Decimal.uint) (e : Z) : number :=
  let '(i', f') :=
    Nat.iter (Z.to_nat (Z.abs e)) (if (0 <=? e)%Z then times_ten else tenth) (i, f) in
  canon neg i' f'.

(** ** JavaScript values *)

#[local] Unset Elimination Schemes.
Inductive jsval : Type :=
| VUndefined
| VNull
| VBool (b : bool)
| VNum (n : number)
| VStr (s : string)
| VDate (t : option Z)               (* a Date object: its time value, [None] when invalid *)
| VNative (name : string)            (* a built-in of Object.prototype, reached by inheritance *)
| VArr (items : list jsval)
| VObj (fields : list (string * jsval)).   (* own properties, in creation order *)

#[local] Set Elimination Schemes.

(** Induction over values that reaches the elements of arrays and the
    values of fields. *)
Definition jsval_ind (P : jsval -> Prop)
    (Hundef : P VUndefined) (Hnull : P VNull) (Hbool : forall b, P (VBool b))
    (Hnum : forall n, P (VNum n)) (Hstr : forall s, P (VStr s))
    (Hdate : forall t, P (VDate t)) (Hnative : forall n, P (VNative n))
    (Harr : forall items, Forall P items -> P (VArr items))
    (Hobj : forall fields, Forall (fun kv => P (snd kv)) fields -> P (VObj fields)) :
  forall v, P v :=
  fix IH (v : jsval) : P v :=
    match v with
    | VUndefined => Hundef
    | VNull => Hnull
    | VBool b => Hbool b
    | VNum n => Hnum n
    | VStr s => Hstr s
    | VDate t => Hdate t
    | VNative n => Hnative n
    | VArr items =>
        Harr items
          ((fix go (l : list jsval) : Forall P l :=
              match l with
              | [] => @List.Forall_nil _ P
              | x :: xs => @List.Forall_cons _ P x xs (IH x) (go xs)
              end) items)
    | VObj fields =>
        Hobj fields
          ((fix go (l : list (string * jsval)) : Forall (fun kv => P (snd kv)) l :=
              match l with
              | [] => @List.Forall_nil _ (fun kv => P (snd kv))
              | (k, x) :: xs => @List.Forall_cons _ (fun kv => P (snd kv)) (k, x) xs (IH x) (go xs)
              end) fields)
    end.

(** [ToBoolean]: the falsy values are undefined, null, false, 0 and the
    empty string. *)
Definition truthy (v : jsval) : bool :=
  match v with
  | VUndefined | VNull => false
  | VBool b => b
  | VNum n => negb (is_zero n)
  | VStr s => negb (String.eqb s "")
  | VDate _ | VNative _ | VArr _ | VObj _ => true
  end.

Definition nullish (v : jsval) : bool :=
  match v with
  | VUndefined | VNull => true
  | _ => false
  end.

(** [v === 0] *)
Definition strict_eq_zero (v : jsval) : bool :=
  match v with
  | VNum n => is_zero n
  | _ => false
  end.

(** Own property of an object literal or parsed object: the first binding
    of the key. *)
Fixpoint assoc (k : string) (fields : list (string * jsval)) : option jsval :=
  match fields with
  | [] => None
  | (k', v) :: rest => if String.eqb k k' then Some v else assoc k rest
  end.

(** ** Strings *)

Definition byte (c : ascii) : N := N_of_ascii c.

(** White space and line terminators that are one byte long. *)
Definition is_ws1 (c : ascii) : bool :=
  let n := byte c in ((9 <=? n) && (n <=? 13) || (n =? 32))%N.

(** U+00A0. *)
Definition is_ws2 (c1 c2 : ascii) : bool :=
  ((byte c1 =? 194) && (byte c2 =? 160))%N.

(** U+1680, U+2000..U+200A, U+2028, U+2029, U+202F, U+205F, U+3000, U+FEFF. *)
Definition is_ws3 (c1 c2 c3 : ascii) : bool :=
  let '(a, b, c) := (byte c1, byte c2, byte c3) in
  ((a =? 225) && (b =? 154) && (c =? 128)
   || (a =? 226) && (b =? 128)
      && ((128 <=? c) && (c <=? 138) || (c =? 168) || (c =? 169) || (c =? 175))
   || (a =? 226) && (b =? 129) && (c =? 159)
   || (a =? 227) && (b =? 128) && (c =? 128)
   || (a =? 239) && (b =? 187) && (c =? 191))%N.

Fixpoint trimStart (s : string) : string :=
  match s with
  | "" => ""
  | String c1 s1 =>
      if is_ws1 c1 then trimStart s1
      else match s1 with
           | String c2 s2 =>
               if is_ws2 c1 c2 then trimStart s2
               else match s2 with
                    | String c3 s3 => if is_ws3 c1 c2 c3 then trimStart s3 else s
                    | "" => s
                    end
           | "" => s
           end
  end.

Definition blank (s : string) : bool := String.eqb (trimStart s) "".

Fixpoint trimEnd (s : string) : string :=
  match s with
  | "" => ""
  | String c s' => if blank s then "" else String c (trimEnd s')
  end.

(** [String.prototype.trim] *)
Definition trim (s : string) : string := trimEnd (trimStart s).

(** [s.replaceAll(c, r)] for a one-character pattern. *)
Fixpoint replaceAll (c : ascii) (r : string) (s : string) : string :=
  match s with
  | "" => ""
  | String a s' => (if Ascii.eqb a c then r else String a "") +:+ replaceAll c r s'
  end.

Fixpoint join (sep : string) (l : list string) : string :=
  match l with
  | [] => ""
  | [x] => x
  | x :: rest => x +:+ sep +:+ join sep rest
  end.

Definition hex_digit (upper : bool) (n : N) : ascii :=
  if (n <? 10)%N then ascii_of_N (48 + n)
  else ascii_of_N ((if upper then 55 else 87) + n).

Definition hex2 (upper : bool) (c : ascii) : string :=
  String (hex_digit upper (byte c / 16)) (String (hex_digit upper (byte c mod 16)) "").

(** ** JSON text

    [JSON.stringify(value, null, 2)] and [JSON.parse(text)]. *)

Definition ch_quote : ascii := "034"%char.
Definition ch_bslash : ascii := "092"%char.
Definition ch_nl : ascii := "010"%char.

(** [QuoteJSONString], one character at a time. *)
Definition escape_char (c : ascii) : string :=
  let n := byte c in
  if (n =? 34)%N then String ch_bslash (String ch_quote "")
  else if (n =? 92)%N then String ch_bslash (String ch_bslash "")
  else if (n =? 8)%N then String ch_bslash "b"
  else if (n =? 12)%N then String ch_bslash "f"
  else if (n =? 10)%N then String ch_bslash "n"
  else if (n =? 13)%N then String ch_bslash "r"
  else if (n =? 9)%N then String ch_bslash "t"
  else if (n <? 32)%N then String ch_bslash ("u00" +:+ hex2 false c)
  else String c "".

Fixpoint escape (s : string) : string :=
  match s with
  | "" => ""
  | String c s' => escape_char c +:+ escape s'
  end.

Definition quote (s : string) : string :=
  String ch_quote (escape s +:+ String ch_quote "").

Fixpoint spaces (n : nat) : string :=
  match n with
  | O => ""
  | S n' => String " " (spaces n')
  end.

(** A line break followed by the indentation of the current depth. *)
Definition nl (ind : nat) : string := String ch_nl (spaces ind).

Definition bracket (open close : string) (ind : nat) (parts : list string) : string :=
  match parts with
  | [] => open +:+ close
  | _ => open +:+ nl (ind + 2) +:+ join ("," +:+ nl (ind + 2)) parts +:+ nl ind +:+ close
  end.

Fixpoint zeros (n : nat) : string :=
  match n with
  | O => ""
  | S n' => String "0" (zeros n')
  end.

(** Zero-padded decimal of a non-negative number. *)
Definition pad (width : nat) (n : Z) : string :=
  let d := NilZero.string_of_uint (N.to_uint (Z.to_N n)) in
  zeros (width - String.length d) +:+ d.

(** [Date.prototype.toISOString] of a valid time value (milliseconds since
    the epoch, proleptic Gregorian calendar, UTC). *)
Definition toISOString (t : Z) : string :=
  let days := (t / 86400000)%Z in
  let ms := (t mod 86400000)%Z in
  let z := (days + 719468)%Z in
  let era := (z / 146097)%Z in
  let doe := (z - era * 146097)%Z in
  let yoe := ((doe - doe / 1460 + doe / 36524 - doe / 146096) / 365)%Z in
  let doy := (doe - (365 * yoe + yoe / 4 - yoe / 100))%Z in
  let mp := ((5 * doy + 2) / 153)%Z in
  let d := (doy - (153 * mp + 2) / 5 + 1)%Z in
  let m := (if mp <? 10 then mp + 3 else mp - 9)%Z in
  let y := (yoe + era * 400 + (if m <=? 2 then 1 else 0))%Z in
  let year :=
    if ((0 <=? y) && (y <=? 9999))%Z then pad 4 y
    else (if (y <? 0)%Z then "-" else "+") +:+ pad 6 (Z.abs y) in
  year +:+ "-" +:+ pad 2 m +:+ "-" +:+ pad 2 d +:+ "T"
    +:+ pad 2 (ms / 3600000) +:+ ":" +:+ pad 2 ((ms / 60000) mod 60) +:+ ":"
    +:+ pad 2 ((ms / 1000) mod 60) +:+ "." +:+ pad 3 (ms mod 1000) +:+ "Z".

(** The texts of the members of an object: a field whose value has no JSON
    form is left out. *)
Definition member_texts (ser : jsval -> option string)
  : list (string * jsval) -> list string :=
  fix go (l : list (string * jsval)) : list string :=
    match l with
    | [] => []
    | (k, x) :: rest =>
        match ser x with
        | Some s => (quote k +:+ ": " +:+ s) :: go rest
        | None => go rest
        end
    end.

(** [SerializeJSONProperty] with a gap of two spaces: [None] is the
    [undefined] that [JSON.stringify] returns for values with no JSON form.
    The built-ins are functions and have none, but for [__proto__], which is
    [Object.prototype] itself: an object with no enumerable property. *)
Fixpoint serialize (ind : nat) (v : jsval) : option string :=
  match v with
  | VUndefined => None
  | VNative name => if String.eqb name "__proto__" then Some "{}" else None
  | VNull => Some "null"
  | VBool b => Some (if b then "true" else "false")
  | VNum n => Some (number_to_string n)
  | VStr s => Some (quote s)
  | VDate None => Some "null"
  | VDate (Some t) => Some (quote (toISOString t))
  | VArr items =>
      Some (bracket "[" "]" ind
              (List.map (fun x => default "null" (serialize (ind + 2) x)) items))
  | VObj fields =>
      Some (bracket "{" "}" ind (member_texts (serialize (ind + 2)) fields))
  end.

Definition JSON_stringify (v : jsval) : option string := serialize 0 v.

Definition member_images (img : jsval -> option jsval)
  : list (string * jsval) -> list (string * jsval) :=
  fix go (l : list (string * jsval)) : list (string * jsval) :=
    match l with
    | [] => []
    | (k, x) :: rest =>
        match img x with
        | Some j => (k, j) :: go rest
        | None => go rest
        end
    end.

(** The value that the text of [JSON_stringify v] denotes: dates become
    their ISO strings, fields without a JSON form are left out, array
    elements without one become null, [Object.prototype] becomes an object
    without fields. *)
Fixpoint JSON_image (v : jsval) : option jsval :=
  match v with
  | VUndefined => None
  | VNative name => if String.eqb name "__proto__" then Some (VObj []) else None
  | VDate None => Some VNull
  | VDate (Some t) => Some (VStr (toISOString t))
  | VArr items => Some (VArr (List.map (fun x => default VNull (JSON_image x)) items))
  | VObj fields => Some (VObj (member_images JSON_image fields))
  | _ => Some v
  end.

(** *** Parsing *)

Definition is_json_ws (c : ascii) : bool :=
  let n := byte c in ((n =? 32) || (n =? 9) || (n =? 10) || (n =? 13))%N.

Fixpoint skip_ws (s : string) : string :=
  match s with
  | "" => ""
  | String c s' => if is_json_ws c then skip_ws s' else s
  end.

Fixpoint strip_prefix (p s : string) : option string :=
  match p with
  | "" => Some s
  | String a p' =>
      match s with
      | "" => None
      | String b s' => if Ascii.eqb a b then strip_prefix p' s' else None
      end
  end.

(** Bytes of the code unit written by a [\uXXXX] escape.  A surrogate half
    is kept in its three-byte form. *)
Definition utf8 (n : N) : string :=
  if (n <? 128)%N then String (ascii_of_N n) ""
  else if (n <? 2048)%N then
    String (ascii_of_N (192 + n / 64)) (String (ascii_of_N (128 + n mod 64)) "")
  else
    String (ascii_of_N (224 + n / 4096))
      (String (ascii_of_N (128 + (n / 64) mod 64))
         (String (ascii_of_N (128 + n mod 64)) "")).

Definition hex_val (c : ascii) : option N :=
  let n := byte c in
  if ((48 <=? n) && (n <=? 57))%N then Some (n - 48)%N
  else if ((65 <=? n) && (n <=? 70))%N then Some (n - 55)%N
  else if ((97 <=? n) && (n <=? 102))%N then Some (n - 87)%N
  else None.

(** The character a two-character escape stands for. *)
Definition unescape (c : ascii) : option ascii :=
  let n := byte c in
  if ((n =? 34) || (n =? 92) || (n =? 47))%N then Some c
  else if (n =? 98)%N then Some "008"%char
  else if (n =? 102)%N then Some "012"%char
  else if (n =? 110)%N then Some "010"%char
  else if (n =? 114)%N then Some "013"%char
  else if (n =? 116)%N then Some "009"%char
  else None.

Inductive lex_state : Type :=
| LexChar                          (* between characters *)
| LexEsc                           (* after a backslash *)
| LexHex (k : nat) (acc : N).      (* after [\u] and [k] hexadecimal digits *)

Definition prepend (p : string) (r : option (string * string)) : option (string * string) :=
  match r with
  | Some (s, rest) => Some (p +:+ s, rest)
  | None => None
  end.

(** The body of a string literal, after its opening quote: the decoded
    string and the text after the closing quote. *)
Fixpoint scan_string (st : lex_state) (s : string) : option (string * string) :=
  match s with
  | "" => None
  | String c s' =>
      match st with
      | LexChar =>
          if Ascii.eqb c ch_quote then Some ("", s')
          else if Ascii.eqb c ch_bslash then scan_string LexEsc s'
          else if (byte c <? 32)%N then None
          else prepend (String c "") (scan_string LexChar s')
      | LexEsc =>
          match unescape c with
          | Some d => prepend (String d "") (scan_string LexChar s')
          | None => if Ascii.eqb c "u" then scan_string (LexHex 0 0) s' else None
          end
      | LexHex k acc =>
          match hex_val c with
          | None => None
          | Some d =>
              let acc' := (acc * 16 + d)%N in
              if (k =? 3)%nat then prepend (utf8 acc') (scan_string LexChar s')
              else scan_string (LexHex (S k) acc') s'
          end
      end
  end.

Definition is_digit (c : ascii) : bool :=
  ((48 <=? byte c) && (byte c <=? 57))%N.

Fixpoint take_digits (s : string) : string * string :=
  match s with
  | "" => ("", "")
  | String c s' =>
      if is_digit c then let '(d, r) := take_digits s' in (String c d, r)
      else ("", s)
  end.

(** The text goes on with an exponent. *)
Definition continues_exponent (s : string) : bool :=
  match s with
  | "" => false
  | String c _ => Ascii.eqb c "e" || Ascii.eqb c "E"
  end.

(** The text goes on with a fraction or an exponent. *)
Definition continues_number (s : string) : bool :=
  match s with
  | "" => false
  | String c _ => Ascii.eqb c "." || Ascii.eqb c "e" || Ascii.eqb c "E"
  end.

(** No superfluous leading zero. *)
Definition plain_digits (d : string) : bool :=
  match d with
  | String c (String _ _) => negb (Ascii.eqb c "0")
  | _ => true
  end.

Definition parse_sign (s : string) : bool * string :=
  match s with
  | "" => (false, s)
  | String c r => if Ascii.eqb c "-" then (true, r) else (false, s)
  end.

(** Digits, at least one. *)
Definition parse_digits (s : string) : option (Decimal.uint * string) :=
  let '(d, rest) := take_digits s in
  match NilZero.uint_of_string d with
  | Some u => Some (u, rest)
  | None => None
  end.

(** A point and the digits after it, if any. *)
Definition parse_fraction (s : string) : option (Decimal.uint * string) :=
  match s with
  | "" => Some (Decimal.Nil, s)
  | String c r => if Ascii.eqb c "." then parse_digits r else Some (Decimal.Nil, s)
  end.

(** An exponent, if any. *)
Definition parse_exponent (s : string) : option (Z * string) :=
  if continues_exponent s then
    match s with
    | "" => None
    | String _ r =>
        let '(neg, r1) :=
          match r with
          | "" => (false, r)
          | String c r' =>
              if Ascii.eqb c "-" then (true, r')
              else if Ascii.eqb c "+" then (false, r')
              else (false, r)
          end in
        '(u, rest) ← parse_digits r1;
        Some (Z.of_int (if neg then Decimal.Neg u else Decimal.Pos u), rest)
    end
  else Some (0%Z, s).

(** A JSON number: sign, digits without a superfluous leading zero,
    fraction, exponent. *)
Definition parse_number (s : string) : option (number * string) :=
  let '(neg, s1) := parse_sign s in
  let '(d, r1) := take_digits s1 in
  if plain_digits d then
    match NilZero.uint_of_string d with
    | Some i =>
        '(f, r2) ← parse_fraction r1;
        '(e, r3) ← parse_exponent r2;
        Some (scaled neg i f e, r3)
    | None => None
    end
  else None.

Fixpoint remove_key (k : string) (fields : list (string * jsval)) : list (string * jsval) :=
  match fields with
  | [] => []
  | (k', v) :: rest =>
      if String.eqb k k' then remove_key k rest else (k', v) :: remove_key k rest
  end.

(** Member [k: v] in front of the members [later] that follow it in the
    text: a repeated key keeps its first position and its last value. *)
Definition define (k : string) (v : jsval) (later : list (string * jsval))
  : list (string * jsval) :=
  match assoc k later with
  | Some v' => (k, v') :: remove_key k later
  | None => (k, v) :: later
  end.

Fixpoint parse_value (fuel : nat) (s : string) {struct fuel} : option (jsval * string) :=
  match fuel with
  | O => None
  | S f =>
      match skip_ws s with
      | "" => None
      | String c r =>
          if is_digit c || Ascii.eqb c "-" then
            '(n, r') ← parse_number (String c r); Some (VNum n, r')
          else if Ascii.eqb c ch_quote then
            '(str, r') ← scan_string LexChar r; Some (VStr str, r')
          else if Ascii.eqb c "[" then
            match skip_ws r with
            | "" => None
            | String c2 r2 =>
                if Ascii.eqb c2 "]" then Some (VArr [], r2)
                else '(l, r') ← parse_elements f r; Some (VArr l, r')
            end
          else if Ascii.eqb c "{" then
            match skip_ws r with
            | "" => None
            | String c2 r2 =>
                if Ascii.eqb c2 "}" then Some (VObj [], r2)
                else '(l, r') ← parse_members f r; Some (VObj l, r')
            end
          else if Ascii.eqb c "n" then r' ← strip_prefix "ull" r; Some (VNull, r')
          else if Ascii.eqb c "t" then r' ← strip_prefix "rue" r; Some (VBool true, r')
          else if Ascii.eqb c "f" then r' ← strip_prefix "alse" r; Some (VBool false, r')
          else None
      end
  end
with parse_elements (fuel : nat) (s : string) {struct fuel} : option (list jsval * string) :=
  match fuel with
  | O => None
  | S f =>
      '(v, r) ← parse_value f s;
      match skip_ws r with
      | "" => None
      | String c r' =>
          if Ascii.eqb c "," then '(vs, r'') ← parse_elements f r'; Some (v :: vs, r'')
          else if Ascii.eqb c "]" then Some ([v], r')
          else None
      end
  end
with parse_members (fuel : nat) (s : string) {struct fuel}
  : option (list (string * jsval) * string) :=
  match fuel with
  | O => None
  | S f =>
      match skip_ws s with
      | "" => None
      | String c r =>
          if Ascii.eqb c ch_quote then
            '(k, r1) ← scan_string LexChar r;
            match skip_ws r1 with
            | "" => None
            | String c1 r2 =>
                if Ascii.eqb c1 ":" then
                  '(v, r3) ← parse_value f r2;
                  match skip_ws r3 with
                  | "" => None
                  | String c3 r4 =>
                      if Ascii.eqb c3 "," then
                        '(ms, r5) ← parse_members f r4; Some (define k v ms, r5)
                      else if Ascii.eqb c3 "}" then Some ([(k, v)], r4)
                      else None
                  end
                else None
            end
          else None
      end
  end.

(** [JSON.parse]: [None] is the [SyntaxError]. *)
Definition JSON_parse (s : string) : option jsval :=
  '(v, r) ← parse_value (S (2 * String.length s)) s;
  if String.eqb (skip_ws r) "" then Some v else None.

(** Pairwise distinct keys. *)
Fixpoint distinct (keys : list string) : bool :=
  match keys with
  | [] => true
  | k :: rest => negb (existsb (String.eqb k) rest) && distinct rest
  end.

(** A value as JavaScript can hold it: the keys of an object are pairwise
    distinct, and a number has one expansion. *)
Fixpoint wf (v : jsval) : bool :=
  match v with
  | VNum n => canonical n
  | VArr items => forallb wf items
  | VObj fields =>
      distinct (List.map fst fields) && forallb (fun kv => wf (snd kv)) fields
  | _ => true
  end.

(** ** Property access *)

(** Exceptions the program can raise or meet. *)
Inductive exn : Type :=
| Error (msg : string)        (* [new Error(msg)] thrown by the program *)
| TypeError                   (* reading a property of undefined or null, calling what is
                                 not a function, an argument of the wrong type *)
| SyntaxError                 (* [JSON.parse] on malformed text *)
| SystemError (code : string) (* a failed file-system call *)
| FetchError (msg : string).  (* the request failed or its body is not JSON *)

Inductive completion (A : Type) : Type :=
| Ok (a : A)
| Err (e : exn).
Arguments Ok {A} a.
Arguments Err {A} e.

Definition rbind {A B : Type} (r : completion A) (k : A -> completion B) : completion B :=
  match r with
  | Ok a => k a
  | Err e => Err e
  end.

(** The names every object inherits from [Object.prototype]. *)
Definition Object_prototype_names : list string :=
  ["constructor"; "toString"; "toLocaleString"; "valueOf"; "hasOwnProperty";
   "isPrototypeOf"; "propertyIsEnumerable"; "__defineGetter__"; "__defineSetter__";
   "__lookupGetter__"; "__lookupSetter__"; "__proto__"].

Definition inherited (k : string) : jsval :=
  if existsb (String.eqb k) Object_prototype_names then VNative k else VUndefined.

(** [v.k] for a property name [k] that is neither an index nor one of the
    names particular to strings, arrays, dates and functions ([length],
    [map], ...): the program reads no such name from a value it did not
    build itself. *)
Definition get (v : jsval) (k : string) : completion jsval :=
  match v with
  | VUndefined | VNull => Err TypeError
  | VObj fields =>
      match assoc k fields with
      | Some x => Ok x
      | None => Ok (inherited k)
      end
  | _ => Ok (inherited k)
  end.

(** [v[0]]; of a string, its first character when that is an ASCII one. *)
Definition index0 (v : jsval) : completion jsval :=
  match v with
  | VUndefined | VNull => Err TypeError
  | VArr items => Ok (List.nth 0 items VUndefined)
  | VObj fields => Ok (default VUndefined (assoc "0" fields))
  | VStr (String c _) => Ok (VStr (String c ""))
  | _ => Ok VUndefined
  end.

Definition from_result (r : completion jsval) : jsval :=
  match r with
  | Ok v => v
  | Err _ => VUndefined
  end.

(** [v?.k] and [v?.[0]]: undefined on undefined and null, never an exception. *)
Definition opt_get (v : jsval) (k : string) : jsval :=
  if nullish v then VUndefined else from_result (get v k).

Definition opt_index0 (v : jsval) : jsval :=
  if nullish v then VUndefined else from_result (index0 v).

(** ** Data of the program ([types.ts]) *)

Record FlightQuery : Type := {
  dates : list string;          (* yyyy-mm-dd *)
  origins : list string;
  destinations : list string
}.

Record Trip : Type := {
  depart : option FlightQuery;
  return_ : option FlightQuery
}.

Inductive LegType : Type := Depart | Return.

Definition trip_leg (t : Trip) (type : LegType) : option FlightQuery :=
  match type with
  | Depart => depart t
  | Return => return_ t
  end.

(** The [trip] constant of [index.ts]. *)
Definition trip : Trip := {|
  depart := Some {| origins := ["Budapest"; "Berlin"; "London"];
                    destinations := ["Corfu"];
                    dates := ["2025-09-11"; "2025-09-12"] |};
  return_ := Some {| origins := ["Corfu"];
                     destinations := ["Budapest"; "Berlin"; "London"];
                     dates := ["2025-09-16"; "2025-09-17"] |}
|}.

(** The argument of [getFlights]. *)
Record FlightOpt : Type := {
  date : string;
  origin : string;
  destination : string
}.

(** ** The world of a run *)

(** What a call of [fs.writeFile] with a string comes to: the file holds the
    text, or the call is rejected with the code of a system error -- no such
    directory, no permission, no space left -- and the file is as it was
    ([remains = None]) or holds what was written of it. *)
Inductive write_outcome : Type :=
| Written
| WriteFailed (code : string) (remains : option string).

Record World : Type := {
  RAPID_API_KEY : option string;      (* [process.env.RAPID_API_KEY] once dotenv has run *)
  files : gmap string string;         (* the files of the working directory *)
  cityInfo : gmap string jsval;       (* own properties of [cache.cityInfo] *)
  provider : list string -> string -> completion jsval;
                                      (* the reply to a request for a path, after the
                                         requests made so far *)
  requests : list string;             (* paths requested from the provider, oldest first *)
  spreadsheet : jsval -> completion unit; (* outcome of rendering a trip result *)
  rendered : list jsval;              (* trip results rendered, oldest first *)
  disk : string -> string -> write_outcome
                                      (* what writing a text to a path comes to *)
}.

Definition with_files (f : gmap string string) (w : World) : World :=
  {| RAPID_API_KEY := RAPID_API_KEY w; files := f; cityInfo := cityInfo w;
     provider := provider w; requests := requests w;
     spreadsheet := spreadsheet w; rendered := rendered w; disk := disk w |}.

Definition with_cityInfo (c : gmap string jsval) (w : World) : World :=
  {| RAPID_API_KEY := RAPID_API_KEY w; files := files w; cityInfo := c;
     provider := provider w; requests := requests w;
     spreadsheet := spreadsheet w; rendered := rendered w; disk := disk w |}.

Definition with_requests (r : list string) (w : World) : World :=
  {| RAPID_API_KEY := RAPID_API_KEY w; files := files w; cityInfo := cityInfo w;
     provider := provider w; requests := r;
     spreadsheet := spreadsheet w; rendered := rendered w; disk := disk w |}.

Definition with_rendered (r : list jsval) (w : World) : World :=
  {| RAPID_API_KEY := RAPID_API_KEY w; files := files w; cityInfo := cityInfo w;
     provider := provider w; requests := requests w;
     spreadsheet := spreadsheet w; rendered := r;
     disk := disk w |}.

Definition M (A : Type) : Type := World -> completion A * World.

Definition ret {A : Type} (a : A) : M A := fun w => (Ok a, w).

Definition throw {A : Type} (e : exn) : M A := fun w => (Err e, w).

Definition bind {A B : Type} (m : M A) (k : A -> M B) : M B :=
  fun w =>
    match m w with
    | (Ok a, w') => k a w'
    | (Err e, w') => (Err e, w')
    end.

(** [try { body } catch (err) { handler }] *)
Definition try_catch {A : Type} (body : M A) (handler : exn -> M A) : M A :=
  fun w =>
    match body w with
    | (Ok a, w') => (Ok a, w')
    | (Err e, w') => handler e w'
    end.

(** A computation that cannot touch the world. *)
Definition lift {A : Type} (r : completion A) : M A := fun w => (r, w).

Declare Scope js_scope.
Delimit Scope js_scope with js.
Notation "'let*' x := m 'in' k" := (bind m (fun x => k))
  (at level 10, x name, m at level 100, k at level 200) : js_scope.
Local Open Scope js_scope.

(** [for (const x of xs) { acc = body(x, acc) }] *)
Fixpoint for_of {A S : Type} (xs : list A) (body : A -> S -> M S) (acc : S) : M S :=
  match xs with
  | [] => ret acc
  | x :: rest => let* acc' := body x acc in for_of rest body acc'
  end.

(** [xs.filter(p)] for a predicate that can throw. *)
Definition filter_r (p : jsval -> completion bool) : list jsval -> completion (list jsval) :=
  fix go (xs : list jsval) : completion (list jsval) :=
    match xs with
    | [] => Ok []
    | x :: rest =>
        rbind (p x) (fun keep =>
        rbind (go rest) (fun kept =>
        Ok (if keep then x :: kept else kept)))
    end.

(** [xs.forEach(x => out.push(f(x)))] for a body that can throw. *)
Definition map_r {A B : Type} (f : A -> completion B) : list A -> completion (list B) :=
  fix go (xs : list A) : completion (list B) :=
    match xs with
    | [] => Ok []
    | x :: rest =>
        rbind (f x) (fun y => rbind (go rest) (fun ys => Ok (y :: ys)))
    end.

(** ** Built-ins whose result depends on the host *)

Section Program.

(** [Date.parse] accepts formats beyond ISO 8601 that differ between
    engines, and [Date.prototype.toString] prints in the local time zone:
    both are parameters.  [None] is the invalid time value. *)
Variable Date_parse : string -> option Z.
Variable Date_toString : option Z -> string.

Definition native_source (name : string) : string :=
  if String.eqb name "__proto__" then "[object Object]"
  else "function " +:+ name +:+ "() { [native code] }".

(** [String(v)], as used by template literals and [URLSearchParams.append].
    An object whose own [toString] is data cannot be converted. *)
Fixpoint ToString (v : jsval) : completion string :=
  match v with
  | VUndefined => Ok "undefined"
  | VNull => Ok "null"
  | VBool b => Ok (if b then "true" else "false")
  | VNum n => Ok (number_to_string n)
  | VStr s => Ok s
  | VDate t => Ok (Date_toString t)
  | VNative name => Ok (native_source name)
  | VArr items =>
      rbind (map_r (fun x => if nullish x then Ok "" else ToString x) items)
            (fun parts => Ok (join "," parts))
  | VObj fields =>
      match assoc "toString" fields with
      | Some _ => Err TypeError
      | None => Ok "[object Object]"
      end
  end.

(** [TimeClip]: the time value of a number of milliseconds, its integer
    part when it is at most 8.64e15 in magnitude. *)
Definition time_clip (n : number) : option Z :=
  let t := truncate n in
  if ((Z.abs t <? 8640000000000000)
      || (Z.abs t =? 8640000000000000)
         && Decimal.uint_beq (Decimal.nzhead (fraction n)) Decimal.Nil)%Z
  then Some t else None.

(** [new Date(v)] *)
Definition new_Date (v : jsval) : completion jsval :=
  match v with
  | VDate t => Ok (VDate t)
  | VStr s => Ok (VDate (Date_parse s))
  | VNum n => Ok (VDate (time_clip n))
  | VUndefined => Ok (VDate None)
  | VNull => Ok (VDate (Some 0%Z))
  | VBool b => Ok (VDate (Some (if b then 1%Z else 0%Z)))
  | VArr _ | VObj _ | VNative _ => rbind (ToString v) (fun s => Ok (VDate (Date_parse s)))
  end.

(** ** [index.ts] *)

(** The [application/x-www-form-urlencoded] serializer of
    [URLSearchParams.toString]. *)
Definition urlencode_char (c : ascii) : string :=
  let n := byte c in
  if (n =? 32)%N then "+"
  else if ((48 <=? n) && (n <=? 57) || (65 <=? n) && (n <=? 90) || (97 <=? n) && (n <=? 122)
           || (n =? 42) || (n =? 45) || (n =? 46) || (n =? 95))%N
       then String c ""
  else "%" +:+ hex2 true c.

Fixpoint urlencode (s : string) : string :=
  match s with
  | "" => ""
  | String c s' => urlencode_char c +:+ urlencode s'
  end.

(** [query(params)]: the parameters that are neither undefined nor null, in
    the order of the object literal. *)
Definition query (params : list (string * jsval)) : completion string :=
  rbind (map_r (fun '(k, v) =>
                  rbind (ToString v) (fun s => Ok (urlencode k +:+ "=" +:+ urlencode s)))
               (List.filter (fun '(_, v) => negb (nullish v)) params))
        (fun pairs => Ok ("?" +:+ join "&" pairs)).

(** [flightUrl(opt)] *)
Definition flightUrl (originId destinationId : jsval) (date : string) : completion string :=
  rbind (ToString originId) (fun o =>
  rbind (ToString destinationId) (fun d =>
  Ok ("https://www.skyscanner.hu/transport/flights/" +:+ o +:+ "/" +:+ d +:+ "/"
        +:+ replaceAll "-" "" date
        +:+ "/?adultsv2=1&cabinclass=economy&childrenv2=&ref=home&rtn=0&preferdirects=true&outboundaltsenabled=false&inboundaltsenabled=false"))).

Definition missing_key : exn := Error "RAPID_API_KEY environment variable is required.".

(** [!RAPID_API_KEY] *)
Definition key_missing (w : World) : bool :=
  match RAPID_API_KEY w with
  | Some k => String.eqb k ""
  | None => true
  end.

(** [fetchSkyscanner(path)]: one GET request to the provider. *)
Definition fetchSkyscanner (path : string) : M jsval :=
  fun w =>
    if key_missing w then (Err missing_key, w)
    else (provider w (requests w) path, with_requests (requests w ++ [path]) w).

(** [cache.cityInfo[name]] *)
Definition lookup_cityInfo (name : string) (w : World) : jsval :=
  match cityInfo w !! name with
  | Some v => v
  | None => inherited name
  end.

(** [cache.cityInfo[name] = info] *)
Definition store_cityInfo (name : string) (info : jsval) : M unit :=
  fun w =>
    (Ok tt, with_cityInfo (<[name := info]> (cityInfo w)) w).

(** [result.inputSuggest?.[0]?.navigation?.relevantFlightParams] *)
Definition suggestion (result : jsval) : completion jsval :=
  rbind (get result "inputSuggest") (fun suggest =>
  Ok (opt_get (opt_get (opt_index0 suggest) "navigation") "relevantFlightParams")).

Definition unknown_city (name : string) (result : jsval) : exn :=
  Error ("Unknown city: " +:+ name +:+ ", response: "
           +:+ default "undefined" (JSON_stringify result)).

Definition lookup_path (name : string) : completion string :=
  rbind (query [("query", VStr name)]) (fun q => Ok ("/flights/auto-complete" +:+ q)).

Definition getCityInfo (name : string) : M jsval :=
  fun w =>
    if truthy (lookup_cityInfo name w) then (Ok (lookup_cityInfo name w), w)
    else
      (let* path := lift (lookup_path name) in
       let* result := fetchSkyscanner path in
       let* info := lift (suggestion result) in
       if negb (truthy info) then throw (unknown_city name result)
       else
         let* _ := store_cityInfo name info in
         ret info) w.

(** [item.legs[0]?.stopCount] *)
Definition first_stopCount (item : jsval) : completion jsval :=
  rbind (get item "legs") (fun legs =>
  rbind (index0 legs) (fun leg =>
  Ok (opt_get leg "stopCount"))).

(** [item.legs[0]?.stopCount === 0] *)
Definition nonstop (item : jsval) : completion bool :=
  rbind (first_stopCount item) (fun stops => Ok (strict_eq_zero stops)).

(** The object pushed for a retained itinerary whose first leg is [data]. *)
Definition pushed (opt : FlightOpt) (originInfo destinationInfo flight data : jsval)
  : completion jsval :=
  rbind (get data "origin") (fun o =>
  rbind (get o "name") (fun origin_name =>
  rbind (get data "destination") (fun d =>
  rbind (get d "name") (fun destination_name =>
  rbind (get data "departure") (fun departure =>
  rbind (new_Date departure) (fun departsAt =>
  rbind (get data "arrival") (fun arrival =>
  rbind (new_Date arrival) (fun arrivesAt =>
  rbind (get originInfo "skyId") (fun originId =>
  rbind (get destinationInfo "skyId") (fun destinationId =>
  rbind (flightUrl originId destinationId (date opt)) (fun url =>
  rbind (get flight "price") (fun price =>
  rbind (get price "raw") (fun raw =>
  rbind (get data "carriers") (fun carriers =>
  rbind (get carriers "marketing") (fun marketing =>
  rbind (index0 marketing) (fun first =>
  Ok (VObj [("date", VStr (date opt));
            ("origin", origin_name);
            ("destination", destination_name);
            ("departsAt", departsAt);
            ("arrivesAt", arrivesAt);
            ("url", VStr url);
            ("price", raw);
            ("carrier", opt_get first "name")]))))))))))))))))).

(** One round of the [forEach]: [const data = flight.legs[0]], then the
    object pushed. *)
Definition flightResult (opt : FlightOpt) (originInfo destinationInfo flight : jsval)
  : completion jsval :=
  rbind (get flight "legs") (fun legs =>
  rbind (index0 legs) (fun data =>
  pushed opt originInfo destinationInfo flight data)).

(** [result.data?.itineraries?.buckets?.[0]] *)
Definition first_bucket (result : jsval) : completion jsval :=
  rbind (get result "data") (fun data =>
  Ok (opt_index0 (opt_get (opt_get data "itineraries") "buckets"))).

(** [bucket.items!.filter(p)]: only an array has [filter]. *)
Definition items_filter (bucket : jsval) (p : jsval -> completion bool) : completion (list jsval) :=
  rbind (get bucket "items") (fun items =>
  match items with
  | VArr l => filter_r p l
  | _ => Err TypeError
  end).

Definition search_path (opt : FlightOpt) (originInfo destinationInfo : jsval)
  : completion string :=
  rbind (get originInfo "skyId") (fun o_sky =>
  rbind (get originInfo "entityId") (fun o_ent =>
  rbind (get destinationInfo "skyId") (fun d_sky =>
  rbind (get destinationInfo "entityId") (fun d_ent =>
  rbind (query [("date", VStr (date opt));
                ("origin", o_sky);
                ("originId", o_ent);
                ("destination", d_sky);
                ("destinationId", d_ent);
                ("cabinClass", VStr "economy");
                ("adults", VNum (number_of_Z 1));
                ("currency", VStr "EUR")]) (fun q =>
  Ok ("/flights/one-way/list" +:+ q)))))).

(** What [getFlights] makes of the provider's reply (from the first bucket
    to the returned list). *)
Definition nonstopFlights (opt : FlightOpt) (originInfo destinationInfo result : jsval)
  : completion (list jsval) :=
  rbind (first_bucket result) (fun bucket =>
  if negb (truthy bucket) then Ok []
  else
    rbind (items_filter bucket nonstop) (fun fightOptions =>
    map_r (flightResult opt originInfo destinationInfo) fightOptions)).

Definition getFlights (opt : FlightOpt) : M (list jsval) :=
  let* originInfo := getCityInfo (origin opt) in
  let* destinationInfo := getCityInfo (destination opt) in
  let* path := lift (search_path opt originInfo destinationInfo) in
  let* result := fetchSkyscanner path in
  lift (nonstopFlights opt originInfo destinationInfo result).

Definition getFlightResults (trip : Trip) (type : LegType) : M (list jsval) :=
  match trip_leg trip type with
  | None => ret []
  | Some leg =>
      for_of (origins leg) (fun origin results =>
        for_of (destinations leg) (fun destination results =>
          for_of (dates leg) (fun date results =>
            let* found := getFlights {| origin := origin; destination := destination;
                                        date := date |} in
            ret (results ++ found))
          results)
        results)
      []
  end.

(** [fs.readFile(path, 'utf-8')] *)
Definition readFile (path : string) : M string :=
  fun w =>
    match files w !! path with
    | Some data => (Ok data, w)
    | None => (Err (SystemError "ENOENT"), w)
    end.

(** [fs.writeFile(path, data, 'utf-8')]: [data] must be a string, and the
    write is the disk's to accept. *)
Definition writeFile (path : string) (data : option string) : M unit :=
  fun w =>
    match data with
    | None => (Err TypeError, w)
    | Some text =>
        match disk w path text with
        | Written => (Ok tt, with_files (<[path := text]> (files w)) w)
        | WriteFailed code None => (Err (SystemError code), w)
        | WriteFailed code (Some partial) =>
            (Err (SystemError code), with_files (<[path := partial]> (files w)) w)
        end
    end.

Definition cache_path (name : string) : string := "cache-" +:+ name +:+ ".json".

Definition useFileCache (name : string) (fetchData : M jsval) : M jsval :=
  let filePath := cache_path name in
  try_catch
    (let* data := readFile filePath in
     if negb (truthy (VStr (trim data))) then throw (Error "Cache is empty")
     else
       match JSON_parse data with
       | Some v => ret v
       | None => throw SyntaxError
       end)
    (fun err =>
       let* result := fetchData in
       let* _ := writeFile (cache_path name) (JSON_stringify result) in
       ret result).

(** [writeToSpreadSheet(result)]: the rendering is the spreadsheet
    backend's; the run only learns whether it succeeded. *)
Definition writeToSpreadSheet (result : jsval) : M unit :=
  fun w =>
    match spreadsheet w result with
    | Ok _ => (Ok tt, with_rendered (rendered w ++ [result]) w)
    | Err e => (Err e, w)
    end.

(** The function passed to [useFileCache] by [main]. *)
Definition searchTrip (trip : Trip) : M jsval :=
  let* departing := getFlightResults trip Depart in
  let* returning := getFlightResults trip Return in
  ret (VObj [("depart", VArr departing); ("return", VArr returning)]).

Definition cachedTrip (trip : Trip) : M jsval := useFileCache "results" (searchTrip trip).

Definition main (trip : Trip) : M unit :=
  let* result := cachedTrip trip in
  writeToSpreadSheet result.

(** The operations of the pipeline, and the world they leave. *)
Inductive operation : Type :=
| OpGetCityInfo (name : string)
| OpGetFlights (opt : FlightOpt)
| OpGetFlightResults (t : Trip) (type : LegType)
| OpCachedTrip (t : Trip)
| OpMain (t : Trip).

Definition after (op : operation) (w : World) : World :=
  match op with
  | OpGetCityInfo name => snd (getCityInfo name w)
  | OpGetFlights opt => snd (getFlights opt w)
  | OpGetFlightResults t type => snd (getFlightResults t type w)
  | OpCachedTrip t => snd (cachedTrip t w)
  | OpMain t => snd (main t w)
  end.

(** The world after a sequence of operations, each started when the one
    before it has ended. *)
Fixpoint run (ops : list operation) (w : World) : World :=
  match ops with
  | [] => w
  | op :: rest => run rest (after op w)
  end.

(** The provider, asked now for [name], has no usable suggestion. *)
Definition no_suggestion (name : string) (w : World) : Prop :=
  truthy (lookup_cityInfo name w) = false
  /\ key_missing w = false
  /\ exists path reply info,
       lookup_path name = Ok path
       /\ provider w (requests w) path = Ok reply
       /\ suggestion reply = Ok info
       /\ truthy info = false.

End Program.

(** ** The rows of the sheet

    [formatTime], [formatDate] and the rows that [writeToSpreadSheet]
    computes before it calls the spreadsheet service. *)

(** [JSON.stringify(value)], without indentation. *)
Definition member_texts_compact (ser : jsval -> option string)
  : list (string * jsval) -> list string :=
  fix go (l : list (string * jsval)) : list string :=
    match l with
    | [] => []
    | (k, x) :: rest =>
        match ser x with
        | Some s => (quote k +:+ ":" +:+ s) :: go rest
        | None => go rest
        end
    end.

Fixpoint serialize_compact (v : jsval) : option string :=
  match v with
  | VUndefined => None
  | VNative name => if String.eqb name "__proto__" then Some "{}" else None
  | VNull => Some "null"
  | VBool b => Some (if b then "true" else "false")
  | VNum n => Some (number_to_string n)
  | VStr s => Some (quote s)
  | VDate None => Some "null"
  | VDate (Some t) => Some (quote (toISOString t))
  | VArr items =>
      Some ("[" +:+ join "," (List.map (fun x => default "null" (serialize_compact x)) items)
              +:+ "]")
  | VObj fields =>
      Some ("{" +:+ join "," (member_texts_compact serialize_compact fields) +:+ "}")
  end.

(** The date of a day number, counted from the epoch, in the proleptic
    Gregorian calendar: year, month (1 to 12) and day of the month. *)
Definition civil_from_days (days : Z) : Z * Z * Z :=
  let z := (days + 719468)%Z in
  let era := (z / 146097)%Z in
  let doe := (z - era * 146097)%Z in
  let yoe := ((doe - doe / 1460 + doe / 36524 - doe / 146096) / 365)%Z in
  let doy := (doe - (365 * yoe + yoe / 4 - yoe / 100))%Z in
  let mp := ((5 * doy + 2) / 153)%Z in
  let d := (doy - (153 * mp + 2) / 5 + 1)%Z in
  let m := (if mp <? 10 then mp + 3 else mp - 9)%Z in
  let y := (yoe + era * 400 + (if m <=? 2 then 1 else 0))%Z in
  (y, m, d).

Definition leap (y : Z) : bool :=
  ((y mod 4 =? 0) && (negb (y mod 100 =? 0) || (y mod 400 =? 0)))%Z.

Definition days_in_month (y m : Z) : Z :=
  if (m =? 2)%Z then (if leap y then 29 else 28)%Z
  else if ((m =? 4) || (m =? 6) || (m =? 9) || (m =? 11))%Z then 30%Z
  else 31%Z.

(** The day [d] of the month [m] of the year [y] exists. *)
Definition calendar_date (y m d : Z) : bool :=
  ((1 <=? m) && (m <=? 12) && (1 <=? d) && (d <=? days_in_month y m))%Z.

(** The date of the day before a date. *)
Definition day_before (y m d : Z) : Z * Z * Z :=
  if (1 <? d)%Z then (y, m, d - 1)%Z
  else if (1 <? m)%Z then (y, m - 1, days_in_month y (m - 1))%Z
  else (y - 1, 12, 31)%Z.

(** [Day(t)], [MonthFromTime(t)] (0 to 11) and [DateFromTime(t)] (1 to 31). *)
Definition Day (t : Z) : Z := (t / 86400000)%Z.

Definition MonthFromTime (t : Z) : Z :=
  let '(_, m, _) := civil_from_days (Day t) in (m - 1)%Z.

Definition DateFromTime (t : Z) : Z :=
  let '(_, _, d) := civil_from_days (Day t) in d.

(** The time value of a Date object. *)
Definition time_value (d : jsval) : option Z :=
  match d with
  | VDate t => t
  | _ => None
  end.

Definition SHEET_NAME : string := "Repjegyek".

Section Sheet.

(** The local time zone and the formatting of times belong to the host:
    [LocalTZA t] is the offset of local time from UTC, in milliseconds, at
    the time value [t], and [Date_toLocaleTimeString] is
    [toLocaleTimeString('en-GB', { hour: '2-digit', minute: '2-digit',
    hour12: false })] of a time value. *)
Variable Date_parse : string -> option Z.
Variable Date_toString : option Z -> string.
Variable LocalTZA : Z -> Z.
Variable Date_toLocaleTimeString : option Z -> string.

(** [formatTime(date)] *)
Definition formatTime (date : jsval) : completion string :=
  rbind (new_Date Date_parse Date_toString date) (fun d =>
  Ok (Date_toLocaleTimeString (time_value d))).

(** [`${month}.${day}.`] for the month and the day of local time, each
    [String(n).padStart(2, '0')]; for an invalid date both are [NaN]. *)
Definition date_label (t : option Z) : string :=
  match t with
  | Some t =>
      let local := (t + LocalTZA t)%Z in
      pad 2 (MonthFromTime local + 1) +:+ "." +:+ pad 2 (DateFromTime local) +:+ "."
  | None => "NaN.NaN."
  end.

(** [formatDate(date)] *)
Definition formatDate (date : jsval) : completion string :=
  rbind (new_Date Date_parse Date_toString date) (fun d =>
  Ok (date_label (time_value d))).

Definition headers : list jsval :=
  List.map (fun h => VStr ("  " +:+ h +:+ "  "))
    ["Reptér"; "Reptér"; "Dátum"; "Felszállás"; "Érkezés"; "Ár (EUR)"; "Társaság"].

(** The formula of the third cell. *)
Definition hyperlink (url date : jsval) : completion string :=
  let target := default "undefined" (serialize_compact url) in
  rbind (formatDate date) (fun label =>
  Ok ("=HYPERLINK(" +:+ target +:+ "; " +:+ String ch_quote label
        +:+ String ch_quote ")")).

(** The row of one element of [[...result.depart, null, ...result.return]]. *)
Definition row (flight : jsval) : completion jsval :=
  if truthy flight then
    rbind (get flight "origin") (fun origin_name =>
    rbind (get flight "destination") (fun destination_name =>
    rbind (get flight "url") (fun url =>
    rbind (get flight "date") (fun date =>
    rbind (hyperlink url date) (fun link =>
    rbind (get flight "departsAt") (fun departsAt =>
    rbind (formatTime departsAt) (fun departs =>
    rbind (get flight "arrivesAt") (fun arrivesAt =>
    rbind (formatTime arrivesAt) (fun arrives =>
    rbind (get flight "price") (fun price =>
    rbind (get flight "carrier") (fun carrier =>
    Ok (VArr [origin_name; destination_name; VStr link; VStr departs; VStr arrives;
              price; carrier]))))))))))))
  else Ok (VArr []).

(** [values] and [data], for a trip result whose [depart] and [return] are
    arrays, as the type [TripResult] says and as the search builds them. *)
Definition values (departing returning : list jsval) : completion (list jsval) :=
  map_r row (departing ++ VNull :: returning).

Definition data (departing returning : list jsval) : completion (list jsval) :=
  rbind (values departing returning) (fun rows => Ok (VArr headers :: rows)).

End Sheet.

(** The object that [getFlights] builds for an itinerary. *)
Definition flight_result (date url : string) (origin_name destination_name : jsval)
    (departs arrives : option Z) (price carrier : jsval) : jsval :=
  VObj [("date", VStr date);
        ("origin", origin_name);
        ("destination", destination_name);
        ("departsAt", VDate departs);
        ("arrivesAt", VDate arrives);
        ("url", VStr url);
        ("price", price);
        ("carrier", carrier)].

Definition is_flight_result (r : jsval) : Prop :=
  exists date url origin_name destination_name departs arrives price carrier,
    r = flight_result date url origin_name destination_name departs arrives price carrier.

(** ** Notions used by the properties *)

(** The three ways in which the cache file does not yield a value. *)
Definition cache_miss (name : string) (w : World) : Prop :=
  files w !! cache_path name = None
  \/ exists data, files w !! cache_path name = Some data
                  /\ (trim data = "" \/ JSON_parse data = None).

(** What [useFileCache] does when the file yields no value. *)
Definition recompute (name : string) (fetchData : M jsval) : M jsval :=
  let* result := fetchData in
  let* _ := writeFile (cache_path name) (JSON_stringify result) in
  ret result.

(** The queries of a leg as the specification lists them: the cross
    product, origins outermost, destinations next, dates innermost. *)
Definition expand (leg : FlightQuery) : list FlightOpt :=
  flat_map (fun o =>
    flat_map (fun d =>
      List.map (fun t => {| date := t; origin := o; destination := d |}) (dates leg))
      (destinations leg))
    (origins leg).

(** One call after the other, stopping at the first exception. *)
Fixpoint mapM {A B : Type} (f : A -> M B) (xs : list A) : M (list B) :=
  match xs with
  | [] => ret []
  | x :: rest =>
      let* y := f x in
      let* ys := mapM f rest in
      ret (y :: ys)
  end.

(** The queries of a run, in the order in which [main] searches them. *)
Definition leg_queries (leg : option FlightQuery) : list FlightOpt :=
  match leg with
  | Some l => expand l
  | None => []
  end.

Definition queries (t : Trip) : list FlightOpt :=
  leg_queries (depart t) ++ leg_queries (return_ t).

(** A request for city suggestions. *)
Definition is_lookup (path : string) : bool := String.prefix "/flights/auto-complete" path.

(** The items that [filter] keeps when the predicate raises no exception. *)
Definition is_nonstop (item : jsval) : bool :=
  match nonstop item with
  | Ok b => b
  | Err _ => false
  end.

(** A computation respects an invariant [I] and a relation [R] between the
    world before and after when, started in a world of [I], it ends --
    normally or by an exception -- in a world of [I] related to the first. *)
Definition respects (I : World -> Prop) (R : World -> World -> Prop)
    {A : Type} (m : M A) : Prop :=
  forall w r w', I w -> m w = (r, w') -> R w w' /\ I w'.

(** [w'] has the environment, files, provider and spreadsheet of [w], and
    its requests followed by others. *)
Record frame (w w' : World) : Prop := {
  frame_key : RAPID_API_KEY w' = RAPID_API_KEY w;
  frame_files : files w' = files w;
  frame_provider : provider w' = provider w;
  frame_spreadsheet : spreadsheet w' = spreadsheet w;
  frame_rendered : rendered w' = rendered w;
  frame_requests : requests w `prefix_of` requests w'
}.

Definition always (w : World) : Prop := True.

(** Every value stored in the city mapping is truthy. *)
Definition truthy_entries (w : World) : Prop :=
  map_Forall (fun _ v => truthy v = true) (cityInfo w).

(** The cities known in [w] are known, with the same descriptor, in [w']. *)
Definition keeps_cities (w w' : World) : Prop :=
  forall name v, cityInfo w !! name = Some v -> cityInfo w' !! name = Some v.

(** What may follow the digits of a number in a well-formed text. *)
Definition ends_number (rest : string) : bool :=
  match rest with
  | "" => true
  | String c _ => negb (is_digit c) && negb (continues_number rest)
  end.

(** The first character of a serialized value starts a value. *)
Definition starts_value (s : string) : Prop :=
  exists c t, s = String c t /\ is_json_ws c = false
              /\ Ascii.eqb c "]" = false /\ Ascii.eqb c "}" = false
              /\ is_ws1 c = false /\ (byte c <? 128)%N = true.

(** Parsing the text of a value written by [serialize], whatever follows. *)
Definition parses_back (v : jsval) : Prop :=
  forall ind s j f rest,
    wf v = true -> serialize ind v = Some s -> JSON_image v = Some j ->
    (String.length s < f)%nat -> ends_number rest = true ->
    parse_value f (s +:+ rest) = Some (j, rest).


Definition elem_text (i : nat) (x : jsval) : string := default "null" (serialize i x).
Definition elem_image (x : jsval) : jsval := default VNull (JSON_image x).

(** ** A sample host, provider and run *)

Definition digits_value (s : string) : option Z :=
  match NilZero.uint_of_string s with
  | Some u => Some (Z.of_uint u)
  | None => None
  end.

(** Days since the epoch of a date of the proleptic Gregorian calendar. *)
Definition days_from_civil (y m d : Z) : Z :=
  let y' := (if m <=? 2 then y - 1 else y)%Z in
  let era := (y' / 400)%Z in
  let yoe := (y' - era * 400)%Z in
  let doy := ((153 * (if 2 <? m then m - 3 else m + 9) + 2) / 5 + d - 1)%Z in
  let doe := (yoe * 365 + yoe / 4 - yoe / 100 + doy)%Z in
  (era * 146097 + doe - 719468)%Z.

(** A host whose [Date.parse] reads [YYYY-MM-DDTHH:mm:ssZ] and nothing else. *)
Definition sample_Date_parse (s : string) : option Z :=
  let part := fun i n => digits_value (String.substring i n s) in
  let sep := fun i c => String.eqb (String.substring i 1 s) c in
  if (String.length s =? 20)%nat && sep 4%nat "-" && sep 7%nat "-" && sep 10%nat "T"
     && sep 13%nat ":" && sep 16%nat ":" && sep 19%nat "Z"
  then
    match part 0%nat 4%nat, part 5%nat 2%nat, part 8%nat 2%nat,
          part 11%nat 2%nat, part 14%nat 2%nat, part 17%nat 2%nat with
    | Some y, Some m, Some d, Some hh, Some mm, Some ss =>
        if ((1 <=? m) && (m <=? 12) && (1 <=? d) && (d <=? 31)
            && (hh <=? 23) && (mm <=? 59) && (ss <=? 59))%Z
        then Some (days_from_civil y m d * 86400000
                   + hh * 3600000 + mm * 60000 + ss * 1000)%Z
        else None
    | _, _, _, _, _, _ => None
    end
  else None.

Definition sample_Date_toString (t : option Z) : string :=
  match t with
  | Some ms => toISOString ms
  | None => "Invalid Date"
  end.

Definition suggest (skyId entityId : string) : jsval :=
  VObj [("inputSuggest",
         VArr [VObj [("navigation",
                      VObj [("relevantFlightParams",
                             VObj [("skyId", VStr skyId); ("entityId", VStr entityId)])])]])].

Definition itinerary (stops : Z) (price : Z) (carrier : string) : jsval :=
  VObj [("legs",
         VArr [VObj [("stopCount", VNum (number_of_Z stops));
                     ("origin", VObj [("name", VStr "Budapest")]);
                     ("destination", VObj [("name", VStr "Corfu")]);
                     ("departure", VStr "2025-09-11T06:00:00Z");
                     ("arrival", VStr "2025-09-11T08:00:00Z");
                     ("carriers", VObj [("marketing", VArr [VObj [("name", VStr carrier)]])])]]);
        ("price", VObj [("raw", VNum (number_of_Z price))])].

(** A provider that knows Budapest and Corfu and offers one direct and one
    one-stop flight for every search. *)
Definition sample_provider (history : list string) (path : string) : completion jsval :=
  if String.eqb path "/flights/auto-complete?query=Budapest" then Ok (suggest "BUD" "1")
  else if String.eqb path "/flights/auto-complete?query=Corfu" then Ok (suggest "CFU" "2")
  else if String.prefix "/flights/auto-complete" path then Ok (VObj [("inputSuggest", VArr [])])
  else
    Ok (VObj [("data",
               VObj [("itineraries",
                      VObj [("buckets",
                             VArr [VObj [("items",
                                          VArr [itinerary 0 123 "Test Air";
                                                itinerary 1 99 "Slow Air"])]])])])]).

Definition sample_world : World := {|
  RAPID_API_KEY := Some "secret";
  files := ∅;
  cityInfo := ∅;
  provider := sample_provider;
  requests := [];
  spreadsheet := fun _ => Ok tt;
  rendered := [];
  disk := fun _ _ => Written
|}.

Definition sample_trip : Trip := {|
  depart := Some {| origins := ["Budapest"]; destinations := ["Corfu"];
                    dates := ["2025-09-11"] |};
  return_ := None
|}.

(** The trip result with no flight, and its text. *)
Definition empty_result : jsval := VObj [("depart", VArr []); ("return", VArr [])].

Definition empty_result_text : string :=
  match JSON_stringify empty_result with
  | Some text => text
  | None => EmptyString
  end.

(** The sample world without an API key and with a cached trip result. *)
Definition warm_world : World := {|
  RAPID_API_KEY := None;
  files := {[ cache_path "results" := empty_result_text ]};
  cityInfo := ∅;
  provider := sample_provider;
  requests := [];
  spreadsheet := fun _ => Ok tt;
  rendered := [];
  disk := fun _ _ => Written
|}.

(** The sample world with a cache file that is not JSON. *)
Definition broken_world : World :=
  with_files {[ cache_path "results" := "{" ]} sample_world.

(** The sample world without an API key. *)
Definition keyless_world : World := {|
  RAPID_API_KEY := None;
  files := ∅;
  cityInfo := ∅;
  provider := sample_provider;
  requests := [];
  spreadsheet := fun _ => Ok tt;
  rendered := [];
  disk := fun _ _ => Written
|}.

(** A trip whose second origin the sample provider does not know. *)
Definition nowhere_trip : Trip := {|
  depart := Some {| origins := ["Budapest"; "Nowhereland"]; destinations := ["Corfu"];
                    dates := ["2025-09-11"; "2025-09-12"] |};
  return_ := None
|}.

Definition sample_opt : FlightOpt :=
  {| date := "2025-09-11"; origin := "Budapest"; destination := "Corfu" |}.

(** The sample run of the search, unfolded: its result, the world after it
    and the text written to the cache. *)
Definition sample_search : completion jsval * World :=
  searchTrip sample_Date_parse sample_Date_toString sample_trip sample_world.

Definition sample_result : jsval :=
  match fst sample_search with
  | Ok v => v
  | Err _ => VUndefined
  end.

Definition sample_result_text : string :=
  match JSON_stringify sample_result with
  | Some text => text
  | None => EmptyString
  end.

(** A reply whose first bucket has no items. *)
Definition reply_without_items : jsval :=
  VObj [("data", VObj [("itineraries", VObj [("buckets", VArr [VObj [("id", VStr "Best")]])])])].

Definition sample_bucket : jsval :=
  VObj [("items", VArr [itinerary 0 123 "Test Air"; itinerary 1 99 "Slow Air"])].

Definition sample_reply : jsval :=
  VObj [("data", VObj [("itineraries", VObj [("buckets", VArr [sample_bucket])])])].

(** ** Notions used by the further properties *)

(** How often a character occurs in a text. *)
Fixpoint occurrences (c : ascii) (s : string) : nat :=
  match s with
  | "" => 0%nat
  | String a s' => ((if Ascii.eqb a c then 1 else 0) + occurrences c s')%nat
  end.

(** The parser of [application/x-www-form-urlencoded] values, as the
    receiver of a query string applies it: a plus sign is a space, a percent
    sign followed by two hexadecimal digits is the byte they denote. *)
Fixpoint urldecode (s : string) : string :=
  match s with
  | "" => ""
  | String c r =>
      if Ascii.eqb c "+" then String " " (urldecode r)
      else if Ascii.eqb c "%" then
        match r with
        | String h (String l r') =>
            match hex_val h, hex_val l with
            | Some a, Some b => String (ascii_of_N (16 * a + b)) (urldecode r')
            | _, _ => String c (urldecode r)
            end
        | _ => String c (urldecode r)
        end
      else String c (urldecode r)
  end.

(** The name is resolved without a request. *)
Definition resolved (name : string) (w : World) : Prop :=
  truthy (lookup_cityInfo name w) = true.

(** The requests for suggestions and the searches among some requests. *)
Definition lookups (paths : list string) : list string := List.filter is_lookup paths.

Definition searches (paths : list string) : list string :=
  List.filter (fun path => negb (is_lookup path)) paths.

(** The request for the suggestions of a name. *)
Definition lookup_request (name : string) : string :=
  "/flights/auto-complete?query=" +:+ urlencode name.

(** [w'] has the requests of [w] followed by [new]. *)
Definition asked (w w' : World) (new : list string) : Prop :=
  requests w' = requests w ++ new.

(** No name that is resolved in [w] is unresolved or asked for on the way
    to [w']. *)
Definition keeps_resolved (w w' : World) : Prop :=
  exists new,
    asked w w' new
    /\ forall name, resolved name w ->
                    lookup_cityInfo name w' = lookup_cityInfo name w
                    /\ ~ In (lookup_request name) new.

(** The world [w'] is reached from [w] by [n] searches and by one request
    for the suggestions of each name in [cities] that was not resolved in
    [w]; these names are resolved in [w']. *)
Definition searched (cities : list string) (n : nat) (w w' : World) : Prop :=
  exists new,
    asked w w' new
    /\ length (searches new) = n
    /\ List.NoDup (lookups new)
    /\ (forall path, In path (lookups new) ->
          exists name, In name cities /\ path = lookup_request name
                       /\ ~ resolved name w /\ resolved name w')
    /\ (forall name, resolved name w -> resolved name w' /\ ~ In (lookup_request name) new)
    /\ (forall name, In name cities -> resolved name w').

(** The cities of some queries. *)
Definition cities_of (qs : list FlightOpt) : list string :=
  flat_map (fun q => [origin q; destination q]) qs.

(** The replies of the provider and the stored descriptors are values as
    JavaScript can hold them (the replies are what [res.json()] returns). *)
Definition wf_world (w : World) : Prop :=
  (forall history path reply, provider w history path = Ok reply -> wf reply = true)
  /\ map_Forall (fun _ info => wf info = true) (cityInfo w).

(** A value that the cache file gives back as it is: undefined, which an
    object loses and finds again in the field that is missing, or a value
    that is its own JSON image. *)
Definition cachable (v : jsval) : Prop := v = VUndefined \/ JSON_image v = Some v.

(** The replies of the provider are JSON values: what [res.json()] returns. *)
Definition json_replies (w : World) : Prop :=
  forall history path reply, provider w history path = Ok reply -> JSON_image reply = Some reply.

(** A flight result whose fields taken from the reply come back from the
    cache file as they are. *)
Definition cachable_flight (r : jsval) : Prop :=
  exists date url origin_name destination_name departs arrives price carrier,
    r = flight_result date url origin_name destination_name departs arrives price carrier
    /\ cachable origin_name /\ cachable destination_name
    /\ cachable price /\ cachable carrier.

(** The times of a flight result are valid, and the host reads the ISO
    string of each back as the time it is. *)
Definition times_read_back (Date_parse : string -> option Z) (r : jsval) : Prop :=
  exists departs arrives,
    get r "departsAt" = Ok (VDate (Some departs))
    /\ get r "arrivesAt" = Ok (VDate (Some arrives))
    /\ Date_parse (toISOString departs) = Some departs
    /\ Date_parse (toISOString arrives) = Some arrives.

(** The fields of an itinerary that [getFlights] reads without a guard
    are there: the origin, the destination and the carriers of the first
    leg, the marketing carriers among them, and the price. *)
Definition complete_itinerary (flight : jsval) : Prop :=
  exists legs leg origin_place destination_place carriers marketing price,
    get flight "legs" = Ok legs /\ index0 legs = Ok leg
    /\ get leg "origin" = Ok origin_place /\ nullish origin_place = false
    /\ get leg "destination" = Ok destination_place /\ nullish destination_place = false
    /\ get leg "carriers" = Ok carriers /\ nullish carriers = false
    /\ get carriers "marketing" = Ok marketing /\ nullish marketing = false
    /\ get flight "price" = Ok price /\ nullish price = false.

(** What a run can change: [w'] has the environment, the provider and the
    spreadsheet of [w] and its files but for the cache file of the trip;
    its requests and its renderings are those of [w] followed by others. *)
Record footprint (w w' : World) : Prop := {
  footprint_key : RAPID_API_KEY w' = RAPID_API_KEY w;
  footprint_provider : provider w' = provider w;
  footprint_spreadsheet : spreadsheet w' = spreadsheet w;
  footprint_files :
    forall path, path <> cache_path "results" -> files w' !! path = files w !! path;
  footprint_requests : requests w `prefix_of` requests w';
  footprint_rendered : rendered w `prefix_of` rendered w'
}.

(** *** Further samples *)

(** A world whose spreadsheet refuses every result. *)
Definition refusing_world : World := {|
  RAPID_API_KEY := Some "secret";
  files := ∅;
  cityInfo := ∅;
  provider := sample_provider;
  requests := [];
  spreadsheet := fun _ => Err (FetchError "The caller does not have permission");
  rendered := [];
  disk := fun _ _ => Written
|}.

(** The sample world in a directory without subdirectories: a file whose
    path has a slash cannot be created there. *)
Definition flat_world : World := {|
  RAPID_API_KEY := Some "secret";
  files := ∅;
  cityInfo := ∅;
  provider := sample_provider;
  requests := [];
  spreadsheet := fun _ => Ok tt;
  rendered := [];
  disk := fun path _ =>
            if (0 <? occurrences "/" path)%nat then WriteFailed "ENOENT" None else Written
|}.

(** A trip with cities and no date. *)
Definition dateless_trip : Trip := {|
  depart := Some {| origins := ["Budapest"; "Berlin"]; destinations := ["Corfu"];
                    dates := [] |};
  return_ := None
|}.

(** The sample world once Budapest is resolved. *)
Definition resolved_world : World :=
  snd (getCityInfo sample_Date_toString "Budapest" sample_world).

(** A host one hour ahead of UTC that prints times as [HH:mm]. *)
Definition sample_LocalTZA (t : Z) : Z := 3600000%Z.

(** A host five hours behind UTC. *)
Definition western_LocalTZA (t : Z) : Z := (-18000000)%Z.

(** A host whose [Date.parse] reads [YYYY-MM-DDTHH:mm:ssZ] and, with the
    milliseconds, [YYYY-MM-DDTHH:mm:ss.sssZ], the format of [toISOString]. *)
Definition iso_Date_parse (s : string) : option Z :=
  if (String.length s =? 24)%nat && String.eqb (String.substring 19 1 s) "."
     && String.eqb (String.substring 23 1 s) "Z"
  then
    match sample_Date_parse (String.substring 0 19 s +:+ "Z"),
          digits_value (String.substring 20 3 s) with
    | Some t, Some ms => Some (t + ms)%Z
    | _, _ => None
    end
  else sample_Date_parse s.

Definition sample_Date_toLocaleTimeString (t : option Z) : string :=
  match t with
  | Some ms =>
      let local := ((ms + sample_LocalTZA ms) mod 86400000)%Z in
      pad 2 (local / 3600000) +:+ ":" +:+ pad 2 ((local / 60000) mod 60)
  | None => "Invalid Date"
  end.

(** A cached flight: its times are strings. *)
Definition cached_flight : jsval :=
  VObj [("date", VStr "2025-09-11"); ("origin", VStr "Budapest");
        ("destination", VStr "Corfu");
        ("departsAt", VStr "2025-09-11T06:00:00Z");
        ("arrivesAt", VStr "2025-09-11T08:00:00Z");
        ("url", VStr "https://www.skyscanner.hu/");
        ("price", VNum (number_of_Z 123)); ("carrier", VStr "Test Air")].

(** A direct itinerary without a price, and a reply that offers it. *)
Definition priceless_itinerary : jsval :=
  VObj [("legs",
         VArr [VObj [("stopCount", VNum (number_of_Z 0));
                     ("origin", VObj [("name", VStr "Budapest")]);
                     ("destination", VObj [("name", VStr "Corfu")]);
                     ("departure", VStr "2025-09-11T06:00:00Z");
                     ("arrival", VStr "2025-09-11T08:00:00Z");
                     ("carriers", VObj [("marketing", VArr [])])]])].

Definition priceless_reply : jsval :=
  VObj [("data",
         VObj [("itineraries",
                VObj [("buckets",
                       VArr [VObj [("items",
                                    VArr [itinerary 0 123 "Test Air";
                                          priceless_itinerary])]])])])].

(** * Properties *)

(** ** Strings *)

Lemma sapp_assoc (a b c : string) : (a +:+ b) +:+ c = a +:+ b +:+ c.
Proof. induction a as [|x a IH]; simpl; [reflexivity | now rewrite IH]. Qed.

Lemma sapp_nil_r (a : string) : a +:+ "" = a.
Proof. induction a as [|x a IH]; simpl; [reflexivity | now rewrite IH]. Qed.

Lemma slength_app (a b : string) :
  String.length (a +:+ b) = (String.length a + String.length b)%nat.
Proof. induction a as [|x a IH]; simpl; [reflexivity | now rewrite IH]. Qed.

Example toISOString_epoch : toISOString 0 = "1970-01-01T00:00:00.000Z".
Proof. reflexivity. Qed.
Example toISOString_2025 : toISOString 1757570400000 = "2025-09-11T06:00:00.000Z".
Proof. reflexivity. Qed.
Example toISOString_bc : toISOString (-62198755200000) = "-000001-01-01T00:00:00.000Z".
Proof. reflexivity. Qed.

(** ** JSON text: parsing what was serialized *)

Example JSON_parse_numbers :
  JSON_parse "[123.45, -15.050e-3, 1E2, -0.0, 7]"
  = Some (VArr [VNum (canon false (Decimal.D1 (Decimal.D2 (Decimal.D3 Decimal.Nil)))
                                  (Decimal.D4 (Decimal.D5 Decimal.Nil)));
                VNum (canon true (Decimal.D0 Decimal.Nil)
                                 (Decimal.D0 (Decimal.D1 (Decimal.D5
                                   (Decimal.D0 (Decimal.D5 Decimal.Nil))))));
                VNum (number_of_Z 100); VNum (number_of_Z 0); VNum (number_of_Z 7)]).
Proof. reflexivity. Qed.

Example JSON_parse_malformed_numbers :
  List.map JSON_parse ["01"; "1."; ".5"; "-"; "1e"; "+1"; "1e+"]
  = [None; None; None; None; None; None; None].
Proof. reflexivity. Qed.

Example JSON_stringify_numbers :
  JSON_stringify (VArr [VNum (canon false (Decimal.D1 (Decimal.D2 (Decimal.D3 Decimal.Nil)))
                                          (Decimal.D4 (Decimal.D5 Decimal.Nil)));
                        VNum (number_of_Z (-3))])
  = Some ("[" +:+ nl 2 +:+ "123.45," +:+ nl 2 +:+ "-3" +:+ nl 0 +:+ "]").
Proof. reflexivity. Qed.

Lemma skip_ws_spaces n s : skip_ws (spaces n +:+ s) = skip_ws s.
Proof. induction n as [|n IH]; simpl; [reflexivity | exact IH]. Qed.

Lemma skip_ws_nl ind s : skip_ws (nl ind +:+ s) = skip_ws s.
Proof. unfold nl. simpl. apply skip_ws_spaces. Qed.

Lemma scan_escape_char c rest :
  scan_string LexChar (escape_char c +:+ rest)
  = prepend (String c "") (scan_string LexChar rest).
Proof.
  destruct c as [[] [] [] [] [] [] [] []]; reflexivity.
Qed.

Lemma scan_quoted s rest :
  scan_string LexChar (escape s +:+ String ch_quote rest) = Some (s, rest).
Proof.
  induction s as [|c s IH]; simpl.
  - reflexivity.
  - rewrite sapp_assoc, scan_escape_char, IH. reflexivity.
Qed.

Lemma take_digits_uint d rest :
  (forall c r, rest = String c r -> is_digit c = false) ->
  take_digits (NilEmpty.string_of_uint d +:+ rest) = (NilEmpty.string_of_uint d, rest).
Proof.
  intros Hrest.
  induction d as [|d IH|d IH|d IH|d IH|d IH|d IH|d IH|d IH|d IH|d IH];
    simpl; try (rewrite IH; reflexivity).
  destruct rest as [|c rest]; simpl; [reflexivity|].
  now rewrite (Hrest c rest eq_refl).
Qed.

Lemma ends_number_digit rest :
  ends_number rest = true -> forall c r, rest = String c r -> is_digit c = false.
Proof.
  intros H c r ->. simpl in H. apply andb_true_iff in H as [H _].
  now apply negb_true_iff in H.
Qed.

Lemma ends_number_continues rest :
  ends_number rest = true -> continues_number rest = false.
Proof.
  destruct rest as [|c r]; [reflexivity|]. intros H.
  apply andb_true_iff in H as [_ H]. now apply negb_true_iff in H.
Qed.

Lemma nzhead_not_D0 d : match Decimal.nzhead d with Decimal.D0 _ => False | _ => True end.
Proof. induction d; simpl; auto. Qed.

Lemma unorm_not_Nil d : Decimal.unorm d <> Decimal.Nil.
Proof. unfold Decimal.unorm. destruct (Decimal.nzhead d); discriminate. Qed.

Lemma plain_digits_unorm d :
  plain_digits (NilZero.string_of_uint (Decimal.unorm d)) = true.
Proof.
  unfold Decimal.unorm. pose proof (nzhead_not_D0 d) as H.
  destruct (Decimal.nzhead d) as [|u|u|u|u|u|u|u|u|u|u]; try reflexivity;
    try (destruct u; reflexivity).
  contradiction.
Qed.

Lemma uint_head d :
  d <> Decimal.Nil ->
  exists c t, NilEmpty.string_of_uint d = String c t /\ is_digit c = true
              /\ Ascii.eqb c "-" = false /\ is_json_ws c = false.
Proof.
  destruct d; intros H; try (eexists _, _; repeat split; reflexivity).
  contradiction.
Qed.

Lemma string_of_uint_NilZero d :
  d <> Decimal.Nil -> NilZero.string_of_uint d = NilEmpty.string_of_uint d.
Proof. destruct d; [contradiction | reflexivity ..]. Qed.

Lemma parse_digits_uint d rest :
  d <> Decimal.Nil -> (forall c r, rest = String c r -> is_digit c = false) ->
  parse_digits (NilEmpty.string_of_uint d +:+ rest) = Some (d, rest).
Proof.
  intros Hnil Hrest. unfold parse_digits. rewrite take_digits_uint by assumption.
  rewrite <- string_of_uint_NilZero by assumption.
  now rewrite NilZero.usu.
Qed.

(** The fraction of a printed number is read back. *)
Lemma parse_fraction_printed f rest :
  ends_number rest = true ->
  parse_fraction (fraction_text f +:+ rest) = Some (f, rest).
Proof.
  intros Hrest.
  assert (forall g, g <> Decimal.Nil ->
            parse_fraction (("." +:+ NilEmpty.string_of_uint g) +:+ rest) = Some (g, rest)) as Hdot.
  { intros g Hg. simpl. apply parse_digits_uint; [assumption|].
    now apply ends_number_digit. }
  unfold fraction_text. destruct f; try (apply Hdot; discriminate).
  simpl. destruct rest as [|c r]; [reflexivity|].
  apply ends_number_continues in Hrest. simpl in Hrest. unfold parse_fraction.
  apply orb_false_iff in Hrest as [Hrest _]. apply orb_false_iff in Hrest as [-> _].
  reflexivity.
Qed.

Lemma parse_exponent_none rest :
  ends_number rest = true -> parse_exponent rest = Some (0%Z, rest).
Proof.
  intros Hrest. apply ends_number_continues in Hrest. unfold parse_exponent.
  destruct rest as [|c r]; [reflexivity|]. simpl in *.
  apply orb_false_iff in Hrest as [Hrest ->]. apply orb_false_iff in Hrest as [_ ->].
  reflexivity.
Qed.

Lemma canonical_canon n :
  canonical n = true -> canon (negative n) (integral n) (fraction n) = n.
Proof.
  unfold canonical, canon. destruct n as [neg i f]; simpl. intros H.
  apply andb_true_iff in H as [H Hz]. apply andb_true_iff in H as [Hi Hf].
  apply Decimal.internal_uint_dec_bl in Hi, Hf. rewrite Hi, Hf.
  f_equal. unfold is_zero in *. cbn [integral fraction] in *. rewrite Hi in *.
  destruct neg; [|reflexivity]. cbn [andb negb] in *. now rewrite Hz.
Qed.

Lemma canonical_integral n :
  canonical n = true -> Decimal.unorm (integral n) = integral n.
Proof.
  unfold canonical. intros H.
  apply andb_true_iff in H as [H _]. apply andb_true_iff in H as [H _].
  now apply Decimal.internal_uint_dec_bl.
Qed.

(** A canonical number is read back from its decimal text. *)
Lemma parse_number_printed n rest :
  canonical n = true -> ends_number rest = true ->
  parse_number (number_to_string n +:+ rest) = Some (n, rest).
Proof.
  intros Hn Hrest. pose proof (canonical_integral n Hn) as Hi.
  pose proof (canonical_canon n Hn) as Hc.
  assert (integral n <> Decimal.Nil) as Hnil
    by (rewrite <- Hi; apply unorm_not_Nil).
  set (tl := fraction_text (fraction n)).
  assert (number_to_string n +:+ rest
          = (if negative n then "-" else "")
            +:+ NilEmpty.string_of_uint (integral n) +:+ tl +:+ rest) as ->.
  { unfold number_to_string. rewrite string_of_uint_NilZero by assumption.
    fold tl. now rewrite !sapp_assoc. }
  assert (forall c r, tl +:+ rest = String c r -> is_digit c = false) as Htl.
  { subst tl. unfold fraction_text. destruct (fraction n); simpl; intros c r E;
      try (injection E as <- _; reflexivity).
    eapply ends_number_digit; eauto. }
  assert (parse_sign ((if negative n then "-" else "")
                      +:+ NilEmpty.string_of_uint (integral n) +:+ tl +:+ rest)
          = (negative n, NilEmpty.string_of_uint (integral n) +:+ tl +:+ rest)) as Hsign.
  { destruct (negative n); [reflexivity|]. simpl.
    destruct (uint_head (integral n) Hnil) as (c & t & Hs & _ & Hm & _).
    rewrite Hs. simpl. now rewrite Hm. }
  unfold parse_number. rewrite Hsign, take_digits_uint by assumption.
  rewrite <- string_of_uint_NilZero by assumption.
  rewrite <- Hi at 1. rewrite plain_digits_unorm.
  rewrite NilZero.usu by assumption.
  subst tl. rewrite parse_fraction_printed by assumption. simpl.
  rewrite parse_exponent_none by assumption. simpl.
  change (scaled (negative n) (integral n) (fraction n) 0)
    with (canon (negative n) (integral n) (fraction n)).
  now rewrite Hc.
Qed.

Lemma number_to_string_head n :
  exists c t, number_to_string n = String c t
              /\ (is_digit c || Ascii.eqb c "-") = true /\ is_json_ws c = false
              /\ Ascii.eqb c "]" = false /\ Ascii.eqb c "}" = false
              /\ is_ws1 c = false /\ (byte c <? 128)%N = true.
Proof.
  unfold number_to_string. destruct (negative n); simpl.
  - eexists _, _; repeat split; reflexivity.
  - destruct (integral n); eexists _, _; repeat split; reflexivity.
Qed.

Lemma serialize_head ind v s : serialize ind v = Some s -> starts_value s.
Proof.
  unfold starts_value.
  destruct v as [| |b|n|str|[t|]|nm|items|fields]; simpl; intros H;
    try destruct (String.eqb nm "__proto__"); try discriminate; injection H as <-.
  - eexists _, _; repeat split; reflexivity.
  - destruct b; eexists _, _; repeat split; reflexivity.
  - destruct (number_to_string_head n) as (c & t & -> & _ & ? & ? & ? & ? & ?). eauto 12.
  - eexists _, _; repeat split; reflexivity.
  - eexists _, _; repeat split; reflexivity.
  - eexists _, _; repeat split; reflexivity.
  - eexists _, _; repeat split; reflexivity.
  - unfold bracket. destruct (List.map _ items); eexists _, _; repeat split; reflexivity.
  - unfold bracket. destruct (member_texts _ fields); eexists _, _; repeat split; reflexivity.
Qed.

Lemma serialize_image_none ind v : serialize ind v = None <-> JSON_image v = None.
Proof.
  destruct v as [| |b|n|str|[t|]|nm|items|fields]; simpl;
    try destruct (String.eqb nm "__proto__"); split; congruence.
Qed.

Lemma parse_value_ws f c s :
  is_json_ws c = true -> parse_value f (String c s) = parse_value f s.
Proof. intros H. destruct f; simpl; [reflexivity | now rewrite H]. Qed.

Lemma parse_value_spaces f n s : parse_value f (spaces n +:+ s) = parse_value f s.
Proof. induction n as [|n IH]; simpl; [reflexivity|]. now rewrite parse_value_ws. Qed.

Lemma parse_value_nl f ind s : parse_value f (nl ind +:+ s) = parse_value f s.
Proof. unfold nl. simpl. rewrite parse_value_ws by reflexivity. apply parse_value_spaces. Qed.

Lemma skip_ws_value s rest : starts_value s -> skip_ws (s +:+ rest) = s +:+ rest.
Proof. intros (c & t & -> & Hws & _). simpl. now rewrite Hws. Qed.

Lemma parses_back_atom_null f rest :
  (4 < f)%nat -> parse_value f ("null" +:+ rest) = Some (VNull, rest).
Proof. destruct f; [lia|]. reflexivity. Qed.

Lemma parses_back_str str f rest :
  (0 < f)%nat -> parse_value f (quote str +:+ rest) = Some (VStr str, rest).
Proof.
  destruct f; [lia|]. intros _. unfold quote. simpl.
  rewrite sapp_assoc. simpl. now rewrite scan_quoted.
Qed.

Lemma elem_text_head i x : starts_value (elem_text i x).
Proof.
  unfold elem_text. destruct (serialize i x) eqn:E; simpl.
  - eapply serialize_head; eauto.
  - eexists _, _; repeat split; reflexivity.
Qed.

Lemma parse_elem x i f rest :
  parses_back x -> wf x = true -> (String.length (elem_text i x) < f)%nat ->
  ends_number rest = true ->
  parse_value f (elem_text i x +:+ rest) = Some (elem_image x, rest).
Proof.
  intros Hx Hwf Hf Hrest. unfold elem_text, elem_image in *.
  destruct (serialize i x) as [s|] eqn:Es.
  - destruct (JSON_image x) as [j|] eqn:Ej.
    + simpl in *. eapply Hx; eauto.
    + apply (serialize_image_none i) in Ej. congruence.
  - apply serialize_image_none in Es as ->. simpl in *.
    apply parses_back_atom_null. assumption.
Qed.

Lemma length_nl ind : String.length (nl ind) = S ind.
Proof. unfold nl. simpl. f_equal. induction ind; simpl; auto. Qed.

#[local] Opaque nl.

Lemma parse_elements_serialized i ind rest xs :
  forall x f,
    Forall parses_back (x :: xs) -> forallb wf (x :: xs) = true ->
    (String.length (join ("," +:+ nl i) (List.map (elem_text i) (x :: xs))) + 1 < f)%nat ->
    parse_elements f
      (nl i +:+ join ("," +:+ nl i) (List.map (elem_text i) (x :: xs))
         +:+ nl ind +:+ "]" +:+ rest)
    = Some (List.map elem_image (x :: xs), rest).
Proof.
  induction xs as [|y ys IH]; intros x f HP Hwf Hf.
  - destruct f as [|f]; [lia|]. 
    inversion HP as [|? ? Hx _]; subst. cbn [forallb] in Hwf. rewrite andb_true_r in Hwf.
    cbn [List.map join] in *. cbn [parse_elements]. 
    rewrite parse_value_nl, (parse_elem x i f) by (try assumption; try reflexivity; lia).
    simpl. rewrite skip_ws_nl. reflexivity.
  - destruct f as [|f]; [lia|].
    inversion HP as [|? ? Hx HP']; subst.
    cbn [forallb] in Hwf. apply andb_true_iff in Hwf as [Hwx Hwf].
    change (List.map (elem_text i) (x :: y :: ys))
      with (elem_text i x :: List.map (elem_text i) (y :: ys)) in *.
    change (join ("," +:+ nl i) (elem_text i x :: List.map (elem_text i) (y :: ys)))
      with (elem_text i x +:+ ("," +:+ nl i)
              +:+ join ("," +:+ nl i) (List.map (elem_text i) (y :: ys))) in *.
    set (tl := join ("," +:+ nl i) (List.map (elem_text i) (y :: ys))) in *.
    rewrite !slength_app, length_nl in Hf. cbn [String.length] in Hf.
    assert (String.length tl + 1 < f)%nat as Hf' by lia.
    cbn [parse_elements]. rewrite parse_value_nl, !sapp_assoc.
    rewrite (parse_elem x i f) by (try assumption; try reflexivity; lia).
    simpl. subst tl. rewrite IH; [reflexivity | assumption ..].
Qed.

Lemma member_texts_nil i l :
  member_texts (serialize i) l = [] <-> member_images JSON_image l = [].
Proof.
  induction l as [|[k x] l IH]; simpl; [tauto|].
  destruct (serialize i x) eqn:Es, (JSON_image x) eqn:Ej; try (split; discriminate).
  - apply (serialize_image_none i) in Ej. congruence.
  - apply serialize_image_none in Es. congruence.
  - exact IH.
Qed.

Lemma assoc_member_images k img l :
  existsb (String.eqb k) (List.map fst l) = false -> assoc k (member_images img l) = None.
Proof.
  induction l as [|[k' x] l IH]; simpl; [reflexivity|].
  intros H. apply orb_false_iff in H as [Hk Hl].
  destruct (img x); simpl; [rewrite Hk|]; auto.
Qed.

Lemma parse_members_ws f c s :
  is_json_ws c = true -> parse_members f (String c s) = parse_members f s.
Proof. intros H. destruct f; simpl; [reflexivity | now rewrite H]. Qed.

Lemma parse_members_member f k t j i R :
  parse_value f (t +:+ R) = Some (j, R) ->
  parse_members (S f) (nl i +:+ (quote k +:+ ": " +:+ t) +:+ R)
  = match skip_ws R with
    | "" => None
    | String c r =>
        if Ascii.eqb c "," then '(ms, r') ← parse_members f r; Some (define k j ms, r')
        else if Ascii.eqb c "}" then Some ([(k, j)], r)
        else None
    end.
Proof.
  intros Hv. cbn [parse_members]. rewrite skip_ws_nl.
  unfold quote. rewrite !sapp_assoc. simpl.
  rewrite !sapp_assoc. simpl. rewrite scan_quoted. simpl.
  rewrite parse_value_ws by reflexivity. rewrite Hv. reflexivity.
Qed.

Lemma parse_members_serialized i ind rest fields :
  forall f,
    Forall (fun kv => parses_back (snd kv)) fields ->
    distinct (List.map fst fields) = true ->
    forallb (fun kv => wf (snd kv)) fields = true ->
    member_texts (serialize i) fields <> [] ->
    (String.length (join ("," +:+ nl i) (member_texts (serialize i) fields)) + 1 < f)%nat ->
    parse_members f
      (nl i +:+ join ("," +:+ nl i) (member_texts (serialize i) fields)
         +:+ nl ind +:+ "}" +:+ rest)
    = Some (member_images JSON_image fields, rest).
Proof.
  induction fields as [|[k x] more IH]; intros f HP Hd Hwf Hne Hf; [contradiction|].
  inversion HP as [|? ? Hx HP']; subst. cbn [snd] in Hx.
  cbn [List.map fst distinct] in Hd. apply andb_true_iff in Hd as [Hk Hd].
  apply negb_true_iff in Hk.
  cbn [forallb snd] in Hwf. apply andb_true_iff in Hwf as [Hwx Hwf].
  cbn [member_texts member_images] in *.
  destruct (serialize i x) as [t|] eqn:Es.
  2:{ apply serialize_image_none in Es as ->. now apply IH. }
  destruct (JSON_image x) as [j|] eqn:Ej.
  2:{ apply (serialize_image_none i) in Ej. congruence. }
  fold (member_texts (serialize i) more) in *.
  fold (member_images JSON_image more) in *.
  destruct f as [|f]; [lia|].
  destruct (member_texts (serialize i) more) as [|t' ts] eqn:Em.
  - apply member_texts_nil in Em as ->.
    cbn [join] in *. rewrite !slength_app in Hf. cbn [String.length] in Hf.
    rewrite (parse_members_member f k t j).
    + rewrite skip_ws_nl. reflexivity.
    + eapply Hx; eauto; first [lia | reflexivity].
  - set (tl := join ("," +:+ nl i) (t' :: ts)) in *.
    change (join ("," +:+ nl i) ((quote k +:+ ": " +:+ t) :: t' :: ts))
      with ((quote k +:+ ": " +:+ t) +:+ ("," +:+ nl i) +:+ tl) in *.
    rewrite !slength_app, length_nl in Hf. cbn [String.length] in Hf.
    assert (String.length tl + 1 < f)%nat as Hf' by lia.
    rewrite (sapp_assoc (quote k +:+ ": " +:+ t)), !(sapp_assoc ("," +:+ nl i)), (sapp_assoc ",").
    rewrite (parse_members_member f k t j).
    + simpl. rewrite IH; try assumption; [|discriminate].
      simpl. unfold define. now rewrite assoc_member_images.
    + eapply Hx; eauto; first [lia | reflexivity].
Qed.

Lemma parse_value_number f c t :
  is_json_ws c = false -> (is_digit c || Ascii.eqb c "-") = true ->
  parse_value (S f) (String c t)
  = '(n, r) ← parse_number (String c t); Some (VNum n, r).
Proof. intros Hw Hc. cbn [parse_value skip_ws]. now rewrite Hw, Hc. Qed.

Lemma starts_value_app s t : starts_value s -> starts_value (s +:+ t).
Proof. intros (c & u & -> & H). exists c, (u +:+ t). now split. Qed.

Lemma starts_value_join sep t l : starts_value t -> starts_value (join sep (t :: l)).
Proof. intros H. destruct l; simpl; [assumption | now apply starts_value_app]. Qed.

Lemma parse_value_array f i s R :
  starts_value s ->
  parse_value (S f) ("[" +:+ nl i +:+ s +:+ R)
  = '(l, r) ← parse_elements f (nl i +:+ s +:+ R); Some (VArr l, r).
Proof.
  intros (c & u & -> & Hw & Hc & _). cbn [parse_value]. simpl.
  rewrite skip_ws_nl. simpl. now rewrite Hw, Hc.
Qed.

Lemma parse_value_object f i s R :
  starts_value s ->
  parse_value (S f) ("{" +:+ nl i +:+ s +:+ R)
  = '(l, r) ← parse_members f (nl i +:+ s +:+ R); Some (VObj l, r).
Proof.
  intros (c & u & -> & Hw & _ & Hc & _). cbn [parse_value]. simpl.
  rewrite skip_ws_nl. simpl. now rewrite Hw, Hc.
Qed.

Lemma parse_value_serialized v : parses_back v.
Proof.
  induction v as [| |b|n|str|t|nm|items IH|fields IH] using jsval_ind; intros ind s j f rest Hwf Hs Hj Hf Hrest;
    simpl in Hs, Hj; try discriminate.
  - injection Hs as <-. injection Hj as <-. now apply parses_back_atom_null.
  - injection Hs as <-. injection Hj as <-.
    destruct f; [simpl in Hf; lia|]. destruct b; reflexivity.
  - injection Hs as <-. injection Hj as <-.
    destruct f; [simpl in Hf; lia|].
    destruct (number_to_string_head n) as (c & t & Hn & Hc & Hw & _).
    rewrite Hn at 1. cbn [String.append]. rewrite parse_value_number by assumption.
    replace (String c (t +:+ rest)) with (number_to_string n +:+ rest) by now rewrite Hn.
    now rewrite parse_number_printed.
  - injection Hs as <-. injection Hj as <-. apply parses_back_str. lia.
  - destruct t as [t|].
    + injection Hs as <-. injection Hj as <-. apply parses_back_str. lia.
    + injection Hs as <-. injection Hj as <-. now apply parses_back_atom_null.
  - destruct (String.eqb nm "__proto__"); [|discriminate].
    injection Hs as <-. injection Hj as <-.
    destruct f as [|f]; [simpl in Hf; lia|]. reflexivity.
  - injection Hs as <-. injection Hj as <-.
    destruct f as [|f]; [lia|]. simpl in Hwf.
    destruct items as [|x xs].
    + reflexivity.
    + unfold bracket in *. cbn [List.map] in *.
      set (body := join _ (_ :: List.map _ xs)) in *.
      assert (starts_value body) as Hbody
        by (apply starts_value_join, (elem_text_head (ind + 2) x)).
      rewrite !slength_app, length_nl in Hf. cbn [String.length] in Hf.
      rewrite !sapp_assoc, parse_value_array by assumption.
      pose proof (parse_elements_serialized (ind + 2) ind rest xs x f IH Hwf) as HE.
      unfold elem_text, elem_image in HE. cbn [List.map] in HE.
      fold body in HE. rewrite HE; [reflexivity | lia].
  - injection Hs as <-. injection Hj as <-.
    destruct f as [|f]; [lia|]. simpl in Hwf.
    apply andb_true_iff in Hwf as [Hd Hwf].
    unfold bracket in *.
    destruct (member_texts (serialize (ind + 2)) fields) as [|t ts] eqn:Em.
    + apply member_texts_nil in Em as ->. reflexivity.
    + assert (starts_value (join ("," +:+ nl (ind + 2)) (t :: ts))) as Hbody.
      { apply starts_value_join. destruct fields as [|[k x] more]; [discriminate|].
        clear - Em. revert Em. induction ((k, x) :: more) as [|[k' x'] l IHl]; simpl;
          [discriminate|].
        destruct (serialize (ind + 2) x'); [|exact IHl].
        intros [= <- _]. eexists _, _; repeat split; reflexivity. }
      rewrite !slength_app, length_nl in Hf. cbn [String.length] in Hf.
      rewrite !sapp_assoc, parse_value_object by assumption.
      rewrite <- Em in *.
      rewrite (parse_members_serialized (ind + 2) ind rest fields f); try assumption.
      * reflexivity.
      * rewrite Em. discriminate.
      * lia.
Qed.

(** [JSON.parse] undoes [JSON.stringify] up to the JSON image. *)
Lemma JSON_parse_stringify v s :
  wf v = true -> JSON_stringify v = Some s -> JSON_parse s = JSON_image v.
Proof.
  intros Hwf Hs. unfold JSON_parse, JSON_stringify in *.
  destruct (JSON_image v) as [j|] eqn:Ej.
  2:{ apply (serialize_image_none 0) in Ej. congruence. }
  pose proof (parse_value_serialized v 0 s j (S (2 * String.length s)) "" Hwf Hs Ej) as H.
  rewrite sapp_nil_r in H. rewrite H by (try reflexivity; lia). reflexivity.
Qed.


#[local] Transparent nl.

(** ** Trimming *)

Lemma trimStart_value s : starts_value s -> trimStart s = s.
Proof.
  intros (c & t & -> & _ & _ & _ & Hw & Hb). simpl. rewrite Hw.
  assert (forall c2, is_ws2 c c2 = false) as H2.
  { intros c2. unfold is_ws2. apply N.ltb_lt in Hb.
    destruct (N.eqb_spec (byte c) 194); [lia | reflexivity]. }
  assert (forall c2 c3, is_ws3 c c2 c3 = false) as H3.
  { intros c2 c3. unfold is_ws3. apply N.ltb_lt in Hb.
    destruct (N.eqb_spec (byte c) 225), (N.eqb_spec (byte c) 226),
      (N.eqb_spec (byte c) 227), (N.eqb_spec (byte c) 239); try lia; reflexivity. }
  destruct t as [|c2 [|c3 t]]; rewrite ?H2, ?H3; reflexivity.
Qed.

Lemma trim_value s : starts_value s -> trim s <> "".
Proof.
  intros H. unfold trim. rewrite trimStart_value by assumption.
  destruct H as (c & t & -> & H). 
  assert (starts_value (String c t)) as Hs by (exists c, t; auto).
  cbn [trimEnd]. unfold blank. rewrite trimStart_value by assumption. discriminate.
Qed.

Lemma truthy_trim s : truthy (VStr (trim s)) = negb (String.eqb (trim s) "").
Proof. reflexivity. Qed.

(** ** The cache *)

Lemma useFileCache_hit name fetchData w data v :
  files w !! cache_path name = Some data ->
  trim data <> "" ->
  JSON_parse data = Some v ->
  useFileCache name fetchData w = (Ok v, w).
Proof.
  intros Hfile Htrim Hparse.
  unfold useFileCache, try_catch, bind, readFile. rewrite Hfile.
  rewrite truthy_trim. apply String.eqb_neq in Htrim. rewrite Htrim. simpl.
  rewrite Hparse. reflexivity.
Qed.

Lemma useFileCache_miss name fetchData w :
  cache_miss name w ->
  useFileCache name fetchData w = recompute name fetchData w.
Proof.
  intros [Hnone | (data & Hfile & [Hblank | Hbad])];
    unfold useFileCache, try_catch, bind, readFile at 1.
  - rewrite Hnone. reflexivity.
  - rewrite Hfile, truthy_trim, Hblank. reflexivity.
  - rewrite Hfile, truthy_trim. destruct (String.eqb (trim data) ""); simpl.
    + reflexivity.
    + rewrite Hbad. reflexivity.
Qed.

(** ** The JSON image is a fixed point of serialization *)

Lemma serialize_image v : forall ind j, JSON_image v = Some j -> serialize ind j = serialize ind v.
Proof.
  induction v as [| |b|n|str|t|nm|items IH|fields IH] using jsval_ind; intros ind j Hj;
    simpl in Hj; try discriminate; try (injection Hj as <-; reflexivity).
  - destruct t; injection Hj as <-; reflexivity.
  - simpl. destruct (String.eqb nm "__proto__"); [|discriminate].
    injection Hj as <-. reflexivity.
  - injection Hj as <-. simpl. f_equal. f_equal.
    rewrite List.map_map. apply List.map_ext_Forall.
    eapply Forall_impl; [exact IH|]. intros x Hx. simpl.
    destruct (JSON_image x) as [jx|] eqn:Ex; simpl.
    + now rewrite (Hx _ _ Ex).
    + apply (serialize_image_none (ind + 2)) in Ex. now rewrite Ex.
  - injection Hj as <-. simpl. f_equal. f_equal.
    induction IH as [|[k x] more Hx _ IHmore]; [reflexivity|].
    cbn [snd] in Hx. cbn [member_images member_texts].
    destruct (JSON_image x) as [jx|] eqn:Ex; cbn [member_texts].
    + rewrite (Hx _ _ eq_refl). destruct (serialize (ind + 2) x); [f_equal|]; exact IHmore.
    + apply (serialize_image_none (ind + 2)) in Ex. rewrite Ex. exact IHmore.
Qed.

(** What [recompute] comes to, by the result of [fetchData], its text and
    the disk. *)
Lemma recompute_run name fetchData w :
  recompute name fetchData w
  = match fetchData w with
    | (Ok result, w1) =>
        match JSON_stringify result with
        | Some text =>
            match disk w1 (cache_path name) text with
            | Written =>
                (Ok result, with_files (<[cache_path name := text]> (files w1)) w1)
            | WriteFailed code None => (Err (SystemError code), w1)
            | WriteFailed code (Some partial) =>
                (Err (SystemError code),
                 with_files (<[cache_path name := partial]> (files w1)) w1)
            end
        | None => (Err TypeError, w1)
        end
    | (Err e, w1) => (Err e, w1)
    end.
Proof.
  unfold recompute, bind, writeFile.
  destruct (fetchData w) as [[result|e] w1]; [|reflexivity].
  destruct (JSON_stringify result) as [text|]; [|reflexivity].
  destruct (disk w1 (cache_path name) text) as [|code [partial|]]; reflexivity.
Qed.

Lemma useFileCache_computes name fetchData w result w1 text :
  cache_miss name w ->
  fetchData w = (Ok result, w1) ->
  JSON_stringify result = Some text ->
  disk w1 (cache_path name) text = Written ->
  useFileCache name fetchData w
  = (Ok result, with_files (<[cache_path name := text]> (files w1)) w1).
Proof.
  intros Hmiss Hrun Htext Hdisk. rewrite useFileCache_miss by assumption.
  rewrite recompute_run, Hrun, Htext, Hdisk. reflexivity.
Qed.

Lemma useFileCache_propagates name fetchData w e w1 :
  cache_miss name w ->
  fetchData w = (Err e, w1) ->
  useFileCache name fetchData w = (Err e, w1).
Proof.
  intros Hmiss Hrun. rewrite useFileCache_miss by assumption.
  unfold recompute, bind. rewrite Hrun. reflexivity.
Qed.

(** C2 (amended). When there is no cache file and [fetchData], run once from
    the world [w], returns [result] in the world [w1], [fetchData] has run
    exactly once and what [useFileCache] does next is settled by the text of
    [result] and by the disk.  A [result] without a JSON text -- undefined, a
    function -- ends the call in a TypeError with nothing written.  A write
    that the disk rejects ends it in the error of the file system.  When the
    write is accepted, [useFileCache] returns [result] in [w1] with the text
    written to the file; the text parses to the JSON image of [result] --
    dates as their ISO strings, fields holding undefined left out -- which
    has the same text, and which is [result] itself when [result] is plain
    JSON data; and a later [useFileCache] returns that image without running
    its function. *)
Theorem cache_miss_roundtrip name fetchData w result w1 :
  files w !! cache_path name = None ->
  fetchData w = (Ok result, w1) ->
  wf result = true ->
  match JSON_stringify result with
  | None => useFileCache name fetchData w = (Err TypeError, w1)
  | Some text =>
      match disk w1 (cache_path name) text with
      | WriteFailed code remains =>
          useFileCache name fetchData w
          = (Err (SystemError code),
             match remains with
             | None => w1
             | Some partial => with_files (<[cache_path name := partial]> (files w1)) w1
             end)
      | Written =>
          let w2 := with_files (<[cache_path name := text]> (files w1)) w1 in
          useFileCache name fetchData w = (Ok result, w2)
          /\ files w2 !! cache_path name = Some text
          /\ exists j, JSON_image result = Some j
                       /\ JSON_parse text = Some j
                       /\ JSON_stringify j = Some text
                       /\ (JSON_image result = Some result -> j = result)
                       /\ forall again, useFileCache name again w2 = (Ok j, w2)
      end
  end.
Proof.
  intros Hnone Hrun Hwf.
  assert (useFileCache name fetchData w = recompute name fetchData w) as ->
    by (apply useFileCache_miss; now left).
  rewrite recompute_run, Hrun.
  destruct (JSON_stringify result) as [text|] eqn:Htext; [|reflexivity].
  destruct (disk w1 (cache_path name) text) as [|code [partial|]]; try reflexivity.
  intros w2.
  assert (files w2 !! cache_path name = Some text) as Hfile
    by (subst w2; simpl; apply lookup_insert_eq).
  pose proof (JSON_parse_stringify result text Hwf Htext) as Hparse.
  destruct (JSON_image result) as [j|] eqn:Ej.
  2:{ apply (serialize_image_none 0) in Ej. unfold JSON_stringify in Htext. congruence. }
  repeat split.
  - exact Hfile.
  - exists j. repeat split; try assumption.
    + unfold JSON_stringify in *. now rewrite (serialize_image result 0 j Ej).
    + congruence.
    + intros again. eapply useFileCache_hit; [exact Hfile | | exact Hparse].
      apply trim_value. eapply serialize_head. exact Htext.
Qed.

(** ** Expansion of a leg *)

Lemma bind_run {A B} (m : M A) (k : A -> M B) w :
  bind m k w = match m w with
               | (Ok a, w') => k a w'
               | (Err e, w') => (Err e, w')
               end.
Proof. reflexivity. Qed.

Lemma mapM_app {A B} (f : A -> M B) l1 l2 w :
  mapM f (l1 ++ l2) w
  = (let* r1 := mapM f l1 in let* r2 := mapM f l2 in ret (r1 ++ r2)) w.
Proof.
  revert w. induction l1 as [|x l1 IH]; intros w; cbn [mapM app]; unfold bind, ret in *.
  - destruct (mapM f l2 w) as [[r2|e] w2]; reflexivity.
  - destruct (f x w) as [[y|e] w1]; [|reflexivity].
    rewrite IH.
    destruct (mapM f l1 w1) as [[r1|e] w2]; [|reflexivity].
    destruct (mapM f l2 w2) as [[r2|e] w3]; reflexivity.
Qed.

Lemma for_of_collects {A Q R} (h : A -> list Q) (f : Q -> M (list R)) xs
    (body : A -> list R -> M (list R)) :
  (forall x acc w,
      body x acc w = (let* rss := mapM f (h x) in ret (acc ++ concat rss)) w) ->
  forall acc w,
    for_of xs body acc w
    = (let* rss := mapM f (flat_map h xs) in ret (acc ++ concat rss)) w.
Proof.
  intros Hbody. induction xs as [|x xs IH]; intros acc w; cbn [for_of flat_map].
  - unfold bind, ret. simpl. now rewrite app_nil_r.
  - rewrite !bind_run, Hbody, mapM_app, !bind_run.
    destruct (mapM f (h x) w) as [[r1|e] w1]; [|reflexivity].
    unfold ret at 1. rewrite IH, !bind_run.
    destruct (mapM f (flat_map h xs) w1) as [[r2|e] w2]; [|reflexivity].
    unfold ret. now rewrite concat_app, app_assoc.
Qed.

Lemma flat_map_singleton {A B} (g : A -> B) l : flat_map (fun x => [g x]) l = List.map g l.
Proof. induction l as [|x l IH]; simpl; [reflexivity | now rewrite IH]. Qed.

Lemma length_flat_map_const {A B} (h : A -> list B) n xs :
  (forall x, length (h x) = n) -> length (flat_map h xs) = (length xs * n)%nat.
Proof.
  intros Hh. induction xs as [|x xs IH]; simpl; [reflexivity|].
  rewrite length_app, Hh, IH. reflexivity.
Qed.

Lemma lookup_flat_map_const {A B} (h : A -> list B) n xs i j x :
  (forall x, length (h x) = n) -> xs !! i = Some x -> (j < n)%nat ->
  flat_map h xs !! (i * n + j)%nat = h x !! j.
Proof.
  intros Hh. revert i. induction xs as [|y xs IH]; intros i Hi Hj; [discriminate|].
  destruct i as [|i]; simpl in *.
  - injection Hi as ->. apply lookup_app_l. now rewrite Hh.
  - rewrite lookup_app_r by (rewrite Hh; lia).
    rewrite Hh. replace (n + i * n + j - n)%nat with (i * n + j)%nat by lia. now apply IH.
Qed.

Lemma lookup_map {A B} (g : A -> B) l k x :
  l !! k = Some x -> List.map g l !! k = Some (g x).
Proof.
  revert k. induction l as [|y l IH]; intros [|k] H; try discriminate; simpl in *.
  - now injection H as ->.
  - now apply IH.
Qed.

Lemma length_expand leg :
  length (expand leg)
  = (length (origins leg) * length (destinations leg) * length (dates leg))%nat.
Proof.
  unfold expand.
  rewrite (length_flat_map_const _ (length (destinations leg) * length (dates leg))).
  - lia.
  - intros o. apply length_flat_map_const. intros d. apply length_map.
Qed.

Lemma lookup_expand leg i j k o d t :
  origins leg !! i = Some o -> destinations leg !! j = Some d -> dates leg !! k = Some t ->
  expand leg !! (i * (length (destinations leg) * length (dates leg))
                 + j * length (dates leg) + k)%nat
  = Some {| date := t; origin := o; destination := d |}.
Proof.
  intros Ho Hd Ht. unfold expand.
  pose proof (lookup_lt_Some _ _ _ Hd) as Hj. pose proof (lookup_lt_Some _ _ _ Ht) as Hk.
  set (nd := length (destinations leg)) in *. set (nt := length (dates leg)) in *.
  set (row := fun o d => List.map (fun t => {| date := t; origin := o; destination := d |})
                           (dates leg)).
  assert (forall o d, length (row o d) = nt) as Hrow by (intros; apply length_map).
  assert (forall o, length (flat_map (row o) (destinations leg)) = (nd * nt)%nat) as Hblock
    by (intros; now apply length_flat_map_const).
  assert (j * nt + k < nd * nt)%nat as Hjk.
  { pose proof (Nat.mul_le_mono_r (S j) nd nt Hj). lia. }
  rewrite <- Nat.add_assoc.
  change (flat_map (fun o => flat_map (row o) (destinations leg)) (origins leg)
            !! (i * (nd * nt) + (j * nt + k))%nat
          = Some {| date := t; origin := o; destination := d |}).
  rewrite (lookup_flat_map_const (fun o => flat_map (row o) (destinations leg))
             (nd * nt) _ i _ o Hblock Ho Hjk).
  rewrite (lookup_flat_map_const (row o) nt _ j _ d (Hrow o) Hd Hk).
  unfold row.
  exact (lookup_map (fun t => {| date := t; origin := o; destination := d |}) _ _ _ Ht).
Qed.

Section Expansion.
Variable Date_parse : string -> option Z.
Variable Date_toString : option Z -> string.

Lemma getFlightResults_mapM trip type leg w :
  trip_leg trip type = Some leg ->
  getFlightResults Date_parse Date_toString trip type w
  = (let* rss := mapM (getFlights Date_parse Date_toString) (expand leg) in
     ret (concat rss)) w.
Proof.
  intros Hleg. unfold getFlightResults. rewrite Hleg. unfold expand.
  rewrite (for_of_collects
             (fun o => flat_map (fun d =>
                List.map (fun t => {| date := t; origin := o; destination := d |})
                         (dates leg)) (destinations leg))
             (getFlights Date_parse Date_toString)); [reflexivity|].
  intros o acc w1.
  rewrite (for_of_collects
             (fun d => List.map (fun t => {| date := t; origin := o; destination := d |})
                                (dates leg))
             (getFlights Date_parse Date_toString)); [reflexivity|].
  intros d acc' w2. rewrite <- flat_map_singleton.
  rewrite (for_of_collects
             (fun t => [{| date := t; origin := o; destination := d |}])
             (getFlights Date_parse Date_toString)); [reflexivity|].
  intros t acc'' w3. cbn [mapM]. rewrite !bind_run.
  destruct (getFlights _ _ _ w3) as [[found|e] w4]; [|reflexivity].
  unfold ret. simpl. now rewrite app_nil_r.
Qed.

(** C6. The collection of a leg runs [getFlights] once for every query of
    the expansion, in its order, and returns the results of the queries
    concatenated in that order; the expansion has
    |origins| * |destinations| * |dates| queries, the one of the i-th origin,
    j-th destination and k-th date at position
    i * |destinations| * |dates| + j * |dates| + k; an absent leg gives the
    empty list. *)
Theorem getFlightResults_expands trip type :
  match trip_leg trip type with
  | None => forall w, getFlightResults Date_parse Date_toString trip type w = (Ok [], w)
  | Some leg =>
      length (expand leg)
      = (length (origins leg) * length (destinations leg) * length (dates leg))%nat
      /\ (forall i j k o d t,
            origins leg !! i = Some o -> destinations leg !! j = Some d ->
            dates leg !! k = Some t ->
            expand leg !! (i * (length (destinations leg) * length (dates leg))
                           + j * length (dates leg) + k)%nat
            = Some {| date := t; origin := o; destination := d |})
      /\ (forall w,
            getFlightResults Date_parse Date_toString trip type w
            = (let* rss := mapM (getFlights Date_parse Date_toString) (expand leg) in
               ret (concat rss)) w)
  end.
Proof.
  destruct (trip_leg trip type) as [leg|] eqn:Hleg.
  - split; [apply length_expand|]. split.
    + intros. now apply lookup_expand.
    + intros w. now apply getFlightResults_mapM.
  - intros w. unfold getFlightResults. now rewrite Hleg.
Qed.

End Expansion.


(** ** Filtering the reply *)

Lemma filter_r_Ok p items kept :
  filter_r p items = Ok kept ->
  (forall it, In it items -> exists b, p it = Ok b)
  /\ kept = List.filter (fun it => match p it with Ok b => b | Err _ => false end) items.
Proof.
  revert kept. induction items as [|x xs IH]; intros kept; simpl.
  - intros [= <-]. split; [intros ? []|reflexivity].
  - destruct (p x) as [b|e] eqn:Ex; simpl; [|discriminate].
    destruct (filter_r p xs) as [kept'|e] eqn:Exs; simpl; [|discriminate].
    intros [= <-]. destruct (IH kept' eq_refl) as [Hall ->]. split.
    + intros it [<-|Hin]; eauto.
    + reflexivity.
Qed.

Lemma strict_eq_zero_true v :
  strict_eq_zero v = true <-> exists n, v = VNum n /\ is_zero n = true.
Proof.
  destruct v as [| |b|k|str|t|nm|items|fields]; simpl; split;
    try discriminate; try (now intros (m & [=] & _)).
  - intros H. eauto.
  - intros (m & [= <-] & H). exact H.
Qed.

Lemma nonstop_true item :
  nonstop item = Ok true
  <-> exists n, first_stopCount item = Ok (VNum n) /\ is_zero n = true.
Proof.
  unfold nonstop. destruct (first_stopCount item) as [v|e]; simpl.
  - split.
    + intros [= H]. apply strict_eq_zero_true in H as (n & -> & H). eauto.
    + intros (n & [= ->] & H). simpl. now rewrite H.
  - split; [discriminate | intros (n & [=] & _)].
Qed.

Lemma nonstop_false item v :
  first_stopCount item = Ok v -> (forall n, v = VNum n -> is_zero n = false) ->
  nonstop item = Ok false.
Proof.
  intros Hv Hne. unfold nonstop. rewrite Hv. simpl. f_equal.
  destruct (strict_eq_zero v) eqn:E; [|reflexivity].
  apply strict_eq_zero_true in E as (n & -> & E). now rewrite (Hne n eq_refl) in E.
Qed.

Lemma get_defined v k : nullish v = false -> exists x, get v k = Ok x.
Proof.
  destruct v; simpl; try discriminate; intros _; eauto.
  destruct (assoc k fields); eauto.
Qed.

(** A first leg with a stop count of 0 is there. *)
Lemma first_stopCount_zero item n :
  first_stopCount item = Ok (VNum n) ->
  exists legs data, get item "legs" = Ok legs /\ index0 legs = Ok data
                    /\ nullish data = false /\ get data "stopCount" = Ok (VNum n).
Proof.
  unfold first_stopCount.
  destruct (get item "legs") as [legs|e] eqn:El; simpl; [|discriminate].
  destruct (index0 legs) as [data|e] eqn:Ed; simpl; [|discriminate].
  unfold opt_get. destruct (nullish data) eqn:En; [discriminate|].
  intros [= H]. exists legs, data. repeat split; try assumption.
  destruct (get_defined data "stopCount" En) as [x Hx]. rewrite Hx in H |- *.
  simpl in H. now subst.
Qed.

Section Filtering.
Variable Date_parse : string -> option Z.
Variable Date_toString : option Z -> string.

Lemma getFlights_Ok opt w results w' :
  getFlights Date_parse Date_toString opt w = (Ok results, w') ->
  exists originInfo w1 destinationInfo w2 path result,
    getCityInfo Date_toString (origin opt) w = (Ok originInfo, w1)
    /\ getCityInfo Date_toString (destination opt) w1 = (Ok destinationInfo, w2)
    /\ search_path Date_toString opt originInfo destinationInfo = Ok path
    /\ fetchSkyscanner path w2 = (Ok result, w')
    /\ nonstopFlights Date_parse Date_toString opt originInfo destinationInfo result
       = Ok results.
Proof.
  unfold getFlights. rewrite bind_run.
  destruct (getCityInfo _ (origin opt) w) as [[oi|e] w1] eqn:E1; [|discriminate].
  rewrite bind_run.
  destruct (getCityInfo _ (destination opt) w1) as [[di|e] w2] eqn:E2; [|discriminate].
  rewrite bind_run. unfold lift at 1.
  destruct (search_path _ opt oi di) as [path|e] eqn:E3; [|discriminate].
  rewrite bind_run.
  destruct (fetchSkyscanner path w2) as [[result|e] w3] eqn:E4; [|discriminate].
  unfold lift. intros [= H <-]. exists oi, w1, di, w2, path, result. auto.
Qed.

(** C9. The items of a present first bucket are read without a guard: when
    they are not an array -- undefined in particular -- the filtering raises
    a TypeError.  When they are, the results are built from the items that
    the filter keeps and from no other; each of these has a first leg that
    is neither undefined nor null, the object pushed for it is built from
    that leg, and reading the origin, destination, departure, arrival and
    carriers of the leg raises no exception. *)
Theorem items_unguarded opt originInfo destinationInfo result bucket items :
  first_bucket result = Ok bucket ->
  truthy bucket = true ->
  get bucket "items" = Ok items ->
  ((forall l, items <> VArr l) ->
   nonstopFlights Date_parse Date_toString opt originInfo destinationInfo result
   = Err TypeError)
  /\ (forall l kept,
        items = VArr l -> filter_r nonstop l = Ok kept ->
        nonstopFlights Date_parse Date_toString opt originInfo destinationInfo result
        = map_r (flightResult Date_parse Date_toString opt originInfo destinationInfo) kept
        /\ forall flight,
             In flight kept ->
             exists legs data,
               get flight "legs" = Ok legs /\ index0 legs = Ok data
               /\ nullish data = false
               /\ flightResult Date_parse Date_toString opt originInfo destinationInfo flight
                  = pushed Date_parse Date_toString opt originInfo destinationInfo flight data
               /\ forall k, exists x, get data k = Ok x).
Proof.
  intros Hbucket Htruthy Hitems. split.
  - intros Hnot. unfold nonstopFlights. rewrite Hbucket. simpl. rewrite Htruthy. simpl.
    unfold items_filter. rewrite Hitems. simpl.
    destruct items as [| | | | | | |l|]; try reflexivity. now destruct (Hnot l).
  - intros l kept -> Hkept. split.
    + unfold nonstopFlights. rewrite Hbucket. simpl. rewrite Htruthy. simpl.
      unfold items_filter. rewrite Hitems. simpl. now rewrite Hkept.
    + intros flight Hin.
      apply filter_r_Ok in Hkept as [_ ->]. apply List.filter_In in Hin as [_ Hin].
      assert (nonstop flight = Ok true) as Htrue
        by (destruct (nonstop flight) as [[]|]; congruence).
      apply nonstop_true in Htrue as (n & Htrue & _).
      apply first_stopCount_zero in Htrue as (legs & data & Hl & Hd & Hn & _).
      exists legs, data. repeat split; try assumption.
      * unfold flightResult. rewrite Hl. simpl. now rewrite Hd.
      * intros k. now apply get_defined.
Qed.

End Filtering.

(** ** How the search changes the world *)

Section Respects.
Variable I : World -> Prop.
Variable R : World -> World -> Prop.
Hypothesis R_refl : forall w, R w w.
Hypothesis R_trans : forall w1 w2 w3, R w1 w2 -> R w2 w3 -> R w1 w3.

Lemma respects_ret {A} (a : A) : respects I R (ret a).
Proof. intros w r w' Hinv [= <- <-]. auto. Qed.

Lemma respects_throw {A} e : respects I R (@throw A e).
Proof. intros w r w' Hinv [= <- <-]. auto. Qed.

Lemma respects_lift {A} (c : completion A) : respects I R (lift c).
Proof. intros w r w' Hinv [= <- <-]. auto. Qed.

Lemma respects_bind {A B} (m : M A) (k : A -> M B) :
  respects I R m -> (forall a, respects I R (k a)) -> respects I R (bind m k).
Proof.
  intros Hm Hk w r w' Hinv. rewrite bind_run.
  destruct (m w) as [[a|e] w1] eqn:E; intros H.
  - destruct (Hm _ _ _ Hinv E) as [H1 Hinv1].
    destruct (Hk a _ _ _ Hinv1 H) as [H2 Hinv2]. eauto.
  - injection H as <- <-. eapply Hm; eassumption.
Qed.

Lemma respects_for_of {A S} (xs : list A) (body : A -> S -> M S) :
  (forall x acc, respects I R (body x acc)) -> forall acc, respects I R (for_of xs body acc).
Proof.
  intros Hbody. induction xs as [|x xs IH]; intros acc; simpl.
  - apply respects_ret.
  - apply respects_bind; auto.
Qed.

Lemma respects_mapM {A B} (f : A -> M B) (xs : list A) :
  (forall x, respects I R (f x)) -> respects I R (mapM f xs).
Proof.
  intros Hf. induction xs as [|x xs IH]; simpl.
  - apply respects_ret.
  - apply respects_bind; [apply Hf|]. intros y.
    apply respects_bind; [apply IH|]. intros ys. apply respects_ret.
Qed.

Variable Date_parse : string -> option Z.
Variable Date_toString : option Z -> string.
Hypothesis respects_fetchSkyscanner : forall path, respects I R (fetchSkyscanner path).
Hypothesis respects_getCityInfo : forall name, respects I R (getCityInfo Date_toString name).

Lemma respects_getFlights opt : respects I R (getFlights Date_parse Date_toString opt).
Proof.
  unfold getFlights.
  repeat (apply respects_bind; [|intros ?]); auto using respects_lift.
Qed.

Lemma respects_getFlightResults t type :
  respects I R (getFlightResults Date_parse Date_toString t type).
Proof.
  unfold getFlightResults. destruct (trip_leg t type) as [leg|].
  - apply respects_for_of. intros o acc.
    apply respects_for_of. intros d acc'.
    apply respects_for_of. intros dt acc''.
    apply respects_bind; [apply respects_getFlights | intros; apply respects_ret].
  - apply respects_ret.
Qed.

Lemma respects_searchTrip t : respects I R (searchTrip Date_parse Date_toString t).
Proof.
  unfold searchTrip.
  repeat (apply respects_bind; [|intros ?]);
    auto using respects_getFlightResults, respects_ret.
Qed.

End Respects.

(** *** What a search leaves alone *)

Lemma frame_refl w : frame w w.
Proof. split; reflexivity. Qed.

Lemma frame_trans w1 w2 w3 : frame w1 w2 -> frame w2 w3 -> frame w1 w3.
Proof. intros [] []. split; try congruence; etrans; eassumption. Qed.

Lemma framing_fetchSkyscanner path : respects always frame (fetchSkyscanner path).
Proof.
  intros w r w' _. unfold fetchSkyscanner.
  destruct (key_missing w); intros [= <- <-]; (split; [|exact Logic.I]).
  - apply frame_refl.
  - split; try reflexivity. simpl. now apply prefix_app_r.
Qed.

Section Searching.
Variable Date_parse : string -> option Z.
Variable Date_toString : option Z -> string.

Lemma framing_getCityInfo name : respects always frame (getCityInfo Date_toString name).
Proof.
  intros w r w' _. unfold getCityInfo.
  destruct (truthy (lookup_cityInfo name w)).
  { intros [= <- <-]. split; [apply frame_refl | exact Logic.I]. }
  rewrite bind_run. unfold lift at 1.
  destruct (lookup_path Date_toString name) as [path|e].
  2:{ intros [= <- <-]. split; [apply frame_refl | exact Logic.I]. }
  rewrite bind_run.
  destruct (fetchSkyscanner path w) as [[result|e] w1] eqn:Ef.
  2:{ intros [= <- <-]. eapply framing_fetchSkyscanner; [exact Logic.I | eassumption]. }
  destruct (framing_fetchSkyscanner path _ _ _ Logic.I Ef) as [H1 _].
  rewrite bind_run. unfold lift at 1.
  destruct (suggestion result) as [info|e].
  2:{ intros [= <- <-]. split; [assumption | exact Logic.I]. }
  destruct (truthy info); cbn [negb].
  - unfold store_cityInfo, ret. rewrite bind_run. intros [= <- <-].
    split; [|exact Logic.I]. destruct H1. split; assumption.
  - unfold throw. intros [= <- <-]. split; [assumption | exact Logic.I].
Qed.

Lemma framing_getFlights opt :
  respects always frame (getFlights Date_parse Date_toString opt).
Proof.
  exact (respects_getFlights always frame frame_refl frame_trans
           Date_parse Date_toString framing_fetchSkyscanner framing_getCityInfo opt).
Qed.

Lemma framing_searchTrip t :
  respects always frame (searchTrip Date_parse Date_toString t).
Proof.
  exact (respects_searchTrip always frame frame_refl frame_trans
           Date_parse Date_toString framing_fetchSkyscanner framing_getCityInfo t).
Qed.

(** *** The city mapping *)

Lemma keeps_cities_refl w : keeps_cities w w.
Proof. intros name v H. exact H. Qed.

Lemma keeps_cities_trans w1 w2 w3 :
  keeps_cities w1 w2 -> keeps_cities w2 w3 -> keeps_cities w1 w3.
Proof. intros H1 H2 name v H. auto. Qed.

(** What one resolution does to the mapping. *)
Lemma getCityInfo_mapping name w r w' :
  getCityInfo Date_toString name w = (r, w') ->
  cityInfo w' = cityInfo w
  \/ exists info, r = Ok info /\ truthy info = true
                  /\ truthy (lookup_cityInfo name w) = false
                  /\ cityInfo w' = <[name := info]> (cityInfo w).
Proof.
  unfold getCityInfo. destruct (truthy (lookup_cityInfo name w)) eqn:Hcached.
  - intros [= <- <-]. now left.
  - unfold bind, lift. destruct (lookup_path Date_toString name) as [path|e].
    2:{ intros [= <- <-]. now left. }
    unfold fetchSkyscanner. destruct (key_missing w).
    { intros [= <- <-]. now left. }
    destruct (provider w (requests w) path) as [result|e].
    2:{ intros [= <- <-]. now left. }
    destruct (suggestion result) as [info|e].
    2:{ intros [= <- <-]. now left. }
    destruct (truthy info) eqn:Hinfo; simpl.
    + intros [= <- <-]. right. exists info. auto.
    + intros [= <- <-]. now left.
Qed.

Lemma lookup_falsy_free name w :
  truthy_entries w -> truthy (lookup_cityInfo name w) = false -> cityInfo w !! name = None.
Proof.
  intros Hinv Hfalse. unfold lookup_cityInfo in Hfalse.
  destruct (cityInfo w !! name) as [v|] eqn:Ev; [|reflexivity].
  apply Hinv in Ev. simpl in Ev. congruence.
Qed.

Lemma growing_fetchSkyscanner path :
  respects truthy_entries keeps_cities (fetchSkyscanner path).
Proof.
  intros w r w' Hinv. unfold fetchSkyscanner.
  destruct (key_missing w); intros [= <- <-]; (split; [intros n v Hv; exact Hv | exact Hinv]).
Qed.

Lemma growing_getCityInfo name :
  respects truthy_entries keeps_cities (getCityInfo Date_toString name).
Proof.
  intros w r w' Hinv H.
  destruct (getCityInfo_mapping _ _ _ _ H) as [Hsame | (info & _ & Hinfo & Hfalse & Hins)].
  - unfold keeps_cities, truthy_entries. rewrite Hsame. auto.
  - pose proof (lookup_falsy_free _ _ Hinv Hfalse) as Hfree.
    unfold keeps_cities, truthy_entries. rewrite Hins. split.
    + intros n v Hv. rewrite lookup_insert_ne; [assumption | congruence].
    + apply map_Forall_insert_2; assumption.
Qed.

Lemma growing_getFlights opt :
  respects truthy_entries keeps_cities (getFlights Date_parse Date_toString opt).
Proof.
  exact (respects_getFlights truthy_entries keeps_cities keeps_cities_refl keeps_cities_trans
           Date_parse Date_toString growing_fetchSkyscanner growing_getCityInfo opt).
Qed.

Lemma growing_getFlightResults t type :
  respects truthy_entries keeps_cities (getFlightResults Date_parse Date_toString t type).
Proof.
  exact (respects_getFlightResults truthy_entries keeps_cities keeps_cities_refl keeps_cities_trans
           Date_parse Date_toString growing_fetchSkyscanner growing_getCityInfo t type).
Qed.

Lemma growing_searchTrip t :
  respects truthy_entries keeps_cities (searchTrip Date_parse Date_toString t).
Proof.
  exact (respects_searchTrip truthy_entries keeps_cities keeps_cities_refl keeps_cities_trans
           Date_parse Date_toString growing_fetchSkyscanner growing_getCityInfo t).
Qed.

Lemma useFileCache_outcome name (fetchData : M jsval) w :
  (exists v, useFileCache name fetchData w = (Ok v, w))
  \/ useFileCache name fetchData w = recompute name fetchData w.
Proof.
  destruct (files w !! cache_path name) as [data|] eqn:Ef.
  - destruct (String.eqb (trim data) "") eqn:Et.
    + right. apply useFileCache_miss. right. exists data. apply String.eqb_eq in Et. auto.
    + destruct (JSON_parse data) as [v|] eqn:Ep.
      * left. exists v. apply String.eqb_neq in Et. eapply useFileCache_hit; eassumption.
      * right. apply useFileCache_miss. right. exists data. auto.
  - right. apply useFileCache_miss. now left.
Qed.

Lemma growing_useFileCache name (fetchData : M jsval) :
  respects truthy_entries keeps_cities fetchData ->
  respects truthy_entries keeps_cities (useFileCache name fetchData).
Proof.
  intros Hf w r w' Hinv.
  destruct (useFileCache_outcome name fetchData w) as [[v ->] | ->].
  - intros [= <- <-]. split; [apply keeps_cities_refl | assumption].
  - unfold recompute. rewrite bind_run.
    destruct (fetchData w) as [[result|e] w1] eqn:Ef.
    + destruct (Hf _ _ _ Hinv Ef) as [Hk Hinv1]. rewrite bind_run.
      unfold writeFile. destruct (JSON_stringify result) as [text|];
        [destruct (disk w1 (cache_path name) text) as [|code [partial|]]|];
        intros [= <- <-]; split; assumption.
    + intros [= <- <-]. eapply Hf; eassumption.
Qed.

Lemma growing_cachedTrip t :
  respects truthy_entries keeps_cities (cachedTrip Date_parse Date_toString t).
Proof. apply growing_useFileCache, growing_searchTrip. Qed.

Lemma growing_main t :
  respects truthy_entries keeps_cities (main Date_parse Date_toString t).
Proof.
  intros w r w' Hinv. unfold main. rewrite bind_run.
  destruct (cachedTrip Date_parse Date_toString t w) as [[result|e] w1] eqn:Ec.
  - destruct (growing_cachedTrip t _ _ _ Hinv Ec) as [Hk Hinv1].
    unfold writeToSpreadSheet. destruct (spreadsheet w1 result); intros [= <- <-];
      split; assumption.
  - intros [= <- <-]. eapply growing_cachedTrip; eassumption.
Qed.

Lemma growing_after op w :
  truthy_entries w ->
  keeps_cities w (after Date_parse Date_toString op w)
  /\ truthy_entries (after Date_parse Date_toString op w).
Proof.
  intros Hinv. destruct op as [name|opt|t type|t|t]; simpl.
  - exact (growing_getCityInfo name w _ _ Hinv (surjective_pairing _)).
  - exact (growing_getFlights opt w _ _ Hinv (surjective_pairing _)).
  - exact (growing_getFlightResults t type w _ _ Hinv (surjective_pairing _)).
  - exact (growing_cachedTrip t w _ _ Hinv (surjective_pairing _)).
  - exact (growing_main t w _ _ Hinv (surjective_pairing _)).
Qed.

Lemma growing_run ops w :
  truthy_entries w ->
  keeps_cities w (run Date_parse Date_toString ops w)
  /\ truthy_entries (run Date_parse Date_toString ops w).
Proof.
  revert w. induction ops as [|op ops IH]; intros w Hinv; simpl.
  - split; [apply keeps_cities_refl | assumption].
  - destruct (growing_after op w Hinv) as [H1 Hinv1].
    destruct (IH _ Hinv1) as [H2 Hinv2].
    split; [eapply keeps_cities_trans; eassumption | assumption].
Qed.

(** C10. The city mapping grows monotonically.  Start a run with the empty
    mapping and let it perform any operations of the pipeline (resolutions,
    searches, collections of a leg, the cached trip, the whole of [main]), one
    after the other.  Then every city known at some point of the run is
    known, with the same descriptor, at every later point; and a resolution
    leaves the mapping as it is or adds one entry, for a name that had
    none. *)
Theorem cityInfo_grows w0 before later :
  cityInfo w0 = ∅ ->
  let w := run Date_parse Date_toString before w0 in
  keeps_cities w (run Date_parse Date_toString later w)
  /\ forall name,
       let w' := after Date_parse Date_toString (OpGetCityInfo name) w in
       cityInfo w' = cityInfo w
       \/ exists info, cityInfo w !! name = None
                       /\ cityInfo w' = <[name := info]> (cityInfo w).
Proof.
  intros Hempty w.
  assert (truthy_entries w0) as Hinv0
    by (unfold truthy_entries; rewrite Hempty; apply map_Forall_empty).
  destruct (growing_run before w0 Hinv0) as [_ Hinv]. fold w in Hinv.
  split; [apply growing_run; assumption|].
  intros name w'. subst w'. simpl.
  destruct (getCityInfo_mapping name w _ _ (surjective_pairing _))
    as [Hsame | (info & _ & _ & Hfalse & Hins)].
  - now left.
  - right. exists info. split; [|assumption]. now apply lookup_falsy_free.
Qed.

(** C5. When a resolution of a name returns a descriptor, it has sent at
    most one request, and resolving the same name again returns the same
    descriptor and leaves the world as it is: no request is sent. *)
Theorem getCityInfo_memoizes name w info w1 :
  getCityInfo Date_toString name w = (Ok info, w1) ->
  (requests w1 = requests w
   \/ exists path, lookup_path Date_toString name = Ok path
                   /\ requests w1 = requests w ++ [path])
  /\ lookup_cityInfo name w1 = info
  /\ getCityInfo Date_toString name w1 = (Ok info, w1).
Proof.
  unfold getCityInfo at 1. destruct (truthy (lookup_cityInfo name w)) eqn:Hcached.
  - intros [= <- <-]. repeat split; [now left|].
    unfold getCityInfo. now rewrite Hcached.
  - unfold bind, lift. destruct (lookup_path Date_toString name) as [path|e]; [|discriminate].
    unfold fetchSkyscanner. destruct (key_missing w); [discriminate|].
    destruct (provider w (requests w) path) as [result|e]; [|discriminate].
    destruct (suggestion result) as [info'|e]; [|discriminate].
    destruct (truthy info') eqn:Hinfo; cbn [negb]; [|discriminate].
    unfold store_cityInfo, ret. intros [= <- <-].
    set (w1 := with_cityInfo _ _).
    assert (lookup_cityInfo name w1 = info') as Hlook.
    { unfold lookup_cityInfo. simpl. now rewrite lookup_insert_eq. }
    repeat split.
    + right. exists path. auto.
    + exact Hlook.
    + unfold getCityInfo. now rewrite Hlook, Hinfo.
Qed.

End Searching.

(** ** A run that fails *)

Lemma mapM_fails {A B} (f : A -> M B) pre q post w rs w1 e w2 :
  mapM f pre w = (Ok rs, w1) -> f q w1 = (Err e, w2) ->
  mapM f (pre ++ q :: post) w = (Err e, w2).
Proof.
  intros Hpre Hq. rewrite mapM_app, bind_run, Hpre, bind_run. cbn [mapM].
  rewrite bind_run, Hq. reflexivity.
Qed.

Section Failing.
Variable Date_parse : string -> option Z.
Variable Date_toString : option Z -> string.


Lemma getFlightResults_queries t type w :
  getFlightResults Date_parse Date_toString t type w
  = (let* rss := mapM (getFlights Date_parse Date_toString) (leg_queries (trip_leg t type)) in ret (concat rss)) w.
Proof.
  destruct (trip_leg t type) as [leg|] eqn:Hleg.
  - now apply getFlightResults_mapM.
  - unfold getFlightResults. now rewrite Hleg.
Qed.

Lemma searchTrip_fails t w e w' :
  mapM (getFlights Date_parse Date_toString) (queries t) w = (Err e, w') -> searchTrip Date_parse Date_toString t w = (Err e, w').
Proof.
  unfold queries, searchTrip. intros H. rewrite mapM_app, bind_run in H.
  rewrite bind_run, getFlightResults_queries, bind_run. cbn [trip_leg].
  destruct (mapM _ (leg_queries (depart t)) w) as [[r1|e1] w1]; [|now injection H as -> ->].
  unfold ret at 1. rewrite bind_run, getFlightResults_queries, bind_run. cbn [trip_leg].
  rewrite bind_run in H.
  destruct (mapM _ (leg_queries (return_ t)) w1) as [[r2|e2] w2]; [discriminate|now injection H as -> ->].
Qed.

Lemma lookup_path_eq name :
  lookup_path Date_toString name = Ok ("/flights/auto-complete?query=" +:+ urlencode name).
Proof. reflexivity. Qed.

Lemma lookup_path_is_lookup name path : lookup_path Date_toString name = Ok path -> is_lookup path = true.
Proof. rewrite lookup_path_eq. intros [= <-]. reflexivity. Qed.

Lemma search_path_not_lookup opt originInfo destinationInfo path :
  search_path Date_toString opt originInfo destinationInfo = Ok path -> is_lookup path = false.
Proof.
  unfold search_path.
  repeat match goal with
         | |- rbind ?c _ = _ -> _ => destruct c; simpl; [|discriminate]
         end.
  intros [= <-]. reflexivity.
Qed.

Lemma getCityInfo_unresolved name w :
  no_suggestion Date_toString name w ->
  exists path reply,
    lookup_path Date_toString name = Ok path
    /\ getCityInfo Date_toString name w
       = (Err (unknown_city name reply), with_requests (requests w ++ [path]) w).
Proof.
  intros (Hcached & Hkey & path & reply & info & Hpath & Hreply & Hinfo & Hfalsy).
  exists path, reply. split; [assumption|].
  unfold getCityInfo. rewrite Hcached, bind_run. unfold lift at 1. rewrite Hpath.
  rewrite bind_run. unfold fetchSkyscanner. rewrite Hkey, Hreply.
  rewrite bind_run. unfold lift at 1. rewrite Hinfo, Hfalsy. reflexivity.
Qed.

Lemma getCityInfo_Ok name w info w1 :
  getCityInfo Date_toString name w = (Ok info, w1) ->
  truthy info = true
  /\ ((w1 = w /\ lookup_cityInfo name w = info)
      \/ exists path,
           lookup_path Date_toString name = Ok path
           /\ w1 = with_cityInfo (<[name := info]> (cityInfo w))
                     (with_requests (requests w ++ [path]) w)).
Proof.
  unfold getCityInfo. destruct (truthy (lookup_cityInfo name w)) eqn:Hcached.
  - intros [= <- <-]. split; [assumption|]. left. auto.
  - rewrite bind_run. unfold lift at 1.
    destruct (lookup_path Date_toString name) as [path|e]; [|discriminate].
    rewrite bind_run. unfold fetchSkyscanner. destruct (key_missing w); [discriminate|].
    destruct (provider w (requests w) path) as [result|e]; [|discriminate].
    rewrite bind_run. unfold lift at 1.
    destruct (suggestion result) as [info'|e]; [|discriminate].
    destruct (truthy info') eqn:Hinfo; cbn [negb]; [|discriminate].
    rewrite bind_run. unfold store_cityInfo, ret. intros [= <- <-].
    split; [assumption|]. right. exists path. auto.
Qed.

Lemma framing_mapM_getFlights qs :
  respects always frame (mapM (getFlights Date_parse Date_toString) qs).
Proof.
  apply respects_mapM; [apply frame_refl | apply frame_trans |].
  intros q. apply framing_getFlights.
Qed.

Lemma cachedTrip_fails t w e w' :
  cache_miss "results" w ->
  mapM (getFlights Date_parse Date_toString) (queries t) w = (Err e, w') ->
  cachedTrip Date_parse Date_toString t w = (Err e, w')
  /\ main Date_parse Date_toString t w = (Err e, w').
Proof.
  intros Hmiss Hfail. apply searchTrip_fails in Hfail.
  assert (cachedTrip Date_parse Date_toString t w = (Err e, w')) as Hc
    by (apply useFileCache_propagates; assumption).
  split; [assumption|]. unfold main. now rewrite bind_run, Hc.
Qed.

(** C3. In a run whose cache yields no value, let the queries before [q]
    have been searched, and let the provider have no usable suggestion for
    the origin of [q], or for its destination once the origin is resolved.
    Then the resolution raises the unknown-city error, and so do the cached
    trip and the run; no file is written and nothing is rendered; and after
    the requests of the queries before [q] only requests for suggestions were
    sent: no search for [q] or for a query after it. *)
Theorem unresolved_city_aborts t w pre q post rs w1 :
  cache_miss "results" w ->
  queries t = pre ++ q :: post ->
  mapM (getFlights Date_parse Date_toString) pre w = (Ok rs, w1) ->
  (no_suggestion Date_toString (origin q) w1
   \/ exists info w1',
        getCityInfo Date_toString (origin q) w1 = (Ok info, w1')
        /\ no_suggestion Date_toString (destination q) w1') ->
  exists name reply w2,
    (name = origin q \/ name = destination q)
    /\ getFlights Date_parse Date_toString q w1 = (Err (unknown_city name reply), w2)
    /\ cachedTrip Date_parse Date_toString t w = (Err (unknown_city name reply), w2)
    /\ main Date_parse Date_toString t w = (Err (unknown_city name reply), w2)
    /\ files w2 = files w
    /\ rendered w2 = rendered w
    /\ exists lookups,
         requests w2 = requests w1 ++ lookups
         /\ Forall (fun path => is_lookup path = true) lookups.
Proof.
  intros Hmiss Hq Hpre Hcity.
  destruct (framing_mapM_getFlights pre _ _ _ Logic.I Hpre) as [[_ Hfiles _ _ Hrendered _] _].
  assert (exists name reply w2,
             (name = origin q \/ name = destination q)
             /\ getFlights Date_parse Date_toString q w1 = (Err (unknown_city name reply), w2)
             /\ files w2 = files w1 /\ rendered w2 = rendered w1
             /\ exists lookups,
                  requests w2 = requests w1 ++ lookups
                  /\ Forall (fun path => is_lookup path = true) lookups)
    as (name & reply & w2 & Hname & Hfail & Hf2 & Hr2 & Hreq).
  { destruct Hcity as [Ho | (info & w1' & Ho & Hd)].
    - destruct (getCityInfo_unresolved _ _ Ho) as (path & reply & Hpath & Hget).
      exists (origin q), reply, (with_requests (requests w1 ++ [path]) w1).
      split; [now left|]. split.
      + unfold getFlights. now rewrite bind_run, Hget.
      + repeat split. exists [path]. split; [reflexivity|].
        constructor; [|constructor]. eapply lookup_path_is_lookup; eassumption.
    - destruct (getCityInfo_unresolved _ _ Hd) as (path & reply & Hpath & Hget).
      exists (destination q), reply, (with_requests (requests w1' ++ [path]) w1').
      split; [now right|]. split.
      + unfold getFlights. now rewrite bind_run, Ho, bind_run, Hget.
      + apply getCityInfo_Ok in Ho as [_ [[-> _] | (path' & Hpath' & ->)]].
        * repeat split. exists [path]. split; [reflexivity|].
          constructor; [|constructor]. eapply lookup_path_is_lookup; eassumption.
        * repeat split. exists [path'; path]. split; [simpl; now rewrite <- app_assoc|].
          repeat constructor; eapply lookup_path_is_lookup; eassumption. }
  exists name, reply, w2.
  pose proof (mapM_fails _ pre q post _ _ _ _ _ Hpre Hfail) as Hall. rewrite <- Hq in Hall.
  destruct (cachedTrip_fails _ _ _ _ Hmiss Hall) as [Hc Hm].
  repeat split; try assumption; congruence.
Qed.

(** C4 (amended). Without an API key every call of the provider raises the
    missing-key error before a request is sent.  So a run whose cache yields
    no value and whose first query has an unresolved origin fails with that
    error in the world it started in: no request, no file, no city stored.
    (When the cache yields a value the key is never looked at.) *)
Theorem missing_key_aborts t w q rest :
  key_missing w = true ->
  cache_miss "results" w ->
  queries t = q :: rest ->
  truthy (lookup_cityInfo (origin q) w) = false ->
  (forall path, fetchSkyscanner path w = (Err missing_key, w))
  /\ cachedTrip Date_parse Date_toString t w = (Err missing_key, w)
  /\ main Date_parse Date_toString t w = (Err missing_key, w).
Proof.
  intros Hkey Hmiss Hq Hfresh.
  assert (forall path, fetchSkyscanner path w = (Err missing_key, w)) as Hfetch
    by (intros path; unfold fetchSkyscanner; now rewrite Hkey).
  split; [assumption|].
  apply cachedTrip_fails; [assumption|]. rewrite Hq. cbn [mapM].
  rewrite bind_run. unfold getFlights at 1. rewrite bind_run.
  unfold getCityInfo at 1. rewrite Hfresh, bind_run. unfold lift at 1.
  rewrite lookup_path_eq, bind_run, Hfetch. reflexivity.
Qed.

End Failing.

(** ** The claims about the cache, and the sample runs *)

(** C1 (amended). When the cache file exists, is not blank and parses,
    [useFileCache] returns the parsed value and leaves the world as it was,
    whatever [fetchData] is: [fetchData] is not run, no request is sent,
    nothing is written. *)
Theorem cache_hit_skips_compute name fetchData w data v :
  files w !! cache_path name = Some data ->
  trim data <> "" ->
  JSON_parse data = Some v ->
  useFileCache name fetchData w = (Ok v, w).
Proof. apply useFileCache_hit. Qed.

Lemma cache_hit_skips_compute_witness :
  useFileCache "results" (throw TypeError) warm_world = (Ok empty_result, warm_world).
Proof.
  apply (cache_hit_skips_compute "results" (throw TypeError) warm_world empty_result_text).
  - vm_compute. reflexivity.
  - vm_compute. discriminate.
  - vm_compute. reflexivity.
Defined.

(** C1 as stated fails: the cache file of [broken_world] exists and is not
    blank, yet [fetchData] runs and its value is returned and written. *)
Lemma malformed_cache_recomputes :
  files broken_world !! cache_path "results" = Some "{"
  /\ trim "{" <> ""
  /\ JSON_parse "{" = None
  /\ useFileCache "results" (ret (VNum (number_of_Z 7))) broken_world
     = (Ok (VNum (number_of_Z 7)), with_files (<[cache_path "results" := "7"]> (files broken_world)) broken_world).
Proof.
  split; [vm_compute; reflexivity|]. split; [vm_compute; discriminate|].
  split; [vm_compute; reflexivity|].
  apply useFileCache_computes; [| reflexivity | reflexivity | reflexivity].
  right. exists "{". split; [vm_compute; reflexivity|]. right. vm_compute. reflexivity.
Qed.

(** C8. When the cache file is missing, blank or malformed, [useFileCache]
    does what it does without a cache: it runs [fetchData] and, with its
    result, writes the file and returns the result.  The outcome is
    [fetchData]'s exception, or the TypeError of writing a result that has no
    JSON text, or the error of a write that the disk rejects, or the result
    with its text written -- whichever of the three ways the file failed,
    and never the exception of reading or parsing it. *)
Theorem read_failure_recomputes name fetchData w :
  cache_miss name w ->
  useFileCache name fetchData w = recompute name fetchData w
  /\ useFileCache name fetchData w
     = match fetchData w with
       | (Ok result, w1) =>
           match JSON_stringify result with
           | Some text =>
               match disk w1 (cache_path name) text with
               | Written =>
                   (Ok result, with_files (<[cache_path name := text]> (files w1)) w1)
               | WriteFailed code None => (Err (SystemError code), w1)
               | WriteFailed code (Some partial) =>
                   (Err (SystemError code),
                    with_files (<[cache_path name := partial]> (files w1)) w1)
               end
           | None => (Err TypeError, w1)
           end
       | (Err e, w1) => (Err e, w1)
       end.
Proof.
  intros Hmiss. rewrite useFileCache_miss by assumption. split; [reflexivity|].
  apply recompute_run.
Qed.

Lemma read_failure_recomputes_witness :
  useFileCache "results" (ret (VNum (number_of_Z 7))) broken_world
  = recompute "results" (ret (VNum (number_of_Z 7))) broken_world
  /\ useFileCache "results" (ret (VNum (number_of_Z 7))) broken_world
     = (Ok (VNum (number_of_Z 7)),
        with_files (<[cache_path "results" := "7"]> (files broken_world)) broken_world)
  /\ useFileCache "a/b" (ret (VNum (number_of_Z 7))) flat_world
     = (Err (SystemError "ENOENT"), flat_world).
Proof.
  destruct (read_failure_recomputes "results" (ret (VNum (number_of_Z 7))) broken_world)
    as [Hsame Hrun].
  { right. exists "{". split; [vm_compute; reflexivity|]. right. vm_compute. reflexivity. }
  split; [exact Hsame|]. split; [rewrite Hrun; reflexivity|].
  destruct (read_failure_recomputes "a/b" (ret (VNum (number_of_Z 7))) flat_world)
    as [_ Hflat].
  { left. vm_compute. reflexivity. }
  rewrite Hflat. reflexivity.
Defined.

Lemma cache_miss_roundtrip_witness :
  useFileCache "results"
    (searchTrip sample_Date_parse sample_Date_toString sample_trip) sample_world
  = (Ok sample_result,
     with_files (<[cache_path "results" := sample_result_text]> (files (snd sample_search)))
       (snd sample_search))
  /\ useFileCache "a/b"
       (searchTrip sample_Date_parse sample_Date_toString sample_trip) flat_world
     = (Err (SystemError "ENOENT"),
        snd (searchTrip sample_Date_parse sample_Date_toString sample_trip flat_world)).
Proof.
  split.
  - pose proof (cache_miss_roundtrip "results"
                  (searchTrip sample_Date_parse sample_Date_toString sample_trip)
                  sample_world sample_result (snd sample_search)) as H.
    assert (JSON_stringify sample_result = Some sample_result_text) as Htext
      by (vm_compute; reflexivity).
    rewrite Htext in H. apply H; vm_compute; reflexivity.
  - pose proof (cache_miss_roundtrip "a/b"
                  (searchTrip sample_Date_parse sample_Date_toString sample_trip)
                  flat_world sample_result
                  (snd (searchTrip sample_Date_parse sample_Date_toString sample_trip
                          flat_world))) as H.
    assert (JSON_stringify sample_result = Some sample_result_text) as Htext
      by (vm_compute; reflexivity).
    rewrite Htext in H. apply H; vm_compute; reflexivity.
Defined.

(** C2 as stated fails in three ways.  On the sample run, which finds no
    cache file, returns its result and writes it, the text written parses to
    a value that is not the result returned: the departure is a string there
    and a Date in the result.  A function that returns undefined is run, and
    the call ends in a TypeError: nothing is returned and nothing written.
    And with the key [a/b] in a directory without subdirectories the search
    is run, its requests are sent, and the call ends in the error of the
    write: nothing is returned and nothing written. *)
Lemma cache_miss_counterexamples :
  (files sample_world !! cache_path "results" = None
   /\ exists w2 reread departsAt departsAt',
        cachedTrip sample_Date_parse sample_Date_toString sample_trip sample_world
        = (Ok sample_result, w2)
        /\ files w2 !! cache_path "results" = Some sample_result_text
        /\ JSON_parse sample_result_text = Some reread
        /\ reread <> sample_result
        /\ rbind (rbind (get sample_result "depart") index0) (fun f => get f "departsAt")
           = Ok departsAt
        /\ rbind (rbind (get reread "depart") index0) (fun f => get f "departsAt")
           = Ok departsAt'
        /\ departsAt = VDate (Some 1757570400000%Z)
        /\ departsAt' = VStr "2025-09-11T06:00:00.000Z")
  /\ (files sample_world !! cache_path "results" = None
      /\ useFileCache "results" (ret VUndefined) sample_world = (Err TypeError, sample_world))
  /\ (files flat_world !! cache_path "a/b" = None
      /\ cache_path "a/b" = "cache-a/b.json"
      /\ exists w2,
           useFileCache "a/b"
             (searchTrip sample_Date_parse sample_Date_toString sample_trip) flat_world
           = (Err (SystemError "ENOENT"), w2)
           /\ length (requests w2) = 3%nat
           /\ files w2 = files flat_world).
Proof.
  split; [|split].
  - split; [vm_compute; reflexivity|].
    eexists _, _, _, _.
    split; [vm_compute; reflexivity|]. split; [vm_compute; reflexivity|].
    split; [vm_compute; reflexivity|]. split; [vm_compute; discriminate|].
    split; [vm_compute; reflexivity|]. split; [vm_compute; reflexivity|].
    split; reflexivity.
  - split; vm_compute; reflexivity.
  - split; [vm_compute; reflexivity|]. split; [reflexivity|].
    eexists. split; [vm_compute; reflexivity|]. split; vm_compute; reflexivity.
Qed.

Lemma unresolved_city_aborts_witness :
  exists name reply w2,
    main sample_Date_parse sample_Date_toString nowhere_trip sample_world
    = (Err (unknown_city name reply), w2)
    /\ files w2 = files sample_world
    /\ rendered w2 = rendered sample_world.
Proof.
  set (pre := [ {| date := "2025-09-11"; origin := "Budapest"; destination := "Corfu" |};
                {| date := "2025-09-12"; origin := "Budapest"; destination := "Corfu" |} ]).
  set (q := {| date := "2025-09-11"; origin := "Nowhereland"; destination := "Corfu" |}).
  set (post := [ {| date := "2025-09-12"; origin := "Nowhereland"; destination := "Corfu" |} ]).
  set (run := mapM (getFlights sample_Date_parse sample_Date_toString) pre sample_world).
  destruct (unresolved_city_aborts sample_Date_parse sample_Date_toString
              nowhere_trip sample_world pre q post
              (match fst run with Ok rs => rs | Err _ => [] end) (snd run))
    as (name & reply & w2 & Hname & Hq & _ & Hmain & Hfiles & Hrendered & _).
  - left. vm_compute. reflexivity.
  - vm_compute. reflexivity.
  - vm_compute. reflexivity.
  - left. split; [vm_compute; reflexivity|]. split; [vm_compute; reflexivity|].
    eexists _, _, _. split; [vm_compute; reflexivity|]. split; [vm_compute; reflexivity|].
    split; vm_compute; reflexivity.
  - exists name, reply, w2. auto.
Defined.

Lemma missing_key_aborts_witness :
  main sample_Date_parse sample_Date_toString sample_trip keyless_world
  = (Err missing_key, keyless_world).
Proof.
  apply (missing_key_aborts sample_Date_parse sample_Date_toString sample_trip keyless_world
           sample_opt []).
  - vm_compute. reflexivity.
  - left. vm_compute. reflexivity.
  - vm_compute. reflexivity.
  - vm_compute. reflexivity.
Defined.

(** C4 as stated fails: [warm_world] has no API key and a cached trip
    result, and the run succeeds: the cached result is rendered, and the key
    is never asked for. *)
Lemma warm_cache_needs_no_key :
  key_missing warm_world = true
  /\ main sample_Date_parse sample_Date_toString sample_trip warm_world
     = (Ok tt, with_rendered [empty_result] warm_world).
Proof. split; vm_compute; reflexivity. Qed.

Lemma getCityInfo_memoizes_witness :
  getCityInfo sample_Date_toString "Budapest"
    (snd (getCityInfo sample_Date_toString "Budapest" sample_world))
  = (Ok (VObj [("skyId", VStr "BUD"); ("entityId", VStr "1")]),
     snd (getCityInfo sample_Date_toString "Budapest" sample_world)).
Proof.
  apply (getCityInfo_memoizes sample_Date_toString "Budapest" sample_world).
  vm_compute. reflexivity.
Defined.

Lemma items_unguarded_witness :
  nonstopFlights sample_Date_parse sample_Date_toString sample_opt
    VUndefined VUndefined reply_without_items = Err TypeError
  /\ nonstopFlights sample_Date_parse sample_Date_toString sample_opt
       VUndefined VUndefined sample_reply
     = map_r (flightResult sample_Date_parse sample_Date_toString sample_opt
                VUndefined VUndefined) [itinerary 0 123 "Test Air"]
  /\ exists legs data,
       get (itinerary 0 123 "Test Air") "legs" = Ok legs
       /\ index0 legs = Ok data /\ nullish data = false
       /\ flightResult sample_Date_parse sample_Date_toString sample_opt
            VUndefined VUndefined (itinerary 0 123 "Test Air")
          = pushed sample_Date_parse sample_Date_toString sample_opt
              VUndefined VUndefined (itinerary 0 123 "Test Air") data.
Proof.
  split.
  - apply (items_unguarded sample_Date_parse sample_Date_toString sample_opt
             VUndefined VUndefined reply_without_items
             (VObj [("id", VStr "Best")]) VUndefined);
      [reflexivity | reflexivity | reflexivity | intros l; discriminate].
  - destruct (items_unguarded sample_Date_parse sample_Date_toString sample_opt
                VUndefined VUndefined sample_reply sample_bucket
                (VArr [itinerary 0 123 "Test Air"; itinerary 1 99 "Slow Air"])
                eq_refl eq_refl eq_refl) as [_ H].
    destruct (H _ [itinerary 0 123 "Test Air"] eq_refl eq_refl) as [Hall Hkept].
    split; [exact Hall|].
    destruct (Hkept (itinerary 0 123 "Test Air")) as (legs & data & Hl & Hd & Hn & Hp & _);
      [now left|].
    exists legs, data. auto.
Defined.

Lemma cityInfo_grows_witness :
  keeps_cities
    (run sample_Date_parse sample_Date_toString [OpGetCityInfo "Budapest"] sample_world)
    (run sample_Date_parse sample_Date_toString [OpMain sample_trip]
       (run sample_Date_parse sample_Date_toString [OpGetCityInfo "Budapest"] sample_world)).
Proof.
  apply (cityInfo_grows sample_Date_parse sample_Date_toString sample_world
           [OpGetCityInfo "Budapest"] [OpMain sample_trip]).
  reflexivity.
Defined.

(** * Further properties *)

(** ** The query string *)

Lemma occurrences_app c a b :
  occurrences c (a +:+ b) = (occurrences c a + occurrences c b)%nat.
Proof. induction a as [|x a IH]; simpl; [reflexivity | rewrite IH; lia]. Qed.

Lemma urldecode_char c r :
  urldecode (urlencode_char c +:+ r) = String c (urldecode r).
Proof. destruct c as [[] [] [] [] [] [] [] []]; reflexivity. Qed.

Lemma urldecode_encoded s : urldecode (urlencode s) = s.
Proof.
  induction s as [|c s IH]; simpl; [reflexivity|].
  now rewrite urldecode_char, IH.
Qed.

Lemma urlencode_inj s1 s2 : urlencode s1 = urlencode s2 -> s1 = s2.
Proof. intros H. rewrite <- (urldecode_encoded s1), H. apply urldecode_encoded. Qed.

(** The characters that delimit the parts of a URL are never written by the
    encoder. *)
Lemma urlencode_char_plain c a :
  In c ["&"; "="; "?"; "#"; " "; "/"]%char -> occurrences c (urlencode_char a) = 0%nat.
Proof.
  intros H. repeat (destruct H as [<-|H]; [destruct a as [[] [] [] [] [] [] [] []]; reflexivity|]).
  destruct H.
Qed.

Lemma urlencode_plain c s :
  In c ["&"; "="; "?"; "#"; " "; "/"]%char -> occurrences c (urlencode s) = 0%nat.
Proof.
  intros H. induction s as [|a s IH]; simpl; [reflexivity|].
  now rewrite occurrences_app, urlencode_char_plain, IH.
Qed.

Lemma map_r_length {A B} (f : A -> completion B) xs ys :
  map_r f xs = Ok ys -> length ys = length xs.
Proof.
  revert ys. induction xs as [|x xs IH]; intros ys; simpl.
  - now intros [= <-].
  - destruct (f x) as [y|e]; simpl; [|discriminate].
    destruct (map_r f xs) as [ys'|e]; simpl; [|discriminate].
    intros [= <-]. simpl. now rewrite (IH ys').
Qed.

Lemma map_r_Forall {A B} (f : A -> completion B) (P : B -> Prop) xs ys :
  map_r f xs = Ok ys -> (forall x y, In x xs -> f x = Ok y -> P y) -> Forall P ys.
Proof.
  revert ys. induction xs as [|x xs IH]; intros ys; simpl.
  - intros [= <-] _. constructor.
  - destruct (f x) as [y|e] eqn:Ey; simpl; [|discriminate].
    destruct (map_r f xs) as [ys'|e]; simpl; [|discriminate].
    intros [= <-] H. constructor; [eapply H; eauto|]. apply IH; [reflexivity|].
    intros x' y' Hin. apply H. now right.
Qed.

(** What the joined pairs of a query string contain of a character [c] that
    each pair holds [n] times and the separator [m] times. *)
Lemma occurrences_join c sep n pairs :
  Forall (fun p => occurrences c p = n) pairs ->
  occurrences c (join sep pairs)
  = (n * length pairs + occurrences c sep * pred (length pairs))%nat.
Proof.
  induction 1 as [|p rest Hp Hrest IH]; [simpl; lia|].
  destruct rest as [|q rest].
  - simpl. lia.
  - change (join sep (p :: q :: rest)) with (p +:+ sep +:+ join sep (q :: rest)).
    rewrite !occurrences_app, IH, Hp. simpl. lia.
Qed.

Section QueryString.
Variable Date_toString : option Z -> string.

Lemma query_pairs params q :
  query Date_toString params = Ok q ->
  exists pairs,
    q = "?" +:+ join "&" pairs
    /\ length pairs = length (List.filter (fun kv => negb (nullish (snd kv))) params)
    /\ Forall (fun p => exists k v, p = urlencode k +:+ "=" +:+ urlencode v) pairs.
Proof.
  unfold query.
  replace (List.filter (fun '(_, v) => negb (nullish v)) params)
    with (List.filter (fun kv : string * jsval => negb (nullish (snd kv))) params)
    by (apply List.filter_ext; now intros [k v]).
  destruct (map_r _ _) as [pairs|e] eqn:E; simpl; [|discriminate].
  intros [= <-]. exists pairs. split; [reflexivity|]. split.
  - eapply map_r_length; eassumption.
  - eapply map_r_Forall; [exact E|]. intros [k v] p _. 
    destruct (ToString Date_toString v) as [s|e]; simpl; [|discriminate].
    intros [= <-]. eauto.
Qed.

(** X1. A query string is a question mark followed by one [key=value] pair
    for each parameter that is neither undefined nor null, the pairs
    separated by ampersands: whatever the keys and the values are, the text
    holds as many equals signs as such parameters, one ampersand less, and
    no question mark, number sign, slash or space. *)
Theorem query_separators params q :
  query Date_toString params = Ok q ->
  exists body,
    q = "?" +:+ body
    /\ occurrences "=" body
       = length (List.filter (fun kv => negb (nullish (snd kv))) params)
    /\ occurrences "&" body
       = pred (length (List.filter (fun kv => negb (nullish (snd kv))) params))
    /\ occurrences "?" body = 0%nat
    /\ occurrences "#" body = 0%nat
    /\ occurrences "/" body = 0%nat
    /\ occurrences " " body = 0%nat.
Proof.
  intros H. apply query_pairs in H as (pairs & -> & <- & Hpairs).
  exists (join "&" pairs). split; [reflexivity|].
  assert (forall c n, In c ["&"; "="; "?"; "#"; " "; "/"]%char ->
                      n = (if Ascii.eqb c "=" then 1 else 0)%nat ->
                      Forall (fun p => occurrences c p = n) pairs) as Hcount.
  { intros c n Hc ->. eapply Forall_impl; [exact Hpairs|].
    intros p (k & v & ->). simpl.
    rewrite !occurrences_app, !urlencode_plain by assumption.
    cbn [occurrences String.append].
    rewrite urlencode_plain by assumption.
    destruct (Ascii.eqb_spec "=" c), (Ascii.eqb_spec c "="); subst; try congruence; lia. }
  repeat split.
  - rewrite (occurrences_join "=" "&" 1) by (apply Hcount; simpl; auto). simpl. lia.
  - rewrite (occurrences_join "&" "&" 0) by (apply Hcount; simpl; auto). simpl. lia.
  - rewrite (occurrences_join "?" "&" 0) by (apply Hcount; simpl; auto 10). simpl. lia.
  - rewrite (occurrences_join "#" "&" 0) by (apply Hcount; simpl; auto 10). simpl. lia.
  - rewrite (occurrences_join "/" "&" 0) by (apply Hcount; simpl; auto 10). simpl. lia.
  - rewrite (occurrences_join " " "&" 0) by (apply Hcount; simpl; auto 10). simpl. lia.
Qed.

(** X2. Form-encoding loses nothing: decoding the encoded text gives the
    text back, so the requests for the suggestions of two different names
    differ. *)
Theorem lookup_path_decodes name :
  lookup_path Date_toString name = Ok ("/flights/auto-complete?query=" +:+ urlencode name)
  /\ urldecode (urlencode name) = name
  /\ forall other, lookup_path Date_toString other = lookup_path Date_toString name ->
                   other = name.
Proof.
  split; [reflexivity|]. split; [apply urldecode_encoded|].
  intros other H. rewrite !lookup_path_eq in H. injection H as H.
  now apply urlencode_inj.
Qed.

End QueryString.

(** ** Resolving a name *)

Lemma fetchSkyscanner_Ok path w result w' :
  fetchSkyscanner path w = (Ok result, w') ->
  key_missing w = false
  /\ provider w (requests w) path = Ok result
  /\ w' = with_requests (requests w ++ [path]) w.
Proof.
  unfold fetchSkyscanner. destruct (key_missing w); [discriminate|].
  intros [= -> <-]. auto.
Qed.

Lemma lookup_request_is_lookup name : is_lookup (lookup_request name) = true.
Proof. reflexivity. Qed.

Lemma lookup_request_inj n1 n2 : lookup_request n1 = lookup_request n2 -> n1 = n2.
Proof. unfold lookup_request. intros [= H]. now apply urlencode_inj. Qed.

Section Resolution.
Variable Date_toString : option Z -> string.

(** The three outcomes of a resolution. *)
Lemma getCityInfo_cases name w r w' :
  getCityInfo Date_toString name w = (r, w') ->
  (resolved name w /\ r = Ok (lookup_cityInfo name w) /\ w' = w)
  \/ (~ resolved name w /\ key_missing w = true /\ r = Err missing_key /\ w' = w)
  \/ (~ resolved name w /\ key_missing w = false
      /\ exists w1, w1 = with_requests (requests w ++ [lookup_request name]) w
         /\ ((exists e, r = Err e /\ w' = w1)
             \/ exists info, r = Ok info /\ truthy info = true
                             /\ w' = with_cityInfo (<[name := info]> (cityInfo w)) w1)).
Proof.
  unfold getCityInfo, resolved. destruct (truthy (lookup_cityInfo name w)) eqn:Hcached.
  - intros [= <- <-]. left. auto.
  - rewrite bind_run. unfold lift at 1.
    change (lookup_path Date_toString name) with (@Ok string (lookup_request name)).
    cbv beta iota. rewrite bind_run. unfold fetchSkyscanner. destruct (key_missing w) eqn:Hkey.
    { intros [= <- <-]. right. left. repeat split; congruence. }
    assert (forall out : Prop, out ->
              (false = true /\ r = Ok (lookup_cityInfo name w) /\ w' = w)
              \/ (false <> true /\ false = true /\ r = Err missing_key /\ w' = w)
              \/ (false <> true /\ false = false /\ out)) as Hthird.
    { intros out Hout. right. right. repeat split; [discriminate | exact Hout]. }
    destruct (provider w (requests w) (lookup_request name)) as [result|e].
    2:{ intros [= <- <-]. apply Hthird. eexists. split; [reflexivity|]. left. eauto. }
    rewrite bind_run. unfold lift at 1.
    destruct (suggestion result) as [info|e].
    2:{ intros [= <- <-]. apply Hthird. eexists. split; [reflexivity|]. left. eauto. }
    destruct (truthy info) eqn:Hinfo; cbn [negb].
    + rewrite bind_run. unfold store_cityInfo, ret. intros [= <- <-].
      apply Hthird. eexists. split; [reflexivity|]. right. eauto.
    + unfold throw. intros [= <- <-].
      apply Hthird. eexists. split; [reflexivity|]. left. eauto.
Qed.

(** X3. A resolution that fails stores nothing, not even that the name is
    unknown: the mapping is as before and the name is still unresolved, so
    with an API key the next resolution of the name sends the same request
    again. *)
Theorem failed_resolution_not_stored name w e w' :
  getCityInfo Date_toString name w = (Err e, w') ->
  cityInfo w' = cityInfo w
  /\ ~ resolved name w'
  /\ (key_missing w = false ->
      requests w' = requests w ++ [lookup_request name]
      /\ forall r2 w2, getCityInfo Date_toString name w' = (r2, w2) ->
                       requests w2 = requests w' ++ [lookup_request name]).
Proof.
  intros H.
  destruct (getCityInfo_cases _ _ _ _ H)
    as [(_ & [=] & _) | [(Hun & Hkey & _ & ->) | (Hun & Hkey & w1 & -> & Hout)]].
  - split; [reflexivity|]. split; [exact Hun|]. congruence.
  - destruct Hout as [(e' & _ & ->) | (info & [=] & _)].
    split; [reflexivity|]. split; [exact Hun|]. intros _. split; [reflexivity|].
    intros r2 w2 H2.
    destruct (getCityInfo_cases _ _ _ _ H2)
      as [(Hres & _) | [(_ & Hkey2 & _) | (_ & _ & w1 & -> & Hout)]].
    + contradiction.
    + unfold key_missing in *. simpl in Hkey2. congruence.
    + destruct Hout as [(e2 & _ & ->) | (info & _ & _ & ->)]; reflexivity.
Qed.

(** X4. The mapping is a plain object, so a name that [Object.prototype]
    defines -- [constructor], [toString], [__proto__], ... -- is found in it
    from the start: its resolution returns the inherited member as the
    descriptor, sends no request and stores nothing. *)
Theorem prototype_name_resolved name w :
  In name Object_prototype_names ->
  cityInfo w !! name = None ->
  getCityInfo Date_toString name w = (Ok (VNative name), w)
  /\ get (VNative name) "skyId" = Ok VUndefined
  /\ get (VNative name) "entityId" = Ok VUndefined.
Proof.
  intros Hin Hfree.
  assert (lookup_cityInfo name w = VNative name) as Hlook.
  { unfold lookup_cityInfo, inherited. rewrite Hfree.
    assert (existsb (String.eqb name) Object_prototype_names = true) as ->; [|reflexivity].
    apply existsb_exists. exists name. split; [assumption | apply String.eqb_refl]. }
  split; [|split; reflexivity].
  unfold getCityInfo. now rewrite Hlook.
Qed.

End Resolution.

(** ** The requests of a search *)

Lemma lookup_stored name info c w n :
  lookup_cityInfo n (with_cityInfo (<[name := info]> (cityInfo w)) (with_requests c w))
  = if String.eqb n name then info else lookup_cityInfo n w.
Proof.
  unfold lookup_cityInfo. simpl. destruct (String.eqb_spec n name) as [->|Hne].
  - now rewrite lookup_insert_eq.
  - rewrite lookup_insert_ne by congruence. reflexivity.
Qed.

Lemma lookups_app l1 l2 : lookups (l1 ++ l2) = lookups l1 ++ lookups l2.
Proof. apply List.filter_app. Qed.

Lemma searches_app l1 l2 : searches (l1 ++ l2) = searches l1 ++ searches l2.
Proof. apply List.filter_app. Qed.

Lemma lookups_In path l : In path (lookups l) -> In path l.
Proof. unfold lookups. intros H. now apply List.filter_In in H. Qed.

Lemma length_lookups_searches l :
  length l = (length (lookups l) + length (searches l))%nat.
Proof.
  induction l as [|p l IH]; [reflexivity|].
  unfold lookups, searches in *. simpl. destruct (is_lookup p); simpl; lia.
Qed.

Lemma searched_refl cities w :
  (forall name, In name cities -> resolved name w) -> searched cities 0 w w.
Proof.
  intros H. exists []. unfold asked, lookups, searches. rewrite app_nil_r. simpl.
  repeat split; try constructor; try assumption; try (intros ? []); auto.
Qed.

Lemma searched_trans c1 c2 n m w w1 w2 :
  searched c1 n w w1 -> searched c2 m w1 w2 -> searched (c1 ++ c2) (n + m) w w2.
Proof.
  intros (new1 & Ha1 & Hn1 & Hd1 & Hp1 & Hk1 & Hc1) (new2 & Ha2 & Hn2 & Hd2 & Hp2 & Hk2 & Hc2).
  exists (new1 ++ new2). unfold asked in *. repeat split.
  - rewrite Ha2, Ha1. now rewrite app_assoc.
  - rewrite searches_app, length_app. lia.
  - rewrite lookups_app. apply List.NoDup_app; try assumption.
    intros p Hin1 Hin2. destruct (Hp1 p Hin1) as (name & _ & -> & _ & Hres).
    apply (Hk2 name Hres). now apply lookups_In.
  - intros p Hin. rewrite lookups_app in Hin. apply in_app_or in Hin as [Hin|Hin].
    + destruct (Hp1 p Hin) as (name & Hname & -> & Hun & Hres).
      exists name. repeat split; try assumption.
      * apply in_or_app. now left.
      * now apply Hk2.
    + destruct (Hp2 p Hin) as (name & Hname & -> & Hun & Hres).
      exists name. repeat split; try assumption.
      * apply in_or_app. now right.
      * intros Hw. apply Hun. now apply Hk1.
  - apply Hk2. now apply Hk1.
  - intros Hin. apply in_app_or in Hin as [Hin|Hin].
    + apply (Hk1 name H) in Hin. exact Hin.
    + apply (Hk2 name) in Hin; [exact Hin|]. now apply Hk1.
  - intros name Hin. apply in_app_or in Hin as [Hin|Hin].
    + apply Hk2. now apply Hc1.
    + now apply Hc2.
Qed.

Lemma searched_fetchSkyscanner path w result w' :
  fetchSkyscanner path w = (Ok result, w') -> is_lookup path = false ->
  searched [] 1 w w'.
Proof.
  intros H Hs. apply fetchSkyscanner_Ok in H as (_ & _ & ->).
  exists [path]. unfold asked, lookups, searches. simpl. rewrite Hs. simpl.
  repeat split; try constructor; try (intros ? []); try assumption.
  intros [Heq|[]]. rewrite Heq in Hs. discriminate.
Qed.

Section Requests.
Variable Date_parse : string -> option Z.
Variable Date_toString : option Z -> string.

Lemma searched_getCityInfo name w info w' :
  getCityInfo Date_toString name w = (Ok info, w') -> searched [name] 0 w w'.
Proof.
  intros H.
  destruct (getCityInfo_cases _ _ _ _ _ H)
    as [(Hres & _ & ->) | [(_ & _ & [=] & _) | (Hun & _ & w1 & -> & Hout)]].
  - apply searched_refl. intros n [<-|[]]. exact Hres.
  - destruct Hout as [(e & [=] & _) | (info' & [= <-] & Hinfo & ->)].
    exists [lookup_request name]. unfold asked, lookups, searches, resolved in *.
    simpl. repeat split.
    + constructor; [intros [] | constructor].
    + intros path [<-|[]]. exists name. rewrite lookup_stored, String.eqb_refl. auto.
    + rewrite lookup_stored. destruct (String.eqb_spec name0 name); congruence.
    + intros [Heq|[]]. apply lookup_request_inj in Heq. congruence.
    + intros n [<-|[]]. now rewrite lookup_stored, String.eqb_refl.
Qed.

Lemma searched_getFlights opt w results w' :
  getFlights Date_parse Date_toString opt w = (Ok results, w') ->
  searched [origin opt; destination opt] 1 w w'.
Proof.
  intros H. apply getFlights_Ok in H
    as (oi & w1 & di & w2 & path & result & Ho & Hd & Hpath & Hfetch & _).
  apply searched_getCityInfo in Ho, Hd.
  apply search_path_not_lookup in Hpath.
  pose proof (searched_fetchSkyscanner _ _ _ _ Hfetch Hpath) as Hf.
  exact (searched_trans _ _ _ _ _ _ _ Ho (searched_trans _ _ _ _ _ _ _ Hd Hf)).
Qed.

Lemma searched_mapM qs : forall w rss w',
  mapM (getFlights Date_parse Date_toString) qs w = (Ok rss, w') ->
  searched (cities_of qs) (length qs) w w'.
Proof.
  induction qs as [|q qs IH]; intros w rss w'; simpl.
  - intros [= <- <-]. apply searched_refl. intros ? [].
  - rewrite bind_run.
    destruct (getFlights _ _ q w) as [[rs|e] w1] eqn:Eq; [|discriminate].
    rewrite bind_run.
    destruct (mapM _ qs w1) as [[rss'|e] w2] eqn:Eqs; [|discriminate].
    intros [= <- <-].
    exact (searched_trans _ _ _ _ _ _ _ (searched_getFlights _ _ _ _ Eq) (IH _ _ _ Eqs)).
Qed.

(** X5. The requests of one query.  When [getFlights] returns, it has sent
    the request for the suggestions of the origin if the origin was not
    resolved, then that of the destination if the destination was not
    resolved and is not the origin, then one search: three requests at most,
    and the search alone when both cities were resolved. *)
Theorem getFlights_requests opt w results w' :
  getFlights Date_parse Date_toString opt w = (Ok results, w') ->
  exists path,
    is_lookup path = false
    /\ requests w'
       = requests w
         ++ (if truthy (lookup_cityInfo (origin opt) w) then []
             else [lookup_request (origin opt)])
         ++ (if truthy (lookup_cityInfo (destination opt) w)
                || String.eqb (destination opt) (origin opt) then []
             else [lookup_request (destination opt)])
         ++ [path].
Proof.
  intros H. apply getFlights_Ok in H
    as (oi & w1 & di & w2 & path & result & Ho & Hd & Hpath & Hfetch & _).
  exists path. split; [eapply search_path_not_lookup; eassumption|].
  apply fetchSkyscanner_Ok in Hfetch as (_ & _ & ->). simpl.
  destruct (getCityInfo_cases _ _ _ _ _ Ho)
    as [(Hres & _ & ->) | [(_ & _ & [=] & _) | (Hun & _ & w0 & -> & Hout)]].
  - unfold resolved in Hres. rewrite Hres. simpl.
    destruct (getCityInfo_cases _ _ _ _ _ Hd)
      as [(Hres2 & _ & ->) | [(_ & _ & [=] & _) | (Hun2 & _ & w0 & -> & Hout)]].
    + unfold resolved in Hres2. rewrite Hres2. reflexivity.
    + destruct Hout as [(e & [=] & _) | (info' & _ & _ & ->)]. simpl.
      unfold resolved in Hun2. apply not_true_is_false in Hun2. rewrite Hun2. simpl.
      destruct (String.eqb_spec (destination opt) (origin opt)) as [Heq|_].
      * rewrite Heq in Hun2. congruence.
      * now rewrite <- app_assoc.
  - destruct Hout as [(e & [=] & _) | (info & _ & Hinfo & ->)].
    unfold resolved in Hun. apply not_true_is_false in Hun. rewrite Hun.
    destruct (getCityInfo_cases _ _ _ _ _ Hd)
      as [(Hres2 & _ & ->) | [(_ & _ & [=] & _) | (Hun2 & _ & w0 & -> & Hout)]].
    + unfold resolved in Hres2. rewrite lookup_stored in Hres2. simpl.
      destruct (String.eqb (destination opt) (origin opt)).
      * rewrite orb_true_r. now rewrite <- app_assoc.
      * rewrite Hres2. simpl. now rewrite <- app_assoc.
    + destruct Hout as [(e & [=] & _) | (info' & _ & _ & ->)]. simpl.
      unfold resolved in Hun2. rewrite lookup_stored in Hun2.
      destruct (String.eqb (destination opt) (origin opt)); [congruence|].
      apply not_true_is_false in Hun2. rewrite Hun2. simpl.
      now rewrite <- !app_assoc.
Qed.

Lemma In_expand q leg :
  In q (expand leg)
  <-> In (origin q) (origins leg) /\ In (destination q) (destinations leg)
      /\ In (date q) (dates leg).
Proof.
  unfold expand. rewrite in_flat_map. split.
  - intros (o & Ho & H). apply in_flat_map in H as (d & Hd & H).
    apply in_map_iff in H as (t & <- & Ht). simpl. auto.
  - intros (Ho & Hd & Ht). exists (origin q). split; [assumption|].
    apply in_flat_map. exists (destination q). split; [assumption|].
    apply in_map_iff. exists (date q). split; [now destruct q | assumption].
Qed.

Lemma In_cities_of name qs :
  In name (cities_of qs) <-> exists q, In q qs /\ (name = origin q \/ name = destination q).
Proof.
  unfold cities_of. rewrite in_flat_map. split.
  - intros (q & Hq & [<-|[<-|[]]]); eauto.
  - intros (q & Hq & [->| ->]); exists q; simpl; auto.
Qed.

(** X6. The cost of a leg.  When the collection of a leg with o origins, d
    destinations and t dates returns, it has sent exactly o * d * t searches
    and, besides, one request for the suggestions of each origin and
    destination that was not resolved before and has a query: no request
    for suggestions twice, o + d of them at most.  Every city with a query
    is resolved afterwards. *)
Theorem getFlightResults_cost t type leg w results w' :
  trip_leg t type = Some leg ->
  getFlightResults Date_parse Date_toString t type w = (Ok results, w') ->
  exists new,
    requests w' = requests w ++ new
    /\ length (searches new)
       = (length (origins leg) * length (destinations leg) * length (dates leg))%nat
    /\ List.NoDup (lookups new)
    /\ (length (lookups new) <= length (origins leg) + length (destinations leg))%nat
    /\ (forall path, In path (lookups new) ->
          exists name, (In name (origins leg) \/ In name (destinations leg))
                       /\ path = lookup_request name /\ ~ resolved name w)
    /\ (forall q, In q (expand leg) ->
          resolved (origin q) w' /\ resolved (destination q) w').
Proof.
  intros Hleg. rewrite (getFlightResults_mapM _ _ _ _ _ _ Hleg), bind_run.
  destruct (mapM _ (expand leg) w) as [[rss|e] w1] eqn:E; [|discriminate].
  intros [= _ <-]. apply searched_mapM in E as (new & Ha & Hn & Hd & Hp & _ & Hc).
  exists new. split; [exact Ha|]. split; [now rewrite Hn, length_expand|].
  split; [exact Hd|].
  assert (forall path, In path (lookups new) ->
            exists name, (In name (origins leg) \/ In name (destinations leg))
                         /\ path = lookup_request name /\ ~ resolved name w) as Hfrom.
  { intros path Hin. destruct (Hp path Hin) as (name & Hname & -> & Hun & _).
    exists name. split; [|auto].
    apply In_cities_of in Hname as (q & Hq & Hor). apply In_expand in Hq as (Ho & Hde & _).
    destruct Hor as [->| ->]; auto. }
  split; [|split; [exact Hfrom|]].
  - apply Nat.le_trans
      with (length (List.map lookup_request (origins leg ++ destinations leg))).
    + apply List.NoDup_incl_length; [exact Hd|].
      intros path Hin. destruct (Hfrom path Hin) as (name & Hname & -> & _).
      apply in_map. apply in_or_app. exact Hname.
    + rewrite length_map, length_app. lia.
  - intros q Hq. split; apply Hc, In_cities_of; exists q; auto.
Qed.

(** X7. A leg with no origin, no destination or no date is collected
    without any request, not even for the suggestions of its cities. *)
Theorem getFlightResults_nothing_to_search t type leg w :
  trip_leg t type = Some leg ->
  origins leg = [] \/ destinations leg = [] \/ dates leg = [] ->
  getFlightResults Date_parse Date_toString t type w = (Ok [], w).
Proof.
  intros Hleg Hempty. rewrite (getFlightResults_mapM _ _ _ _ _ _ Hleg).
  assert (expand leg = []) as ->; [|reflexivity].
  apply length_zero_iff_nil. rewrite length_expand.
  destruct Hempty as [-> | [-> | ->]]; simpl; lia.
Qed.

(** *** What stays resolved *)

Lemma keeps_resolved_refl w : keeps_resolved w w.
Proof.
  exists []. unfold asked. rewrite app_nil_r. split; [reflexivity|].
  intros name _. split; [reflexivity | intros []].
Qed.

Lemma keeps_resolved_trans w1 w2 w3 :
  keeps_resolved w1 w2 -> keeps_resolved w2 w3 -> keeps_resolved w1 w3.
Proof.
  intros (n1 & Ha1 & H1) (n2 & Ha2 & H2). exists (n1 ++ n2). unfold asked in *. split.
  - rewrite Ha2, Ha1. now rewrite app_assoc.
  - intros name Hres. destruct (H1 name Hres) as [Hl1 Hn1].
    assert (resolved name w2) as Hres2 by (unfold resolved in *; now rewrite Hl1).
    destruct (H2 name Hres2) as [Hl2 Hn2]. split; [congruence|].
    intros Hin. apply in_app_or in Hin as [|]; contradiction.
Qed.

Lemma keeps_resolved_same w w' :
  requests w' = requests w -> cityInfo w' = cityInfo w -> keeps_resolved w w'.
Proof.
  intros Hr Hc. exists []. unfold asked. rewrite app_nil_r. split; [exact Hr|].
  intros name _. split; [|intros []]. unfold lookup_cityInfo. now rewrite Hc.
Qed.

Lemma keeping_getCityInfo name :
  respects always keeps_resolved (getCityInfo Date_toString name).
Proof.
  intros w r w' _ H. split; [|exact Logic.I].
  destruct (getCityInfo_cases _ _ _ _ _ H)
    as [(_ & _ & ->) | [(_ & _ & _ & ->) | (Hun & _ & w1 & -> & Hout)]];
    try apply keeps_resolved_refl.
  exists [lookup_request name].
  assert (forall other, resolved other w -> other <> name) as Hne by (intros other Hres ->; auto).
  destruct Hout as [(e & _ & ->) | (info & _ & _ & ->)]; (split; [reflexivity|]);
    intros other Hres; pose proof (Hne other Hres) as Hother; split.
  - reflexivity.
  - intros [Heq|[]]. apply lookup_request_inj in Heq. congruence.
  - rewrite lookup_stored. destruct (String.eqb_spec other name); congruence.
  - intros [Heq|[]]. apply lookup_request_inj in Heq. congruence.
Qed.

Lemma keeping_search path :
  is_lookup path = false -> respects always keeps_resolved (fetchSkyscanner path).
Proof.
  intros Hs w r w' _. unfold fetchSkyscanner.
  destruct (key_missing w); intros [= <- <-]; (split; [|exact Logic.I]).
  - apply keeps_resolved_refl.
  - exists [path]. split; [reflexivity|]. intros name _. split; [reflexivity|].
    intros [Heq|[]]. rewrite Heq in Hs. discriminate.
Qed.

Lemma respects_bind_lift {A B} (I : World -> Prop) (R : World -> World -> Prop)
    (c : completion A) (k : A -> M B) :
  (forall w, R w w) -> (forall a, c = Ok a -> respects I R (k a)) ->
  respects I R (bind (lift c) k).
Proof.
  intros Hrefl Hk w r w' Hinv. rewrite bind_run. unfold lift.
  destruct c as [a|e]; [now apply Hk | intros [= <- <-]; auto].
Qed.

Lemma keeping_getFlights opt :
  respects always keeps_resolved (getFlights Date_parse Date_toString opt).
Proof.
  unfold getFlights.
  apply respects_bind; [apply keeps_resolved_trans | apply keeping_getCityInfo | intros oi].
  apply respects_bind; [apply keeps_resolved_trans | apply keeping_getCityInfo | intros di].
  apply respects_bind_lift; [apply keeps_resolved_refl | intros path Hpath].
  apply search_path_not_lookup in Hpath.
  apply respects_bind; [apply keeps_resolved_trans | now apply keeping_search |].
  intros result. apply respects_lift. apply keeps_resolved_refl.
Qed.

Lemma keeping_getFlightResults t type :
  respects always keeps_resolved (getFlightResults Date_parse Date_toString t type).
Proof.
  intros w r w' Hinv. rewrite getFlightResults_queries. revert w r w' Hinv.
  change (respects always keeps_resolved
            (let* rss := mapM (getFlights Date_parse Date_toString)
                              (leg_queries (trip_leg t type)) in ret (concat rss))).
  apply respects_bind; [apply keeps_resolved_trans | |].
  - apply respects_mapM;
      [apply keeps_resolved_refl | apply keeps_resolved_trans | apply keeping_getFlights].
  - intros rss. apply respects_ret. apply keeps_resolved_refl.
Qed.

Lemma keeping_searchTrip t :
  respects always keeps_resolved (searchTrip Date_parse Date_toString t).
Proof.
  unfold searchTrip.
  apply respects_bind; [apply keeps_resolved_trans | apply keeping_getFlightResults | intros ?].
  apply respects_bind; [apply keeps_resolved_trans | apply keeping_getFlightResults | intros ?].
  apply respects_ret. apply keeps_resolved_refl.
Qed.

Lemma keeping_useFileCache name (fetchData : M jsval) :
  respects always keeps_resolved fetchData ->
  respects always keeps_resolved (useFileCache name fetchData).
Proof.
  intros Hf w r w' _. split; [|exact Logic.I]. revert H.
  destruct (useFileCache_outcome name fetchData w) as [[v ->] | ->].
  - intros [= <- <-]. apply keeps_resolved_refl.
  - unfold recompute. rewrite bind_run.
    destruct (fetchData w) as [[result|e] w1] eqn:Ef.
    + destruct (Hf _ _ _ Logic.I Ef) as [Hk _]. rewrite bind_run.
      unfold writeFile. destruct (JSON_stringify result) as [text|];
        [destruct (disk w1 (cache_path name) text) as [|code [partial|]]|];
        intros [= <- <-]; try exact Hk;
        (eapply keeps_resolved_trans; [exact Hk|]; now apply keeps_resolved_same).
    + intros [= <- <-]. eapply Hf; [exact Logic.I | eassumption].
Qed.

Lemma keeping_main t :
  respects always keeps_resolved (main Date_parse Date_toString t).
Proof.
  intros w r w' _. split; [|exact Logic.I]. revert H. unfold main. rewrite bind_run.
  destruct (cachedTrip Date_parse Date_toString t w) as [[result|e] w1] eqn:Ec.
  - destruct (keeping_useFileCache "results" _ (keeping_searchTrip t) _ _ _ Logic.I Ec)
      as [Hk _].
    unfold writeToSpreadSheet. destruct (spreadsheet w1 result); intros [= <- <-]; [|exact Hk].
    eapply keeps_resolved_trans; [exact Hk|]. now apply keeps_resolved_same.
  - intros [= <- <-].
    eapply (keeping_useFileCache "results" _ (keeping_searchTrip t)); [exact Logic.I | eassumption].
Qed.

Lemma keeping_after op w : keeps_resolved w (after Date_parse Date_toString op w).
Proof.
  destruct op as [name|opt|t type|t|t]; simpl.
  - exact (proj1 (keeping_getCityInfo name w _ _ Logic.I (surjective_pairing _))).
  - exact (proj1 (keeping_getFlights opt w _ _ Logic.I (surjective_pairing _))).
  - exact (proj1 (keeping_getFlightResults t type w _ _ Logic.I (surjective_pairing _))).
  - exact (proj1 (keeping_useFileCache "results" _ (keeping_searchTrip t) w _ _ Logic.I
                    (surjective_pairing _))).
  - exact (proj1 (keeping_main t w _ _ Logic.I (surjective_pairing _))).
Qed.

(** X8. Once a name is resolved, no operation of the pipeline -- a
    resolution, a query, the collection of a leg, the cached trip, the whole
    of [main] -- changes what it resolves to or asks the provider for its
    suggestions again, however the operations end. *)
Theorem resolved_never_asked_again ops w name :
  resolved name w ->
  lookup_cityInfo name (run Date_parse Date_toString ops w) = lookup_cityInfo name w
  /\ exists new,
       requests (run Date_parse Date_toString ops w) = requests w ++ new
       /\ ~ In (lookup_request name) new.
Proof.
  assert (keeps_resolved w (run Date_parse Date_toString ops w)) as (new & Ha & H).
  { revert w. induction ops as [|op ops IH]; intros w; simpl.
    - apply keeps_resolved_refl.
    - eapply keeps_resolved_trans; [apply keeping_after | apply IH]. }
  intros Hres. destruct (H name Hres) as [Hl Hn]. eauto.
Qed.

End Requests.

(** ** The results of a search *)

Lemma new_Date_is_date Date_parse Date_toString v d :
  new_Date Date_parse Date_toString v = Ok d -> exists t, d = VDate t.
Proof.
  destruct v; simpl; try (intros [= <-]; eauto).
  - destruct (map_r _ items); simpl; intros [= <-]; eauto.
  - destruct (assoc "toString" fields); simpl; intros [= <-]; eauto.
Qed.

Lemma wf_assoc k fields x :
  forallb (fun kv => wf (snd kv)) fields = true -> assoc k fields = Some x -> wf x = true.
Proof.
  induction fields as [|[k' v] rest IH]; simpl; [discriminate|].
  intros H. apply andb_true_iff in H as [Hv Hrest].
  destruct (String.eqb k k'); [now intros [= <-] | now apply IH].
Qed.

Lemma wf_inherited k : wf (inherited k) = true.
Proof. unfold inherited. now destruct (existsb _ _). Qed.

Lemma wf_get v k x : wf v = true -> get v k = Ok x -> wf x = true.
Proof.
  destruct v; simpl; try discriminate; intros Hwf; try (intros [= <-]; apply wf_inherited).
  apply andb_true_iff in Hwf as [_ Hwf].
  destruct (assoc k fields) eqn:E; intros [= <-]; [eapply wf_assoc; eauto | apply wf_inherited].
Qed.

Lemma wf_index0 v x : wf v = true -> index0 v = Ok x -> wf x = true.
Proof.
  destruct v as [| |b|n|s|t|nm|items|fields]; simpl; try discriminate; intros Hwf;
    try (now intros [= <-]).
  - destruct s; now intros [= <-].
  - intros [= <-]. destruct items as [|x items]; [reflexivity|].
    simpl in *. now apply andb_true_iff in Hwf as [Hx _].
  - intros [= <-]. apply andb_true_iff in Hwf as [_ Hwf].
    destruct (assoc "0" fields) eqn:E; simpl; [eapply wf_assoc; eauto | reflexivity].
Qed.

Lemma wf_opt_get v k : wf v = true -> wf (opt_get v k) = true.
Proof.
  intros H. unfold opt_get. destruct (nullish v); [reflexivity|].
  destruct (get v k) eqn:E; simpl; [eapply wf_get; eauto | reflexivity].
Qed.

Lemma wf_opt_index0 v : wf v = true -> wf (opt_index0 v) = true.
Proof.
  intros H. unfold opt_index0. destruct (nullish v); [reflexivity|].
  destruct (index0 v) eqn:E; simpl; [eapply wf_index0; eauto | reflexivity].
Qed.

Lemma wf_suggestion reply info :
  wf reply = true -> suggestion reply = Ok info -> wf info = true.
Proof.
  intros Hwf. unfold suggestion. destruct (get reply "inputSuggest") as [s|e] eqn:E; [|discriminate].
  simpl. intros [= <-]. apply wf_opt_get, wf_opt_get, wf_opt_index0. eapply wf_get; eauto.
Qed.

Lemma wf_lookup name w : wf_world w -> wf (lookup_cityInfo name w) = true.
Proof.
  intros [_ H]. unfold lookup_cityInfo. destruct (cityInfo w !! name) eqn:E.
  - exact (H _ _ E).
  - apply wf_inherited.
Qed.

Section Results.
Variable Date_parse : string -> option Z.
Variable Date_toString : option Z -> string.

(** The object built for one itinerary. *)
Lemma flightResult_Ok opt originInfo destinationInfo flight r :
  flightResult Date_parse Date_toString opt originInfo destinationInfo flight = Ok r ->
  exists legs data o d originId destinationId url price carriers marketing first
         departs arrives,
    get flight "legs" = Ok legs /\ index0 legs = Ok data
    /\ get data "origin" = Ok o /\ get data "destination" = Ok d
    /\ get originInfo "skyId" = Ok originId /\ get destinationInfo "skyId" = Ok destinationId
    /\ flightUrl Date_toString originId destinationId (date opt) = Ok url
    /\ get flight "price" = Ok price
    /\ get data "carriers" = Ok carriers /\ get carriers "marketing" = Ok marketing
    /\ index0 marketing = Ok first
    /\ r = VObj [("date", VStr (date opt));
                 ("origin", from_result (get o "name"));
                 ("destination", from_result (get d "name"));
                 ("departsAt", VDate departs);
                 ("arrivesAt", VDate arrives);
                 ("url", VStr url);
                 ("price", from_result (get price "raw"));
                 ("carrier", opt_get first "name")].
Proof.
  unfold flightResult, pushed.
  destruct (get flight "legs") as [legs|] eqn:E1; simpl; [|discriminate].
  destruct (index0 legs) as [data|] eqn:E2; simpl; [|discriminate].
  destruct (get data "origin") as [o|] eqn:E3; simpl; [|discriminate].
  destruct (get o "name") as [on|] eqn:E4; simpl; [|discriminate].
  destruct (get data "destination") as [d|] eqn:E5; simpl; [|discriminate].
  destruct (get d "name") as [dn|] eqn:E6; simpl; [|discriminate].
  destruct (get data "departure") as [dep|] eqn:E7; simpl; [|discriminate].
  destruct (new_Date _ _ dep) as [departsAt|] eqn:E8; simpl; [|discriminate].
  destruct (get data "arrival") as [arr|] eqn:E9; simpl; [|discriminate].
  destruct (new_Date _ _ arr) as [arrivesAt|] eqn:E10; simpl; [|discriminate].
  destruct (get originInfo "skyId") as [oid|] eqn:E11; simpl; [|discriminate].
  destruct (get destinationInfo "skyId") as [did|] eqn:E12; simpl; [|discriminate].
  destruct (flightUrl _ oid did (date opt)) as [url|] eqn:E13; simpl; [|discriminate].
  destruct (get flight "price") as [price|] eqn:E14; simpl; [|discriminate].
  destruct (get price "raw") as [raw|] eqn:E15; simpl; [|discriminate].
  destruct (get data "carriers") as [carriers|] eqn:E16; simpl; [|discriminate].
  destruct (get carriers "marketing") as [marketing|] eqn:E17; simpl; [|discriminate].
  destruct (index0 marketing) as [first|] eqn:E18; simpl; [|discriminate].
  intros [= <-].
  apply new_Date_is_date in E8 as [t1 ->]. apply new_Date_is_date in E10 as [t2 ->].
  exists legs, data, o, d, oid, did, url, price, carriers, marketing, first, t1, t2.
  rewrite E4, E6, E15. simpl. repeat split; assumption.
Qed.

(** The descriptors that a query works with are those of the mapping when
    it returns, and the reply it works with is the provider's to the last
    request. *)
Lemma getFlights_descriptors opt w results w' :
  getFlights Date_parse Date_toString opt w = (Ok results, w') ->
  exists history path reply,
    requests w' = history ++ [path]
    /\ search_path Date_toString opt
         (lookup_cityInfo (origin opt) w') (lookup_cityInfo (destination opt) w')
       = Ok path
    /\ provider w history path = Ok reply
    /\ nonstopFlights Date_parse Date_toString opt
         (lookup_cityInfo (origin opt) w') (lookup_cityInfo (destination opt) w') reply
       = Ok results.
Proof.
  intros H. apply getFlights_Ok in H
    as (oi & w1 & di & w2 & path & result & Ho & Hd & Hpath & Hfetch & Hres).
  exists (requests w2), path, result.
  apply fetchSkyscanner_Ok in Hfetch as (_ & Hreply & ->).
  assert (lookup_cityInfo (origin opt) w1 = oi /\ resolved (origin opt) w1) as [Hoi Hores].
  { destruct (getCityInfo_cases _ _ _ _ _ Ho)
      as [(Hr & Heq & Hw) | [(_ & _ & [=] & _) | (_ & _ & w0 & -> & Hout)]].
    - injection Heq as Heq. subst. auto.
    - destruct Hout as [(e & [=] & _) | (info & Heq & Hinfo & Hw)].
      injection Heq as Heq. subst. unfold resolved.
      now rewrite lookup_stored, String.eqb_refl. }
  assert (lookup_cityInfo (destination opt) w2 = di) as Hdi.
  { destruct (getCityInfo_cases _ _ _ _ _ Hd)
      as [(Hr & Heq & Hw) | [(_ & _ & [=] & _) | (_ & _ & w0 & -> & Hout)]].
    - injection Heq as Heq. subst. auto.
    - destruct Hout as [(e & [=] & _) | (info & Heq & Hinfo & Hw)].
      injection Heq as Heq. subst.
      now rewrite lookup_stored, String.eqb_refl. }
  destruct (keeping_getCityInfo Date_toString (destination opt) w1 _ _ Logic.I Hd)
    as [(new & _ & Hkeep) _].
  destruct (Hkeep _ Hores) as [Hsame _].
  destruct (framing_getCityInfo Date_toString _ _ _ _ Logic.I Ho) as [[_ _ Hp1 _ _ _] _].
  destruct (framing_getCityInfo Date_toString _ _ _ _ Logic.I Hd) as [[_ _ Hp2 _ _ _] _].
  change (lookup_cityInfo (origin opt) (with_requests (requests w2 ++ [path]) w2))
    with (lookup_cityInfo (origin opt) w2).
  change (lookup_cityInfo (destination opt) (with_requests (requests w2 ++ [path]) w2))
    with (lookup_cityInfo (destination opt) w2).
  rewrite Hsame, Hoi, Hdi. repeat split; try assumption.
  now rewrite <- Hp1, <- Hp2.
Qed.

(** C7. When [getFlights] returns, its list is built, in order, from
    exactly the items of the first bucket of the reply it fetched -- the
    provider's reply to its last request, the search with the descriptors
    of the two cities -- whose first leg has a stop count of 0, or is empty
    when that reply has no first bucket: an item whose first leg has another
    stop count is left out, and testing it raises no exception. *)
Theorem getFlights_nonstop_only opt w results w' :
  getFlights Date_parse Date_toString opt w = (Ok results, w') ->
  exists history path reply bucket,
    requests w' = history ++ [path]
    /\ search_path Date_toString opt
         (lookup_cityInfo (origin opt) w') (lookup_cityInfo (destination opt) w')
       = Ok path
    /\ provider w history path = Ok reply
    /\ first_bucket reply = Ok bucket
    /\ if truthy bucket then
         exists items,
           get bucket "items" = Ok (VArr items)
           /\ map_r (flightResult Date_parse Date_toString opt
                       (lookup_cityInfo (origin opt) w')
                       (lookup_cityInfo (destination opt) w'))
                    (List.filter is_nonstop items) = Ok results
           /\ (forall item, In item (List.filter is_nonstop items) ->
                  exists n, first_stopCount item = Ok (VNum n) /\ is_zero n = true)
           /\ (forall item stops,
                  In item items -> first_stopCount item = Ok stops ->
                  (forall n, stops = VNum n -> is_zero n = false) ->
                  nonstop item = Ok false /\ ~ In item (List.filter is_nonstop items))
       else results = [].
Proof.
  intros H.
  apply getFlights_descriptors in H as (history & path & reply & Hreq & Hpath & Hreply & H).
  exists history, path, reply. unfold nonstopFlights in H.
  destruct (first_bucket reply) as [bucket|e]; simpl in H; [|discriminate].
  exists bucket. do 4 (split; [assumption || reflexivity|]).
  destruct (truthy bucket); simpl in H; [|now injection H].
  unfold items_filter in H. destruct (get bucket "items") as [items|e]; simpl in H; [|discriminate].
  destruct items as [| | | | | | |items|]; try discriminate.
  destruct (filter_r nonstop items) as [kept|e] eqn:Ef; simpl in H; [|discriminate].
  apply filter_r_Ok in Ef as [Hnoexn ->]. fold is_nonstop in H.
  exists items. split; [reflexivity|]. split; [exact H|]. split.
  - intros item Hin. apply List.filter_In in Hin as [_ Hin].
    unfold is_nonstop in Hin. apply nonstop_true.
    destruct (nonstop item) as [[]|]; congruence.
  - intros item stops Hin Hstops Hne.
    pose proof (nonstop_false item stops Hstops Hne) as Hfalse. split; [assumption|].
    intros Hkept. apply List.filter_In in Hkept as [_ Hkept].
    unfold is_nonstop in Hkept. rewrite Hfalse in Hkept. discriminate.
Qed.

(** X9. Every result of a query is an object with the fields [date],
    [origin], [destination], [departsAt], [arrivesAt], [url], [price] and
    [carrier], in this order.  Its date is the date of the query, whatever
    the day of the departure; its times are Date objects; and its url is the
    same for all the results of the query, built from the [skyId] of the
    two descriptors and the date of the query. *)
Theorem getFlights_results_shape opt w results w' :
  getFlights Date_parse Date_toString opt w = (Ok results, w') ->
  results = []
  \/ exists originId destinationId url,
       get (lookup_cityInfo (origin opt) w') "skyId" = Ok originId
       /\ get (lookup_cityInfo (destination opt) w') "skyId" = Ok destinationId
       /\ flightUrl Date_toString originId destinationId (date opt) = Ok url
       /\ Forall (fun r =>
                    exists origin_name destination_name departs arrives price carrier,
                      r = VObj [("date", VStr (date opt));
                                ("origin", origin_name);
                                ("destination", destination_name);
                                ("departsAt", VDate departs);
                                ("arrivesAt", VDate arrives);
                                ("url", VStr url);
                                ("price", price);
                                ("carrier", carrier)]) results.
Proof.
  intros H. apply getFlights_descriptors in H as (_ & _ & result & _ & _ & _ & H).
  set (oi := lookup_cityInfo (origin opt) w') in *.
  set (di := lookup_cityInfo (destination opt) w') in *.
  unfold nonstopFlights in H.
  destruct (first_bucket result) as [bucket|]; simpl in H; [|discriminate].
  destruct (truthy bucket); simpl in H; [|left; congruence].
  destruct (items_filter bucket nonstop) as [kept|]; simpl in H; [|discriminate].
  destruct results as [|r0 results]; [now left | right].
  assert (exists flight, flightResult Date_parse Date_toString opt oi di flight = Ok r0)
    as (flight & Hfirst).
  { destruct kept as [|flight kept]; simpl in H; [discriminate|].
    destruct (flightResult _ _ opt oi di flight) as [r|] eqn:E; simpl in H; [|discriminate].
    destruct (map_r _ kept); simpl in H; [|discriminate]. injection H as -> _. eauto. }
  apply flightResult_Ok in Hfirst
    as (_ & _ & _ & _ & oid & did & url & _ & _ & _ & _ & _ & _
        & _ & _ & _ & _ & Ho & Hd & Hurl & _).
  exists oid, did, url. repeat split; try assumption.
  eapply map_r_Forall; [exact H|]. intros item r _ Hr.
  apply flightResult_Ok in Hr
    as (? & ? & o & d & oid' & did' & url' & price & ? & ? & first & t1 & t2
        & _ & _ & _ & _ & Ho' & Hd' & Hurl' & _ & _ & _ & _ & ->).
  assert (url' = url) as -> by congruence. eauto 10.
Qed.

Lemma wf_from_get v k : wf v = true -> wf (from_result (get v k)) = true.
Proof.
  intros H. destruct (get v k) eqn:E; simpl; [eapply wf_get; eauto | reflexivity].
Qed.

Lemma wf_flightResult opt originInfo destinationInfo flight r :
  wf flight = true ->
  flightResult Date_parse Date_toString opt originInfo destinationInfo flight = Ok r ->
  wf r = true.
Proof.
  intros Hwf H. apply flightResult_Ok in H
    as (legs & data & o & d & oid & did & url & price & carriers & marketing & first & t1 & t2
        & Hlegs & Hdata & Ho & Hd & _ & _ & _ & Hprice & Hcarriers & Hmarketing & Hfirst & ->).
  pose proof (wf_index0 _ _ (wf_get _ _ _ Hwf Hlegs) Hdata) as Hwd.
  pose proof (wf_index0 _ _ (wf_get _ _ _ (wf_get _ _ _ Hwd Hcarriers) Hmarketing) Hfirst)
    as Hwfirst.
  cbn [wf List.map fst snd forallb].
  rewrite (wf_from_get o "name") by exact (wf_get _ _ _ Hwd Ho).
  rewrite (wf_from_get d "name") by exact (wf_get _ _ _ Hwd Hd).
  rewrite (wf_from_get price "raw") by exact (wf_get _ _ _ Hwf Hprice).
  rewrite (wf_opt_get first "name") by assumption.
  reflexivity.
Qed.

Lemma forallb_map_r {A} (f : A -> completion jsval) (P : A -> bool) xs ys :
  forallb P xs = true -> (forall x y, P x = true -> f x = Ok y -> wf y = true) ->
  map_r f xs = Ok ys -> forallb wf ys = true.
Proof.
  intros HP Hf. revert ys HP. induction xs as [|x xs IH]; intros ys HP; simpl.
  - now intros [= <-].
  - simpl in HP. apply andb_true_iff in HP as [Hx Hxs].
    destruct (f x) as [y|e] eqn:Ey; simpl; [|discriminate].
    destruct (map_r f xs) as [ys'|e]; simpl; [|discriminate].
    intros [= <-]. simpl. rewrite (Hf x y Hx Ey). now apply IH.
Qed.

Lemma forallb_filter {A} (P q : A -> bool) xs :
  forallb P xs = true -> forallb P (List.filter q xs) = true.
Proof.
  induction xs as [|x xs IH]; simpl; [reflexivity|]. intros H.
  apply andb_true_iff in H as [Hx Hxs]. destruct (q x); simpl; [rewrite Hx|]; auto.
Qed.

Lemma wf_nonstopFlights opt originInfo destinationInfo reply results :
  wf reply = true ->
  nonstopFlights Date_parse Date_toString opt originInfo destinationInfo reply = Ok results ->
  forallb wf results = true.
Proof.
  intros Hwf. unfold nonstopFlights, first_bucket.
  destruct (get reply "data") as [data|] eqn:Ed; simpl; [|discriminate].
  set (bucket := opt_index0 _).
  assert (wf bucket = true) as Hb
    by (apply wf_opt_index0, wf_opt_get, wf_opt_get; eapply wf_get; eauto).
  destruct (truthy bucket); simpl; [|now intros [= <-]].
  unfold items_filter. destruct (get bucket "items") as [items|] eqn:Ei; simpl; [|discriminate].
  destruct items as [| | | | | | |l|]; simpl; try discriminate.
  destruct (filter_r nonstop l) as [kept|] eqn:Ek; simpl; [|discriminate].
  apply filter_r_Ok in Ek as [_ ->].
  apply (forallb_map_r _ wf).
  - apply forallb_filter. exact (wf_get _ _ _ Hb Ei).
  - intros flight r. apply wf_flightResult.
Qed.

Lemma wf_getCityInfo name w r w' :
  wf_world w -> getCityInfo Date_toString name w = (r, w') ->
  wf_world w' /\ forall info, r = Ok info -> wf info = true.
Proof.
  intros Hw. unfold getCityInfo. destruct (truthy (lookup_cityInfo name w)).
  { intros [= <- <-]. split; [assumption|]. intros info [= <-]. now apply wf_lookup. }
  rewrite bind_run. unfold lift at 1.
  destruct (lookup_path Date_toString name) as [path|e].
  2:{ intros [= <- <-]. split; [assumption | discriminate]. }
  rewrite bind_run. unfold fetchSkyscanner. destruct (key_missing w).
  { intros [= <- <-]. split; [assumption | discriminate]. }
  destruct (provider w (requests w) path) as [reply|e] eqn:Er.
  2:{ intros [= <- <-]. split; [exact Hw | discriminate]. }
  rewrite bind_run. unfold lift at 1.
  destruct (suggestion reply) as [info|e] eqn:Es.
  2:{ intros [= <- <-]. split; [exact Hw | discriminate]. }
  assert (wf info = true) as Hinfo
    by (eapply wf_suggestion; [eapply (proj1 Hw); exact Er | exact Es]).
  destruct (truthy info); cbn [negb].
  - rewrite bind_run. unfold store_cityInfo, ret. intros [= <- <-]. split.
    + destruct Hw as [Hp Hc]. split; [exact Hp|]. simpl.
      apply map_Forall_insert_2; assumption.
    + now intros ? [= <-].
  - unfold throw. intros [= <- <-]. split; [exact Hw | discriminate].
Qed.

Lemma wf_getFlights opt w results w' :
  wf_world w -> getFlights Date_parse Date_toString opt w = (Ok results, w') ->
  wf_world w' /\ forallb wf results = true.
Proof.
  intros Hw H. apply getFlights_Ok in H
    as (oi & w1 & di & w2 & path & result & Ho & Hd & Hpath & Hfetch & Hres).
  destruct (wf_getCityInfo _ _ _ _ Hw Ho) as [Hw1 _].
  destruct (wf_getCityInfo _ _ _ _ Hw1 Hd) as [Hw2 _].
  apply fetchSkyscanner_Ok in Hfetch as (_ & Hreply & ->). split.
  - exact Hw2.
  - eapply wf_nonstopFlights; [|exact Hres]. eapply (proj1 Hw2). exact Hreply.
Qed.

Lemma forallb_concat (rss : list (list jsval)) :
  forallb (forallb wf) rss = true -> forallb wf (concat rss) = true.
Proof.
  induction rss as [|rs rss IH]; simpl; [reflexivity|]. intros H.
  apply andb_true_iff in H as [H1 H2]. rewrite forallb_app, H1. now apply IH.
Qed.

Lemma wf_getFlightResults t type w results w' :
  wf_world w -> getFlightResults Date_parse Date_toString t type w = (Ok results, w') ->
  wf_world w' /\ forallb wf results = true.
Proof.
  intros Hw. rewrite getFlightResults_queries, bind_run.
  destruct (mapM _ _ w) as [[rss|e] w1] eqn:E; [|discriminate].
  intros [= <- <-].
  assert (wf_world w1 /\ forallb (forallb wf) rss = true) as [Hw1 Hrss].
  { revert w rss w1 Hw E. induction (leg_queries (trip_leg t type)) as [|q qs IH];
      intros w rss w1 Hw; simpl.
    - intros [= <- <-]. auto.
    - rewrite bind_run.
      destruct (getFlights _ _ q w) as [[rs|e] w2] eqn:Eq; [|discriminate].
      rewrite bind_run.
      destruct (mapM _ qs w2) as [[rss'|e] w3] eqn:Eqs; [|discriminate].
      intros [= <- <-]. destruct (wf_getFlights _ _ _ _ Hw Eq) as [Hw2 Hrs].
      destruct (IH _ _ _ Hw2 Eqs) as [Hw3 Hrss']. simpl. rewrite Hrs. auto. }
  split; [assumption | now apply forallb_concat].
Qed.

Lemma wf_searchTrip t w result w' :
  wf_world w -> searchTrip Date_parse Date_toString t w = (Ok result, w') ->
  wf result = true /\ exists text, JSON_stringify result = Some text.
Proof.
  intros Hw. unfold searchTrip. rewrite bind_run.
  destruct (getFlightResults _ _ t Depart w) as [[d|e] w1] eqn:E1; [|discriminate].
  rewrite bind_run.
  destruct (getFlightResults _ _ t Return w1) as [[r|e] w2] eqn:E2; [|discriminate].
  intros [= <- <-].
  destruct (wf_getFlightResults _ _ _ _ _ Hw E1) as [Hw1 Hd].
  destruct (wf_getFlightResults _ _ _ _ _ Hw1 E2) as [_ Hr].
  split; [|eexists; reflexivity].
  cbn [wf List.map fst snd forallb]. now rewrite Hd, Hr.
Qed.

(** X10. The cache file does not depend on the trip.  Let the provider
    reply with JSON values and let a run find no usable cache file, search a
    trip and return its result.  Then the file that it leaves is a hit for
    every later run, whatever trip that run is for: the later run returns
    the JSON image of the first result, sends no request and writes
    nothing. *)
Theorem cached_trip_is_kept t w result w1 :
  wf_world w ->
  cache_miss "results" w ->
  cachedTrip Date_parse Date_toString t w = (Ok result, w1) ->
  exists j,
    JSON_image result = Some j
    /\ forall other, cachedTrip Date_parse Date_toString other w1 = (Ok j, w1).
Proof.
  intros Hw Hmiss. unfold cachedTrip. rewrite useFileCache_miss by assumption.
  unfold recompute. rewrite bind_run.
  destruct (searchTrip _ _ t w) as [[r|e] w0] eqn:Es; [|discriminate].
  destruct (wf_searchTrip _ _ _ _ Hw Es) as [Hwf [text Htext]].
  rewrite bind_run. unfold writeFile. rewrite Htext.
  destruct (disk w0 (cache_path "results") text) as [|code [partial|]];
    [|discriminate..]. intros [= <- <-].
  pose proof (JSON_parse_stringify r text Hwf Htext) as Hparse.
  destruct (JSON_image r) as [j|] eqn:Ej.
  2:{ apply (serialize_image_none 0) in Ej. unfold JSON_stringify in Htext. congruence. }
  exists j. split; [reflexivity|]. intros other.
  eapply useFileCache_hit; [simpl; apply lookup_insert_eq | | exact Hparse].
  apply trim_value. eapply serialize_head. exact Htext.
Qed.

End Results.

(** ** The cache file *)



Lemma JSON_stringify_none v :
  JSON_stringify v = None
  <-> v = VUndefined \/ exists name, name <> "__proto__" /\ v = VNative name.
Proof.
  unfold JSON_stringify. split.
  - destruct v as [| |b|n|s|[t|]|nm|items|fields]; simpl; try discriminate; [now left|].
    destruct (String.eqb_spec nm "__proto__"); [discriminate|]. eauto.
  - intros [-> | (nm & Hne & ->)]; simpl; [reflexivity|].
    now destruct (String.eqb_spec nm "__proto__").
Qed.

(** X11. A function whose result has no JSON text -- undefined, or a
    function, as the built-ins of [Object.prototype] are but for
    [__proto__], which is the prototype object and has the text of an empty
    object -- cannot be cached: on a miss its result is computed and then
    lost, [useFileCache] raises a TypeError when it writes, and no file is
    written. *)
Theorem useFileCache_unserializable name fetchData w result w1 :
  cache_miss name w ->
  fetchData w = (Ok result, w1) ->
  result = VUndefined
  \/ (exists native, native <> "__proto__" /\ result = VNative native) ->
  useFileCache name fetchData w = (Err TypeError, w1).
Proof.
  intros Hmiss Hrun Hnone. apply JSON_stringify_none in Hnone.
  rewrite useFileCache_miss by assumption.
  now rewrite recompute_run, Hrun, Hnone.
Qed.


Section Rendering.
Variable Date_parse : string -> option Z.
Variable Date_toString : option Z -> string.

(** X13. The search is cached before it is rendered: when the spreadsheet
    refuses the result of a run that searched, the run ends with the
    spreadsheet's error, but the cache file holds the result, and nothing
    was rendered. *)
Theorem render_failure_keeps_cache t w result w1 e :
  cache_miss "results" w ->
  cachedTrip Date_parse Date_toString t w = (Ok result, w1) ->
  spreadsheet w1 result = Err e ->
  main Date_parse Date_toString t w = (Err e, w1)
  /\ rendered w1 = rendered w
  /\ exists text, JSON_stringify result = Some text
                  /\ files w1 !! cache_path "results" = Some text.
Proof.
  intros Hmiss Hc Hs. split; [|split].
  - unfold main. rewrite bind_run, Hc. unfold writeToSpreadSheet. now rewrite Hs.
  - revert Hc. unfold cachedTrip. rewrite useFileCache_miss by assumption.
    unfold recompute. rewrite bind_run.
    destruct (searchTrip _ _ t w) as [[r|e'] w0] eqn:Es'; [|discriminate].
    destruct (framing_searchTrip _ _ t _ _ _ Logic.I Es') as [[_ _ _ _ Hr _] _].
    rewrite bind_run. unfold writeFile.
    destruct (JSON_stringify r) as [text|]; [|discriminate].
    destruct (disk w0 (cache_path "results") text) as [|code [partial|]];
      [|discriminate..]. intros [= <- <-]. exact Hr.
  - revert Hc. unfold cachedTrip. rewrite useFileCache_miss by assumption.
    unfold recompute. rewrite bind_run.
    destruct (searchTrip _ _ t w) as [[r|e'] w0]; [|discriminate].
    rewrite bind_run. unfold writeFile.
    destruct (JSON_stringify r) as [text|] eqn:Et; [|discriminate].
    destruct (disk w0 (cache_path "results") text) as [|code [partial|]];
      [|discriminate..]. intros [= <- <-].
    exists text. split; [assumption|]. simpl. apply lookup_insert_eq.
Qed.

End Rendering.

(** ** The link of a flight *)

Lemma replaceAll_app c r a b : replaceAll c r (a +:+ b) = replaceAll c r a +:+ replaceAll c r b.
Proof.
  induction a as [|x a IH]; simpl; [reflexivity|]. now rewrite IH, sapp_assoc.
Qed.

Lemma replaceAll_absent c s : occurrences c s = 0%nat -> replaceAll c "" s = s.
Proof.
  induction s as [|x s IH]; simpl; [reflexivity|].
  destruct (Ascii.eqb x c); [discriminate|]. intros H. simpl. now rewrite IH.
Qed.

Lemma occurrences_replaceAll c s : occurrences c (replaceAll c "" s) = 0%nat.
Proof.
  induction s as [|x s IH]; simpl; [reflexivity|].
  destruct (Ascii.eqb x c) eqn:E; simpl; [exact IH|]. now rewrite E.
Qed.

(** X14. The link of a flight carries the date without any of its hyphens,
    2025-09-11 as 20250911, between the two identifiers, which are written
    as they are. *)
Theorem flightUrl_compact_date Date_toString originId destinationId date :
  exists compact,
    flightUrl Date_toString (VStr originId) (VStr destinationId) date
    = Ok ("https://www.skyscanner.hu/transport/flights/" +:+ originId +:+ "/"
            +:+ destinationId +:+ "/" +:+ compact
            +:+ "/?adultsv2=1&cabinclass=economy&childrenv2=&ref=home&rtn=0&preferdirects=true&outboundaltsenabled=false&inboundaltsenabled=false")
    /\ occurrences "-" compact = 0%nat
    /\ forall year month day,
         date = year +:+ "-" +:+ month +:+ "-" +:+ day ->
         occurrences "-" year = 0%nat -> occurrences "-" month = 0%nat ->
         occurrences "-" day = 0%nat ->
         compact = year +:+ month +:+ day.
Proof.
  exists (replaceAll "-" "" date). split; [reflexivity|]. split.
  - apply occurrences_replaceAll.
  - intros year month day -> Hy Hm Hd.
    rewrite !replaceAll_app, (replaceAll_absent _ year), (replaceAll_absent _ month),
      (replaceAll_absent _ day) by assumption.
    reflexivity.
Qed.

(** ** The rows of the sheet *)

Lemma map_r_lookup {A B} (f : A -> completion B) xs ys i x :
  map_r f xs = Ok ys -> xs !! i = Some x -> exists y, ys !! i = Some y /\ f x = Ok y.
Proof.
  revert ys i. induction xs as [|a xs IH]; intros ys i; simpl; [discriminate|].
  destruct (f a) as [b|e] eqn:Ea; simpl; [|discriminate].
  destruct (map_r f xs) as [bs|e]; simpl; [|discriminate].
  intros [= <-]. destruct i as [|i]; simpl.
  - intros [= <-]. eauto.
  - now apply IH.
Qed.

Lemma map_r_app {A B} (f : A -> completion B) xs1 xs2 ys :
  map_r f (xs1 ++ xs2) = Ok ys ->
  exists ys1 ys2, map_r f xs1 = Ok ys1 /\ map_r f xs2 = Ok ys2 /\ ys = ys1 ++ ys2.
Proof.
  revert ys. induction xs1 as [|a xs1 IH]; intros ys; simpl.
  - intros H. exists [], ys. auto.
  - destruct (f a) as [b|e]; simpl; [|discriminate].
    destruct (map_r f (xs1 ++ xs2)) as [bs|e] eqn:E; simpl; [|discriminate].
    intros [= <-]. destruct (IH bs eq_refl) as (ys1 & ys2 & -> & H2 & ->).
    exists (b :: ys1), ys2. auto.
Qed.

Section Rows.
Variable Date_parse : string -> option Z.
Variable Date_toString : option Z -> string.
Variable LocalTZA : Z -> Z.
Variable Date_toLocaleTimeString : option Z -> string.

Lemma row_cells flight r :
  row Date_parse Date_toString LocalTZA Date_toLocaleTimeString flight = Ok r ->
  if truthy flight then
    exists link departs arrives,
      r = VArr [from_result (get flight "origin"); from_result (get flight "destination");
                VStr link; VStr departs; VStr arrives;
                from_result (get flight "price"); from_result (get flight "carrier")]
  else r = VArr [].
Proof.
  unfold row. destruct (truthy flight); [|now intros [= <-]].
  destruct (get flight "origin") as [o|]; simpl; [|discriminate].
  destruct (get flight "destination") as [d|]; simpl; [|discriminate].
  destruct (get flight "url") as [url|]; simpl; [|discriminate].
  destruct (get flight "date") as [dt|]; simpl; [|discriminate].
  destruct (hyperlink _ _ _ url dt) as [link|]; simpl; [|discriminate].
  destruct (get flight "departsAt") as [t1|]; simpl; [|discriminate].
  destruct (formatTime _ _ _ t1) as [departs|]; simpl; [|discriminate].
  destruct (get flight "arrivesAt") as [t2|]; simpl; [|discriminate].
  destruct (formatTime _ _ _ t2) as [arrives|]; simpl; [|discriminate].
  destruct (get flight "price") as [price|]; simpl; [|discriminate].
  destruct (get flight "carrier") as [carrier|]; simpl; [|discriminate].
  intros [= <-]. eauto.
Qed.

(** X15. The layout of the sheet.  When the rows are computed, the sheet
    has the row of the seven headers, then one row for each departing
    flight, in their order, then an empty row, then one row for each
    returning flight, in their order.  The row of a flight has seven cells:
    its origin, its destination, a formula, two times, its price and its
    carrier; an element that is null, undefined, 0, false or the empty
    string has an empty row. *)
Theorem data_layout departing returning sheet :
  data Date_parse Date_toString LocalTZA Date_toLocaleTimeString departing returning
  = Ok sheet ->
  exists rows,
    sheet = VArr (headers) :: rows
    /\ length headers = 7%nat
    /\ length rows = (length departing + 1 + length returning)%nat
    /\ rows !! length departing = Some (VArr [])
    /\ forall i flight,
         (departing ++ VNull :: returning) !! i = Some flight ->
         exists cells,
           rows !! i = Some (VArr cells)
           /\ if truthy flight then
                length cells = 7%nat
                /\ cells !! 0%nat = Some (from_result (get flight "origin"))
                /\ cells !! 1%nat = Some (from_result (get flight "destination"))
                /\ cells !! 5%nat = Some (from_result (get flight "price"))
                /\ cells !! 6%nat = Some (from_result (get flight "carrier"))
              else cells = [].
Proof.
  unfold data, values. destruct (map_r _ _) as [rows|] eqn:E; simpl; [|discriminate].
  intros [= <-]. exists rows. split; [reflexivity|]. split; [reflexivity|].
  assert (forall i flight,
            (departing ++ VNull :: returning) !! i = Some flight ->
            exists cells,
              rows !! i = Some (VArr cells)
              /\ if truthy flight then
                   length cells = 7%nat
                   /\ cells !! 0%nat = Some (from_result (get flight "origin"))
                   /\ cells !! 1%nat = Some (from_result (get flight "destination"))
                   /\ cells !! 5%nat = Some (from_result (get flight "price"))
                   /\ cells !! 6%nat = Some (from_result (get flight "carrier"))
                 else cells = []) as Hrows.
  { intros i flight Hi. destruct (map_r_lookup _ _ _ _ _ E Hi) as (r & Hr & Hrow).
    apply row_cells in Hrow. destruct (truthy flight).
    - destruct Hrow as (link & t1 & t2 & ->). eexists. split; [exact Hr|]. repeat split.
    - subst r. eauto. }
  split; [|split; [|exact Hrows]].
  - rewrite (map_r_length _ _ _ E), length_app. simpl. lia.
  - destruct (Hrows (length departing) VNull) as (cells & Hc & ->); [|exact Hc].
    rewrite lookup_app_r by lia. now rewrite Nat.sub_diag.
Qed.

End Rows.

(** ** The calendar *)

Lemma toISOString_civil t :
  toISOString t
  = let '(y, m, d) := civil_from_days (Day t) in
    let ms := (t mod 86400000)%Z in
    (if ((0 <=? y) && (y <=? 9999))%Z then pad 4 y
     else (if (y <? 0)%Z then "-" else "+") +:+ pad 6 (Z.abs y))
    +:+ "-" +:+ pad 2 m +:+ "-" +:+ pad 2 d +:+ "T"
    +:+ pad 2 (ms / 3600000) +:+ ":" +:+ pad 2 ((ms / 60000) mod 60) +:+ ":"
    +:+ pad 2 ((ms / 1000) mod 60) +:+ "." +:+ pad 3 (ms mod 1000) +:+ "Z".
Proof. reflexivity. Qed.

Lemma calendar_date_period y m d k :
  calendar_date (y + k * 400) m d = calendar_date y m d.
Proof.
  unfold calendar_date, days_in_month, leap.
  replace ((y + k * 400) mod 4)%Z with (y mod 4)%Z
    by (replace (k * 400)%Z with ((k * 100) * 4)%Z by lia; now rewrite Z_mod_plus_full).
  replace ((y + k * 400) mod 100)%Z with (y mod 100)%Z
    by (replace (k * 400)%Z with ((k * 4) * 100)%Z by lia; now rewrite Z_mod_plus_full).
  now rewrite Z_mod_plus_full.
Qed.

Lemma days_from_civil_period y m d k :
  days_from_civil (y + k * 400) m d = (days_from_civil y m d + k * 146097)%Z.
Proof.
  unfold days_from_civil.
  replace (if (m <=? 2)%Z then (y + k * 400 - 1)%Z else (y + k * 400)%Z)
    with ((if (m <=? 2)%Z then (y - 1)%Z else y) + k * 400)%Z
    by (destruct (m <=? 2)%Z; lia).
  set (y' := if (m <=? 2)%Z then (y - 1)%Z else y).
  rewrite Z.div_add by lia. cbv zeta.
  replace (y' + k * 400 - (y' / 400 + k) * 400)%Z with (y' - y' / 400 * 400)%Z by lia.
  lia.
Qed.

Lemma civil_from_days_period days k :
  civil_from_days (days + k * 146097)
  = let '(y, m, d) := civil_from_days days in ((y + k * 400)%Z, m, d).
Proof.
  unfold civil_from_days.
  replace (days + k * 146097 + 719468)%Z with (days + 719468 + k * 146097)%Z by lia.
  rewrite Z.div_add by lia.
  replace (days + 719468 + k * 146097 - ((days + 719468) / 146097 + k) * 146097)%Z
    with (days + 719468 - (days + 719468) / 146097 * 146097)%Z by lia.
  cbv zeta. f_equal. f_equal. lia.
Qed.

(** The dates of the four hundred years from the year 0 on, one by one. *)
Lemma civil_roundtrip_period :
  forallb (fun y =>
    forallb (fun m =>
      forallb (fun d =>
        negb (calendar_date y m d)
        || (let '(y', m', d') := civil_from_days (days_from_civil y m d) in
            (y' =? y) && (m' =? m) && (d' =? d))%Z)
        (List.map Z.of_nat (seq 1 31)))
      (List.map Z.of_nat (seq 1 12)))
    (List.map Z.of_nat (seq 0 400))
  = true.
Proof. vm_compute. reflexivity. Qed.

Lemma In_Z_range lo n z :
  (Z.of_nat lo <= z < Z.of_nat lo + Z.of_nat n)%Z -> In z (List.map Z.of_nat (seq lo n)).
Proof.
  intros H. apply in_map_iff. exists (Z.to_nat z). split; [lia|].
  apply in_seq. lia.
Qed.

Lemma days_in_month_le y m : (days_in_month y m <= 31)%Z.
Proof.
  unfold days_in_month. destruct (m =? 2)%Z; [destruct (leap y); lia|].
  destruct (_ || _); lia.
Qed.

(** The day number of a date is the day number of no other date. *)
Lemma civil_from_days_from_civil y m d :
  calendar_date y m d = true -> civil_from_days (days_from_civil y m d) = (y, m, d).
Proof.
  intros Hdate.
  set (k := (y / 400)%Z). set (r := (y mod 400)%Z).
  assert (y = r + k * 400)%Z as Hy by (subst k r; pose proof (Z.div_mod y 400); lia).
  assert (0 <= r < 400)%Z as Hr by (subst r; apply Z.mod_pos_bound; lia).
  rewrite Hy, calendar_date_period in Hdate.
  rewrite Hy, days_from_civil_period, civil_from_days_period.
  pose proof civil_roundtrip_period as Hall.
  rewrite forallb_forall in Hall. specialize (Hall r (In_Z_range 0 400 r ltac:(lia))).
  pose proof Hdate as Hb. unfold calendar_date in Hb.
  apply andb_true_iff in Hb as [Hb Hd2]. apply andb_true_iff in Hb as [Hb Hd1].
  apply andb_true_iff in Hb as [Hm1 Hm2].
  pose proof (days_in_month_le r m).
  rewrite forallb_forall in Hall. specialize (Hall m (In_Z_range 1 12 m ltac:(lia))).
  rewrite forallb_forall in Hall. specialize (Hall d (In_Z_range 1 31 d ltac:(lia))).
  rewrite Hdate in Hall. cbn [negb orb] in Hall.
  destruct (civil_from_days (days_from_civil r m d)) as [[y' m'] d'].
  apply andb_true_iff in Hall as [Hall H3]. apply andb_true_iff in Hall as [H1 H2].
  f_equal; [f_equal|]; lia.
Qed.

Lemma days_from_civil_succ y m d :
  days_from_civil y m (d + 1) = (days_from_civil y m d + 1)%Z.
Proof. unfold days_from_civil. cbv zeta. lia. Qed.

Lemma days_in_month_period y m k : days_in_month (y + k * 400) m = days_in_month y m.
Proof.
  unfold days_in_month, leap.
  replace ((y + k * 400) mod 4)%Z with (y mod 4)%Z
    by (replace (k * 400)%Z with ((k * 100) * 4)%Z by lia; now rewrite Z_mod_plus_full).
  replace ((y + k * 400) mod 100)%Z with (y mod 100)%Z
    by (replace (k * 400)%Z with ((k * 4) * 100)%Z by lia; now rewrite Z_mod_plus_full).
  now rewrite Z_mod_plus_full.
Qed.

(** The day before the first of each month of the four hundred years. *)
Lemma day_before_first_period :
  forallb (fun y =>
    forallb (fun m =>
      let '(y', m', d') := day_before y m 1 in
      calendar_date y' m' d'
      && (days_from_civil y' m' d' =? days_from_civil y m 1 - 1)%Z)
      (List.map Z.of_nat (seq 1 12)))
    (List.map Z.of_nat (seq 0 400))
  = true.
Proof. vm_compute. reflexivity. Qed.

(** The day before a date is a date, and its day number is one less. *)
Lemma day_before_days y m d :
  calendar_date y m d = true ->
  let '(y', m', d') := day_before y m d in
  calendar_date y' m' d' = true
  /\ days_from_civil y' m' d' = (days_from_civil y m d - 1)%Z.
Proof.
  intros Hdate. pose proof Hdate as Hb. unfold calendar_date in Hb.
  apply andb_true_iff in Hb as [Hb Hd2]. apply andb_true_iff in Hb as [Hb Hd1].
  apply andb_true_iff in Hb as [Hm1 Hm2].
  apply Z.leb_le in Hd1, Hd2, Hm1, Hm2.
  unfold day_before. destruct (Z.ltb_spec 1 d) as [Hd|Hd].
  - split.
    + unfold calendar_date. repeat (apply andb_true_iff; split); apply Z.leb_le; lia.
    + rewrite <- (Z.sub_add 1 d) at 2. rewrite days_from_civil_succ. lia.
  - assert (d = 1)%Z as -> by lia.
    set (k := (y / 400)%Z). set (r := (y mod 400)%Z).
    assert (y = r + k * 400)%Z as Hy by (subst k r; pose proof (Z.div_mod y 400); lia).
    assert (0 <= r < 400)%Z as Hr by (subst r; apply Z.mod_pos_bound; lia).
    pose proof day_before_first_period as Hall.
    rewrite forallb_forall in Hall. specialize (Hall r (In_Z_range 0 400 r ltac:(lia))).
    rewrite forallb_forall in Hall. specialize (Hall m (In_Z_range 1 12 m ltac:(lia))).
    unfold day_before in Hall. cbn [Z.ltb Z.compare Pos.compare] in Hall.
    rewrite Hy. destruct (1 <? m)%Z.
    + apply andb_true_iff in Hall as [Hc Hn]. apply Z.eqb_eq in Hn.
      rewrite days_in_month_period, calendar_date_period, !days_from_civil_period.
      split; [assumption | lia].
    + apply andb_true_iff in Hall as [Hc Hn]. apply Z.eqb_eq in Hn.
      replace (r + k * 400 - 1)%Z with (r - 1 + k * 400)%Z by lia.
      rewrite calendar_date_period, !days_from_civil_period.
      split; [assumption | lia].
Qed.

Section Dates.
Variable Date_parse : string -> option Z.
Variable Date_toString : option Z -> string.
Variable LocalTZA : Z -> Z.

Lemma date_label_day days offset t :
  t = (days * 86400000 + offset)%Z -> (0 <= offset < 86400000)%Z ->
  Day t = days.
Proof.
  intros -> H. unfold Day. rewrite Z.add_comm, Z.div_add by lia.
  rewrite Z.div_small by lia. lia.
Qed.

(** X16. The day that the sheet shows is the day of local time.  A date
    string that the host reads as midnight UTC of a calendar date -- as the
    dates [yyyy-mm-dd] of the trip are read -- is shown as [mm.dd.] of that
    date where local time is UTC or ahead of it, and as the day before --
    the last day of the month before, for the first of a month -- where
    local time is behind UTC. *)
Theorem formatDate_local_day text y m d :
  calendar_date y m d = true ->
  Date_parse text = Some (days_from_civil y m d * 86400000)%Z ->
  let offset := LocalTZA (days_from_civil y m d * 86400000)%Z in
  ((0 <= offset < 86400000)%Z ->
   formatDate Date_parse Date_toString LocalTZA (VStr text)
   = Ok (pad 2 m +:+ "." +:+ pad 2 d +:+ "."))
  /\ ((-86400000 <= offset < 0)%Z ->
      let '(_, m', d') := day_before y m d in
      formatDate Date_parse Date_toString LocalTZA (VStr text)
      = Ok (pad 2 m' +:+ "." +:+ pad 2 d' +:+ ".")).
Proof.
  intros Hdate Hparse offset.
  assert (formatDate Date_parse Date_toString LocalTZA (VStr text)
          = Ok (date_label LocalTZA (Some (days_from_civil y m d * 86400000)%Z))) as ->
    by (unfold formatDate; cbn [new_Date]; rewrite Hparse; reflexivity).
  unfold date_label. fold offset. unfold MonthFromTime, DateFromTime. split.
  - intros Hoff.
    rewrite (date_label_day (days_from_civil y m d) offset) by (lia || assumption).
    rewrite civil_from_days_from_civil by assumption.
    now replace (m - 1 + 1)%Z with m by lia.
  - intros Hoff.
    rewrite (date_label_day (days_from_civil y m d - 1) (offset + 86400000))
      by (lia || assumption).
    pose proof (day_before_days y m d Hdate) as Hbefore.
    destruct (day_before y m d) as [[y' m'] d']. destruct Hbefore as [Hdate' <-].
    rewrite civil_from_days_from_civil by assumption.
    now replace (m' - 1 + 1)%Z with m' by lia.
Qed.

End Dates.

(** ** Rendering a search result, fresh and from the cache *)

Lemma length_member_images img l : (length (member_images img l) <= length l)%nat.
Proof.
  induction l as [|[k x] l IH]; simpl; [lia|]. destruct (img x); simpl; lia.
Qed.

Lemma plain_fields fields k x :
  member_images JSON_image fields = fields -> assoc k fields = Some x ->
  JSON_image x = Some x.
Proof.
  induction fields as [|[k' v] rest IH]; simpl; [discriminate|].
  destruct (JSON_image v) as [j|] eqn:Ej.
  - intros [= -> Hrest]. destruct (String.eqb k k'); [now intros [= <-] | now apply IH].
  - intros H. pose proof (length_member_images JSON_image rest) as Hlen.
    rewrite H in Hlen. simpl in Hlen. lia.
Qed.

Lemma plain_items items x :
  List.map (fun x => default VNull (JSON_image x)) items = items -> In x items ->
  JSON_image x = Some x.
Proof.
  induction items as [|y items IH]; simpl; [intros _ []|].
  intros [= Hy Hrest] [<-|Hin]; [|now apply IH].
  destruct (JSON_image y) as [j|] eqn:Ej; simpl in Hy; [now subst|].
  subst y. discriminate.
Qed.

Lemma cachable_get v k x :
  cachable v -> inherited k = VUndefined -> get v k = Ok x -> cachable x.
Proof.
  intros [->|Hv] Hk; [discriminate|].
  destruct v as [| |b|n|s|t|nm|items|fields]; simpl; try discriminate;
    try (intros [= <-]; left; exact Hk).
  destruct (assoc k fields) as [y|] eqn:E; intros [= <-]; [|left; exact Hk].
  right. simpl in Hv. injection Hv as Hv. eapply plain_fields; eauto.
Qed.

Lemma cachable_index0 v x : cachable v -> index0 v = Ok x -> cachable x.
Proof.
  intros [->|Hv]; [discriminate|].
  destruct v as [| |b|n|s|t|nm|items|fields]; simpl; try discriminate;
    try (intros [= <-]; now left).
  - destruct s; intros [= <-]; [now left | now right].
  - intros [= <-]. simpl in Hv. injection Hv as Hv.
    destruct items as [|y items]; [now left|]. right.
    apply (plain_items (y :: items)); [assumption | now left].
  - intros [= <-]. simpl in Hv. injection Hv as Hv.
    destruct (assoc "0" fields) as [y|] eqn:E; simpl; [|now left].
    right. eapply plain_fields; eauto.
Qed.

Lemma cachable_opt_get v k : cachable v -> inherited k = VUndefined -> cachable (opt_get v k).
Proof.
  intros Hv Hk. unfold opt_get. destruct (nullish v); [now left|].
  destruct (get v k) eqn:E; simpl; [eapply cachable_get; eauto | now left].
Qed.

Lemma cachable_opt_index0 v : cachable v -> cachable (opt_index0 v).
Proof.
  intros Hv. unfold opt_index0. destruct (nullish v); [now left|].
  destruct (index0 v) eqn:E; simpl; [eapply cachable_index0; eauto | now left].
Qed.

Lemma cachable_from_get v k :
  cachable v -> inherited k = VUndefined -> cachable (from_result (get v k)).
Proof.
  intros Hv Hk. destruct (get v k) eqn:E; simpl; [eapply cachable_get; eauto | now left].
Qed.

Lemma Forall_filter_r p items kept (P : jsval -> Prop) :
  filter_r p items = Ok kept -> Forall P items -> Forall P kept.
Proof.
  intros H Hall. apply filter_r_Ok in H as [_ ->].
  apply List.Forall_forall. intros x Hin. apply List.filter_In in Hin as [Hin _].
  revert x Hin. now apply List.Forall_forall.
Qed.

Section Cached.
Variable Date_parse : string -> option Z.
Variable Date_toString : option Z -> string.
Variable LocalTZA : Z -> Z.
Variable Date_toLocaleTimeString : option Z -> string.

Lemma cachable_flightResult opt originInfo destinationInfo flight r :
  cachable flight ->
  flightResult Date_parse Date_toString opt originInfo destinationInfo flight = Ok r ->
  cachable_flight r.
Proof.
  intros Hf H. apply flightResult_Ok in H
    as (legs & fdata & o & d & oid & did & url & price & carriers & marketing & first & t1 & t2
        & Hlegs & Hdata & Ho & Hd & _ & _ & _ & Hprice & Hcarriers & Hmarketing & Hfirst & ->).
  pose proof (cachable_index0 _ _ (cachable_get _ "legs" _ Hf eq_refl Hlegs) Hdata) as Hcd.
  exists (date opt), url, (from_result (get o "name")), (from_result (get d "name")),
    t1, t2, (from_result (get price "raw")), (opt_get first "name").
  split; [reflexivity|]. repeat split.
  - apply cachable_from_get; [|reflexivity]. exact (cachable_get _ "origin" _ Hcd eq_refl Ho).
  - apply cachable_from_get; [|reflexivity]. exact (cachable_get _ "destination" _ Hcd eq_refl Hd).
  - apply cachable_from_get; [|reflexivity]. exact (cachable_get _ "price" _ Hf eq_refl Hprice).
  - apply cachable_opt_get; [|reflexivity].
    eapply cachable_index0; [|exact Hfirst].
    exact (cachable_get _ "marketing" _
             (cachable_get _ "carriers" _ Hcd eq_refl Hcarriers) eq_refl Hmarketing).
Qed.

Lemma cachable_nonstopFlights opt originInfo destinationInfo reply results :
  JSON_image reply = Some reply ->
  nonstopFlights Date_parse Date_toString opt originInfo destinationInfo reply = Ok results ->
  Forall cachable_flight results.
Proof.
  intros Hreply. unfold nonstopFlights, first_bucket.
  destruct (get reply "data") as [rdata|] eqn:Ed; simpl; [|discriminate].
  set (bucket := opt_index0 _).
  assert (cachable bucket) as Hb.
  { apply cachable_opt_index0, cachable_opt_get; [|reflexivity].
    apply cachable_opt_get; [|reflexivity].
    exact (cachable_get _ "data" _ (or_intror Hreply) eq_refl Ed). }
  destruct (truthy bucket); simpl; [|intros [= <-]; constructor].
  unfold items_filter. destruct (get bucket "items") as [items|] eqn:Ei; simpl; [|discriminate].
  pose proof (cachable_get _ "items" _ Hb eq_refl Ei) as Hitems.
  destruct items as [| | | | | | |l|]; simpl; try discriminate.
  destruct (filter_r nonstop l) as [kept|] eqn:Ek; simpl; [|discriminate].
  intros H. eapply map_r_Forall; [exact H|]. intros flight r Hin.
  apply cachable_flightResult.
  assert (Forall cachable l) as Hl.
  { destruct Hitems as [[=]|Hplain]. simpl in Hplain. injection Hplain as Hplain.
    apply List.Forall_forall. intros x Hx. right. eapply plain_items; eauto. }
  pose proof (Forall_filter_r _ _ _ _ Ek Hl) as Hkept.
  rewrite List.Forall_forall in Hkept. now apply Hkept.
Qed.

Lemma cachable_getFlights opt w results w' :
  json_replies w -> getFlights Date_parse Date_toString opt w = (Ok results, w') ->
  json_replies w' /\ Forall cachable_flight results.
Proof.
  intros Hw H.
  destruct (framing_getFlights _ _ opt _ _ _ Logic.I H) as [[_ _ Hp _ _ _] _].
  split; [unfold json_replies; now rewrite Hp|].
  apply getFlights_Ok in H
    as (oi & w1 & di & w2 & path & result & Ho & Hd & Hpath & Hfetch & Hres).
  apply fetchSkyscanner_Ok in Hfetch as (_ & Hreply & _).
  eapply cachable_nonstopFlights; [|exact Hres].
  destruct (framing_getCityInfo _ _ _ _ _ Logic.I Ho) as [[_ _ Hp1 _ _ _] _].
  destruct (framing_getCityInfo _ _ _ _ _ Logic.I Hd) as [[_ _ Hp2 _ _ _] _].
  rewrite Hp2, Hp1 in Hreply. exact (Hw _ _ _ Hreply).
Qed.

Lemma cachable_getFlightResults t type w results w' :
  json_replies w -> getFlightResults Date_parse Date_toString t type w = (Ok results, w') ->
  json_replies w' /\ Forall cachable_flight results.
Proof.
  intros Hw. rewrite getFlightResults_queries, bind_run.
  destruct (mapM _ _ w) as [[rss|e] w1] eqn:E; [|discriminate].
  intros [= <- <-].
  assert (json_replies w1 /\ Forall (Forall cachable_flight) rss) as [Hw1 Hrss].
  { revert w rss w1 Hw E. induction (leg_queries (trip_leg t type)) as [|q qs IH];
      intros w rss w1 Hw; simpl.
    - intros [= <- <-]. auto.
    - rewrite bind_run.
      destruct (getFlights _ _ q w) as [[rs|e] w2] eqn:Eq; [|discriminate].
      rewrite bind_run.
      destruct (mapM _ qs w2) as [[rss'|e] w3] eqn:Eqs; [|discriminate].
      intros [= <- <-]. destruct (cachable_getFlights _ _ _ _ Hw Eq) as [Hw2 Hrs].
      destruct (IH _ _ _ Hw2 Eqs) as [Hw3 Hrss']. auto. }
  split; [assumption|]. clear E. induction Hrss as [|rs rss Hrs _ IH]; simpl.
  - constructor.
  - apply Forall_app. auto.
Qed.

Lemma cachable_searchTrip t w result w' :
  json_replies w -> searchTrip Date_parse Date_toString t w = (Ok result, w') ->
  exists departing returning,
    result = VObj [("depart", VArr departing); ("return", VArr returning)]
    /\ Forall cachable_flight departing /\ Forall cachable_flight returning.
Proof.
  intros Hw. unfold searchTrip. rewrite bind_run.
  destruct (getFlightResults _ _ t Depart w) as [[d|e] w1] eqn:E1; [|discriminate].
  rewrite bind_run.
  destruct (getFlightResults _ _ t Return w1) as [[r|e] w2] eqn:E2; [|discriminate].
  intros [= <- <-].
  destruct (cachable_getFlightResults _ _ _ _ _ Hw E1) as [Hw1 Hd].
  destruct (cachable_getFlightResults _ _ _ _ _ Hw1 E2) as [_ Hr].
  exists d, r. auto.
Qed.

Lemma assoc_images img l k :
  distinct (List.map fst l) = true ->
  assoc k (member_images img l)
  = match assoc k l with
    | Some x => img x
    | None => None
    end.
Proof.
  induction l as [|[k' x] l IH]; simpl; [reflexivity|].
  intros H. apply andb_true_iff in H as [Hk Hl]. apply negb_true_iff in Hk.
  destruct (img x) as [j|] eqn:Ej; simpl.
  - destruct (String.eqb k k'); [now rewrite Ej | now apply IH].
  - destruct (String.eqb_spec k k') as [->|Hne]; [|now apply IH].
    rewrite Ej. now apply assoc_member_images.
Qed.

Lemma cachable_image v : cachable v -> default VUndefined (JSON_image v) = v.
Proof. intros [->|Hv]; [reflexivity | now rewrite Hv]. Qed.

(** The row of a flight result. *)
Lemma row_flight_result date url origin_name destination_name departs arrives price carrier :
  row Date_parse Date_toString LocalTZA Date_toLocaleTimeString
    (flight_result date url origin_name destination_name departs arrives price carrier)
  = Ok (VArr [origin_name; destination_name;
              VStr ("=HYPERLINK(" +:+ quote url +:+ "; "
                      +:+ String ch_quote (date_label LocalTZA (Date_parse date))
                      +:+ String ch_quote ")");
              VStr (Date_toLocaleTimeString departs);
              VStr (Date_toLocaleTimeString arrives);
              price; carrier]).
Proof. reflexivity. Qed.

(** The row of the JSON image of a flight result. *)
Lemma row_image date url origin_name destination_name departs arrives price carrier :
  row Date_parse Date_toString LocalTZA Date_toLocaleTimeString
    (VObj (member_images JSON_image
             [("date", VStr date); ("origin", origin_name);
              ("destination", destination_name); ("departsAt", VDate departs);
              ("arrivesAt", VDate arrives); ("url", VStr url); ("price", price);
              ("carrier", carrier)]))
  = Ok (VArr [default VUndefined (JSON_image origin_name);
              default VUndefined (JSON_image destination_name);
              VStr ("=HYPERLINK(" +:+ quote url +:+ "; "
                      +:+ String ch_quote (date_label LocalTZA (Date_parse date))
                      +:+ String ch_quote ")");
              VStr (Date_toLocaleTimeString
                      (match departs with
                       | Some t => Date_parse (toISOString t)
                       | None => Some 0%Z
                       end));
              VStr (Date_toLocaleTimeString
                      (match arrives with
                       | Some t => Date_parse (toISOString t)
                       | None => Some 0%Z
                       end));
              default VUndefined (JSON_image price);
              default VUndefined (JSON_image carrier)]).
Proof.
  set (fields := [("date", VStr date); ("origin", origin_name);
                  ("destination", destination_name); ("departsAt", VDate departs);
                  ("arrivesAt", VDate arrives); ("url", VStr url); ("price", price);
                  ("carrier", carrier)]).
  assert (forall k, get (VObj (member_images JSON_image fields)) k
                    = Ok (match assoc k fields with
                          | Some x => default (inherited k) (JSON_image x)
                          | None => inherited k
                          end)) as Hget.
  { intros k. cbn [get]. rewrite (assoc_images JSON_image fields k eq_refl).
    destruct (assoc k fields) as [x|]; [|reflexivity]. now destruct (JSON_image x). }
  unfold row. cbn [truthy]. rewrite !Hget. subst fields.
  cbn [assoc String.eqb Ascii.eqb Bool.eqb rbind inherited existsb Object_prototype_names orb].
  destruct departs, arrives; reflexivity.
Qed.

(** The image of a flight result whose fields are cachable and whose times
    are read back has the row of the flight result. *)
Lemma row_cached r :
  cachable_flight r -> times_read_back Date_parse r ->
  row Date_parse Date_toString LocalTZA Date_toLocaleTimeString
    (default VNull (JSON_image r))
  = row Date_parse Date_toString LocalTZA Date_toLocaleTimeString r.
Proof.
  intros (dt & url & o & d & t1 & t2 & price & carrier & -> & Ho & Hd & Hp & Hc)
    (v1 & v2 & H1 & H2 & Hv1 & Hv2).
  injection H1 as ->. injection H2 as ->.
  rewrite row_flight_result.
  change (default VNull (JSON_image (flight_result dt url o d (Some v1) (Some v2) price carrier)))
    with (VObj (member_images JSON_image
                  [("date", VStr dt); ("origin", o); ("destination", d);
                   ("departsAt", VDate (Some v1)); ("arrivesAt", VDate (Some v2));
                   ("url", VStr url); ("price", price); ("carrier", carrier)])).
  rewrite row_image, Hv1, Hv2.
  rewrite (cachable_image o Ho), (cachable_image d Hd), (cachable_image price Hp),
    (cachable_image carrier Hc).
  reflexivity.
Qed.

Lemma map_r_ext_in {A B} (f g : A -> completion B) xs :
  (forall x, In x xs -> f x = g x) -> map_r f xs = map_r g xs.
Proof.
  induction xs as [|x xs IH]; intros H; simpl; [reflexivity|].
  rewrite (H x) by now left. rewrite IH; [reflexivity|]. intros y Hy. apply H. now right.
Qed.

Lemma map_r_map {A B C} (f : B -> completion C) (h : A -> B) xs :
  map_r f (List.map h xs) = map_r (fun x => f (h x)) xs.
Proof.
  induction xs as [|x xs IH]; simpl; [reflexivity|]. now rewrite IH.
Qed.

Lemma map_r_total {A B} (f : A -> completion B) xs :
  (forall x, In x xs -> exists y, f x = Ok y) -> exists ys, map_r f xs = Ok ys.
Proof.
  induction xs as [|x xs IH]; intros H; simpl; [eauto|].
  destruct (H x) as [y ->]; [now left|]. destruct IH as [ys ->]; [|simpl; eauto].
  intros z Hz. apply H. now right.
Qed.

(** X17. Rendering from the cache.  Let the provider reply with JSON
    values and let the search return.  Its result is an object with the
    arrays [depart] and [return], and so is its JSON image, which a later
    run reads from the cache file.  The rows of the result are computed
    without an exception; and when the times of its flights are valid and
    the host reads the ISO string of each of them back as that time, the
    image has the same rows: the sheet of the later run is the sheet of the
    run that searched. *)
Theorem cached_sheet_agrees t w result w' :
  json_replies w ->
  searchTrip Date_parse Date_toString t w = (Ok result, w') ->
  exists departing returning cached_departing cached_returning sheet,
    result = VObj [("depart", VArr departing); ("return", VArr returning)]
    /\ JSON_image result
       = Some (VObj [("depart", VArr cached_departing); ("return", VArr cached_returning)])
    /\ data Date_parse Date_toString LocalTZA Date_toLocaleTimeString departing returning
       = Ok sheet
    /\ (Forall (times_read_back Date_parse) (departing ++ returning) ->
        data Date_parse Date_toString LocalTZA Date_toLocaleTimeString
          cached_departing cached_returning
        = Ok sheet).
Proof.
  intros Hw H. destruct (cachable_searchTrip _ _ _ _ Hw H) as (ds & rs & -> & Hds & Hrs).
  set (img := fun x => default VNull (JSON_image x)).
  exists ds, rs, (List.map img ds), (List.map img rs).
  assert (exists rows, values Date_parse Date_toString LocalTZA Date_toLocaleTimeString ds rs
                       = Ok rows) as [rows Hrows].
  { apply map_r_total. intros x Hx. apply in_app_or in Hx as [Hx|[<-|Hx]].
    - rewrite List.Forall_forall in Hds.
      destruct (Hds x Hx) as (? & ? & ? & ? & ? & ? & ? & ? & -> & _).
      rewrite row_flight_result. eauto.
    - eexists. reflexivity.
    - rewrite List.Forall_forall in Hrs.
      destruct (Hrs x Hx) as (? & ? & ? & ? & ? & ? & ? & ? & -> & _).
      rewrite row_flight_result. eauto. }
  exists (VArr headers :: rows). split; [reflexivity|]. split; [reflexivity|]. split.
  - unfold data. now rewrite Hrows.
  - intros Hvalid. unfold data.
    assert (values Date_parse Date_toString LocalTZA Date_toLocaleTimeString
              (List.map img ds) (List.map img rs) = Ok rows) as ->; [|reflexivity].
    rewrite <- Hrows. unfold values.
    change (List.map img ds ++ VNull :: List.map img rs)
      with (List.map img ds ++ List.map img (VNull :: rs)).
    rewrite <- List.map_app, map_r_map. apply map_r_ext_in.
    intros x Hx. rewrite List.Forall_forall in Hds, Hrs, Hvalid.
    apply in_app_or in Hx as [Hx|[<-|Hx]].
    + apply row_cached; [now apply Hds |]. apply Hvalid, in_or_app. now left.
    + reflexivity.
    + apply row_cached; [now apply Hrs |]. apply Hvalid, in_or_app. now right.
Qed.

(** X18. An invalid time does not survive the cache file.  The row of a
    flight result with an invalid departure shows what the host prints for
    an invalid date; the image of the result holds null for the departure,
    and its row shows the time of the epoch. *)
Theorem invalid_time_from_cache date url origin_name destination_name arrives price carrier :
  exists image fresh cached,
    JSON_image (flight_result date url origin_name destination_name None arrives price carrier)
    = Some image
    /\ get image "departsAt" = Ok VNull
    /\ row Date_parse Date_toString LocalTZA Date_toLocaleTimeString
         (flight_result date url origin_name destination_name None arrives price carrier)
       = Ok (VArr fresh)
    /\ row Date_parse Date_toString LocalTZA Date_toLocaleTimeString image = Ok (VArr cached)
    /\ fresh !! 3%nat = Some (VStr (Date_toLocaleTimeString None))
    /\ cached !! 3%nat = Some (VStr (Date_toLocaleTimeString (Some 0%Z))).
Proof.
  set (fields := [("date", VStr date); ("origin", origin_name);
                  ("destination", destination_name); ("departsAt", VDate None);
                  ("arrivesAt", VDate arrives); ("url", VStr url); ("price", price);
                  ("carrier", carrier)]).
  exists (VObj (member_images JSON_image fields)). eexists _, _.
  split; [reflexivity|]. split.
  - cbn [get]. rewrite (assoc_images JSON_image fields "departsAt" eq_refl). reflexivity.
  - split; [apply row_flight_result|]. split; [apply row_image|]. split; reflexivity.
Qed.

End Cached.

(** ** Itineraries with missing fields *)

Lemma get_TypeError v k e : get v k = Err e -> e = TypeError.
Proof.
  destruct v; simpl; try discriminate; try (now intros [= <-]).
  destruct (assoc k fields); discriminate.
Qed.

Lemma get_Ok_defined v k x : get v k = Ok x -> nullish v = false.
Proof. destruct v; simpl; try discriminate; reflexivity. Qed.

Lemma index0_TypeError v e : index0 v = Err e -> e = TypeError.
Proof.
  destruct v as [| |b|n|s|t|nm|items|fields]; simpl; try discriminate;
    try (now intros [= <-]).
  destruct s; discriminate.
Qed.

Lemma index0_Ok_defined v x : index0 v = Ok x -> nullish v = false.
Proof. destruct v; simpl; try discriminate; reflexivity. Qed.

Lemma map_r_Err {A B} (f : A -> completion B) xs e :
  map_r f xs = Err e -> exists x, In x xs /\ f x = Err e.
Proof.
  induction xs as [|x xs IH]; simpl; [discriminate|].
  destruct (f x) as [y|e'] eqn:Ex; simpl.
  - destruct (map_r f xs) as [ys|e'']; simpl; [discriminate|].
    intros [= <-]. destruct (IH eq_refl) as (z & Hz & Hf). eauto.
  - intros [= <-]. eauto.
Qed.

Lemma map_r_In {A B} (f : A -> completion B) xs ys x :
  map_r f xs = Ok ys -> In x xs -> exists y, f x = Ok y.
Proof.
  revert ys. induction xs as [|a xs IH]; intros ys; simpl; [intros _ []|].
  destruct (f a) as [b|] eqn:Ea; simpl; [|discriminate].
  destruct (map_r f xs) as [bs|]; simpl; [|discriminate].
  intros _ [<-|Hin]; [eauto | eapply IH; eauto].
Qed.

Lemma filter_r_Err p xs e :
  filter_r p xs = Err e -> exists x, In x xs /\ p x = Err e.
Proof.
  induction xs as [|x xs IH]; simpl; [discriminate|].
  destruct (p x) as [b|e'] eqn:Ex; simpl.
  - destruct (filter_r p xs) as [ys|e'']; simpl; [discriminate|].
    intros [= <-]. destruct (IH eq_refl) as (z & Hz & Hf). eauto.
  - intros [= <-]. eauto.
Qed.

Section Itineraries.
Variable Date_parse : string -> option Z.
Variable Date_toString : option Z -> string.

Lemma ToString_TypeError v e : ToString Date_toString v = Err e -> e = TypeError.
Proof.
  revert e. induction v as [| |b|n|s|t|nm|items IH|fields IH] using jsval_ind; intros e;
    simpl; try discriminate.
  - destruct (map_r _ items) as [parts|e'] eqn:E; simpl; [discriminate|].
    intros [= <-]. apply map_r_Err in E as (x & Hx & Hf).
    rewrite List.Forall_forall in IH. destruct (nullish x); [discriminate|].
    now apply (IH x Hx).
  - destruct (assoc "toString" fields); [now intros [= <-] | discriminate].
Qed.

Lemma new_Date_TypeError v e :
  new_Date Date_parse Date_toString v = Err e -> e = TypeError.
Proof.
  destruct v; try discriminate; unfold new_Date;
    (destruct (ToString Date_toString _) as [s|e'] eqn:E; simpl; [discriminate|]);
    intros [= <-]; eapply ToString_TypeError; eassumption.
Qed.

Lemma flightUrl_TypeError o d date e :
  flightUrl Date_toString o d date = Err e -> e = TypeError.
Proof.
  unfold flightUrl.
  destruct (ToString Date_toString o) as [so|e1] eqn:E1; simpl.
  - destruct (ToString Date_toString d) as [sd|e2] eqn:E2; simpl; [discriminate|].
    intros [= <-]. eapply ToString_TypeError; eassumption.
  - intros [= <-]. eapply ToString_TypeError; eassumption.
Qed.

Lemma flightResult_TypeError opt originInfo destinationInfo flight e :
  flightResult Date_parse Date_toString opt originInfo destinationInfo flight = Err e ->
  e = TypeError.
Proof.
  unfold flightResult, pushed.
  repeat match goal with
         | |- rbind ?c _ = Err _ -> _ =>
             let E := fresh "E" in
             destruct c eqn:E; simpl;
             [| intros [= <-];
                first [ eapply get_TypeError; eassumption
                      | eapply index0_TypeError; eassumption
                      | eapply new_Date_TypeError; eassumption
                      | eapply flightUrl_TypeError; eassumption ] ]
         end.
  discriminate.
Qed.

Lemma nonstop_TypeError item e : nonstop item = Err e -> e = TypeError.
Proof.
  unfold nonstop, first_stopCount.
  destruct (get item "legs") as [legs|e1] eqn:E1; simpl.
  - destruct (index0 legs) as [leg|e2] eqn:E2; simpl; [discriminate|].
    intros [= <-]. eapply index0_TypeError; eassumption.
  - intros [= <-]. eapply get_TypeError; eassumption.
Qed.

Lemma nonstopFlights_TypeError opt originInfo destinationInfo reply e :
  nonstopFlights Date_parse Date_toString opt originInfo destinationInfo reply = Err e ->
  e = TypeError.
Proof.
  unfold nonstopFlights, first_bucket.
  destruct (get reply "data") as [rdata|e1] eqn:E1; simpl.
  2:{ intros [= <-]. eapply get_TypeError; eassumption. }
  destruct (truthy _); simpl; [|discriminate].
  unfold items_filter. destruct (get _ "items") as [items|e2] eqn:E2; simpl.
  2:{ intros [= <-]. eapply get_TypeError; eassumption. }
  assert (forall kept : completion (list jsval),
            (forall e', kept = Err e' -> e' = TypeError) ->
            rbind kept (fun fightOptions =>
              map_r (flightResult Date_parse Date_toString opt originInfo destinationInfo)
                    fightOptions) = Err e -> e = TypeError) as Hrest.
  { intros [kept|e'] Hk; simpl.
    - intros H. apply map_r_Err in H as (x & _ & Hx).
      eapply flightResult_TypeError; eassumption.
    - intros [= <-]. now apply Hk. }
  destruct items as [| | | | | | |l|]; apply Hrest; try (now intros e' [= <-]).
  intros e' H. apply filter_r_Err in H as (x & _ & Hx).
  eapply nonstop_TypeError; eassumption.
Qed.

Lemma flightResult_complete opt originInfo destinationInfo flight r :
  flightResult Date_parse Date_toString opt originInfo destinationInfo flight = Ok r ->
  complete_itinerary flight.
Proof.
  unfold flightResult, pushed.
  destruct (get flight "legs") as [legs|] eqn:E1; simpl; [|discriminate].
  destruct (index0 legs) as [leg|] eqn:E2; simpl; [|discriminate].
  destruct (get leg "origin") as [o|] eqn:E3; simpl; [|discriminate].
  destruct (get o "name") as [on|] eqn:E4; simpl; [|discriminate].
  destruct (get leg "destination") as [d|] eqn:E5; simpl; [|discriminate].
  destruct (get d "name") as [dn|] eqn:E6; simpl; [|discriminate].
  destruct (get leg "departure") as [dep|] eqn:E7; simpl; [|discriminate].
  destruct (new_Date _ _ dep) as [departsAt|] eqn:E8; simpl; [|discriminate].
  destruct (get leg "arrival") as [arr|] eqn:E9; simpl; [|discriminate].
  destruct (new_Date _ _ arr) as [arrivesAt|] eqn:E10; simpl; [|discriminate].
  destruct (get originInfo "skyId") as [oid|] eqn:E11; simpl; [|discriminate].
  destruct (get destinationInfo "skyId") as [did|] eqn:E12; simpl; [|discriminate].
  destruct (flightUrl _ oid did (date opt)) as [url|] eqn:E13; simpl; [|discriminate].
  destruct (get flight "price") as [price|] eqn:E14; simpl; [|discriminate].
  destruct (get price "raw") as [raw|] eqn:E15; simpl; [|discriminate].
  destruct (get leg "carriers") as [carriers|] eqn:E16; simpl; [|discriminate].
  destruct (get carriers "marketing") as [marketing|] eqn:E17; simpl; [|discriminate].
  destruct (index0 marketing) as [first|] eqn:E18; simpl; [|discriminate].
  intros _. exists legs, leg, o, d, carriers, marketing, price.
  repeat split; try assumption;
    first [ eapply get_Ok_defined; eassumption | eapply index0_Ok_defined; eassumption ].
Qed.

(** X19. One itinerary with a missing field fails the query.  Only the
    first leg and the first marketing carrier are read with a guard.  When
    the first bucket holds an itinerary without stops whose first leg lacks
    its origin, its destination, its carriers or the marketing carriers
    among them, or which lacks its price, the reply yields no result at all
    but a TypeError; and a TypeError is the only exception that a reply can
    raise. *)
Theorem incomplete_itinerary_fails opt originInfo destinationInfo reply bucket items flight :
  first_bucket reply = Ok bucket ->
  truthy bucket = true ->
  get bucket "items" = Ok (VArr items) ->
  In flight items ->
  nonstop flight = Ok true ->
  ~ complete_itinerary flight ->
  nonstopFlights Date_parse Date_toString opt originInfo destinationInfo reply = Err TypeError
  /\ forall other e,
       nonstopFlights Date_parse Date_toString opt originInfo destinationInfo other = Err e ->
       e = TypeError.
Proof.
  intros Hbucket Htruthy Hitems Hin Hdirect Hmissing.
  split; [|intros other e; apply nonstopFlights_TypeError].
  destruct (nonstopFlights _ _ opt originInfo destinationInfo reply) as [results|e] eqn:E.
  2:{ f_equal. eapply nonstopFlights_TypeError; eassumption. }
  exfalso. apply Hmissing. unfold nonstopFlights in E.
  rewrite Hbucket in E. simpl in E. rewrite Htruthy in E. simpl in E.
  unfold items_filter in E. rewrite Hitems in E. simpl in E.
  destruct (filter_r nonstop items) as [kept|] eqn:Ek; simpl in E; [|discriminate].
  apply filter_r_Ok in Ek as [_ ->].
  assert (In flight (List.filter
                       (fun it => match nonstop it with Ok b => b | Err _ => false end)
                       items)) as Hkept
    by (apply List.filter_In; split; [assumption | now rewrite Hdirect]).
  destruct (map_r_In _ _ _ _ E Hkept) as [r Hr].
  eapply flightResult_complete; eassumption.
Qed.

End Itineraries.

(** ** The footprint of a run *)

Lemma footprint_refl w : footprint w w.
Proof. split; reflexivity. Qed.

Lemma footprint_trans w1 w2 w3 : footprint w1 w2 -> footprint w2 w3 -> footprint w1 w3.
Proof.
  intros [] []. split; try congruence; try (etrans; eassumption).
  intros path Hne. transitivity (files w2 !! path); auto.
Qed.

Lemma frame_footprint w w' : frame w w' -> footprint w w'.
Proof.
  intros [Hk Hf Hp Hs Hr Hq]. split; try assumption.
  - intros path _. now rewrite Hf.
  - now rewrite Hr.
Qed.

Section Footprint.
Variable Date_parse : string -> option Z.
Variable Date_toString : option Z -> string.

Lemma footprint_cachedTrip t w r w' :
  cachedTrip Date_parse Date_toString t w = (r, w') -> footprint w w'.
Proof.
  unfold cachedTrip.
  destruct (useFileCache_outcome "results" (searchTrip Date_parse Date_toString t) w)
    as [[v ->] | ->].
  - intros [= <- <-]. apply footprint_refl.
  - unfold recompute. rewrite bind_run.
    destruct (searchTrip _ _ t w) as [[result|e] w1] eqn:Es.
    + destruct (framing_searchTrip _ _ t _ _ _ Logic.I Es) as [Hframe _].
      apply frame_footprint in Hframe. rewrite bind_run. unfold writeFile.
      destruct (JSON_stringify result) as [text|];
        [destruct (disk w1 (cache_path "results") text) as [|code [partial|]]|];
        intros [= <- <-]; try exact Hframe;
        (eapply footprint_trans; [exact Hframe|]; split; try reflexivity;
         intros path Hne; simpl; now rewrite lookup_insert_ne by congruence).
    + intros [= <- <-]. apply frame_footprint.
      now destruct (framing_searchTrip _ _ t _ _ _ Logic.I Es).
Qed.

Lemma footprint_after op w : footprint w (after Date_parse Date_toString op w).
Proof.
  destruct op as [name|opt|t type|t|t]; simpl.
  - apply frame_footprint.
    exact (proj1 (framing_getCityInfo Date_toString name w _ _ Logic.I (surjective_pairing _))).
  - apply frame_footprint.
    exact (proj1 (framing_getFlights Date_parse Date_toString opt w _ _ Logic.I
                    (surjective_pairing _))).
  - apply frame_footprint.
    exact (proj1 (respects_getFlightResults always frame frame_refl frame_trans
                    Date_parse Date_toString framing_fetchSkyscanner
                    (framing_getCityInfo Date_toString) t type w _ _ Logic.I
                    (surjective_pairing _))).
  - eapply footprint_cachedTrip. apply surjective_pairing.
  - unfold main. rewrite bind_run.
    destruct (cachedTrip Date_parse Date_toString t w) as [[result|e] w1] eqn:Ec.
    + apply footprint_cachedTrip in Ec. unfold writeToSpreadSheet.
      destruct (spreadsheet w1 result); simpl; [|exact Ec].
      eapply footprint_trans; [exact Ec|]. split; try reflexivity.
      simpl. now apply prefix_app_r.
    + simpl. eapply footprint_cachedTrip. exact Ec.
Qed.

(** X20. The footprint of a run.  Whatever operations of the pipeline are
    performed, and however they end, they leave the API key, the provider
    and the spreadsheet as they are and write no file but
    [cache-results.json]; the requests sent and the results rendered before
    are still there, in their order, followed by the new ones. *)
Theorem run_footprint ops w :
  RAPID_API_KEY (run Date_parse Date_toString ops w) = RAPID_API_KEY w
  /\ (forall path, path <> "cache-results.json" ->
        files (run Date_parse Date_toString ops w) !! path = files w !! path)
  /\ requests w `prefix_of` requests (run Date_parse Date_toString ops w)
  /\ rendered w `prefix_of` rendered (run Date_parse Date_toString ops w).
Proof.
  assert (footprint w (run Date_parse Date_toString ops w)) as [Hk _ _ Hf Hq Hr].
  { revert w. induction ops as [|op ops IH]; intros w; simpl.
    - apply footprint_refl.
    - eapply footprint_trans; [apply footprint_after | apply IH]. }
  auto.
Qed.

End Footprint.

(** ** Sample runs of the further properties *)

Lemma getFlights_nonstop_only_witness :
  exists history path reply bucket,
    requests (snd (getFlights sample_Date_parse sample_Date_toString sample_opt
                     sample_world))
    = history ++ [path]
    /\ provider sample_world history path = Ok reply
    /\ first_bucket reply = Ok bucket
    /\ get bucket "items"
       = Ok (VArr [itinerary 0 123 "Test Air"; itinerary 1 99 "Slow Air"])
    /\ List.filter is_nonstop [itinerary 0 123 "Test Air"; itinerary 1 99 "Slow Air"]
       = [itinerary 0 123 "Test Air"]
    /\ map_r (flightResult sample_Date_parse sample_Date_toString sample_opt
                (VObj [("skyId", VStr "BUD"); ("entityId", VStr "1")])
                (VObj [("skyId", VStr "CFU"); ("entityId", VStr "2")]))
             [itinerary 0 123 "Test Air"]
       = fst (getFlights sample_Date_parse sample_Date_toString sample_opt sample_world).
Proof.
  destruct (getFlights_nonstop_only sample_Date_parse sample_Date_toString sample_opt
              sample_world
              (match fst (getFlights sample_Date_parse sample_Date_toString sample_opt
                            sample_world) with Ok l => l | Err _ => [] end)
              (snd (getFlights sample_Date_parse sample_Date_toString sample_opt
                      sample_world)))
    as (history & path & reply & bucket & Hreq & _ & Hreply & Hbucket & _).
  - vm_compute. reflexivity.
  - exists history, path, reply, bucket.
    split; [exact Hreq|]. split; [exact Hreply|]. split; [exact Hbucket|].
    assert (path = List.last (history ++ [path]) "") as Hp
      by (symmetry; apply List.last_last).
    assert (history = List.removelast (history ++ [path])) as Hh
      by (symmetry; apply List.removelast_last).
    rewrite <- Hreq in Hp, Hh. vm_compute in Hp, Hh. subst path history.
    vm_compute in Hreply. injection Hreply as <-.
    vm_compute in Hbucket. injection Hbucket as <-.
    split; [vm_compute; reflexivity|]. split; vm_compute; reflexivity.
Defined.

Lemma query_separators_witness :
  exists body,
    "?query=New+York%26Co&adults=1" = "?" +:+ body
    /\ occurrences "=" body = 2%nat /\ occurrences "&" body = 1%nat.
Proof.
  destruct (query_separators sample_Date_toString
              [("query", VStr "New York&Co"); ("skip", VUndefined);
               ("adults", VNum (number_of_Z 1))]
              "?query=New+York%26Co&adults=1")
    as (body & Hq & He & Ha & _).
  - reflexivity.
  - exists body. split; [exact Hq|]. split; [exact He | exact Ha].
Defined.

Lemma failed_resolution_not_stored_witness :
  cityInfo (snd (getCityInfo sample_Date_toString "Nowhereland" sample_world))
  = cityInfo sample_world
  /\ requests (snd (getCityInfo sample_Date_toString "Nowhereland" sample_world))
     = requests sample_world ++ [lookup_request "Nowhereland"].
Proof.
  destruct (failed_resolution_not_stored sample_Date_toString "Nowhereland" sample_world
              (unknown_city "Nowhereland" (VObj [("inputSuggest", VArr [])]))
              (snd (getCityInfo sample_Date_toString "Nowhereland" sample_world)))
    as (Hc & _ & Hr).
  - vm_compute. reflexivity.
  - split; [exact Hc|]. apply Hr. reflexivity.
Defined.

Lemma prototype_name_resolved_witness :
  getCityInfo sample_Date_toString "constructor" sample_world
  = (Ok (VNative "constructor"), sample_world).
Proof.
  apply (prototype_name_resolved sample_Date_toString "constructor" sample_world).
  - simpl. auto.
  - reflexivity.
Defined.

Lemma getFlights_requests_witness :
  exists path,
    requests (snd (getFlights sample_Date_parse sample_Date_toString sample_opt sample_world))
    = [lookup_request "Budapest"; lookup_request "Corfu"; path].
Proof.
  destruct (getFlights_requests sample_Date_parse sample_Date_toString sample_opt sample_world
              (match fst (getFlights sample_Date_parse sample_Date_toString sample_opt
                            sample_world) with Ok l => l | Err _ => [] end)
              (snd (getFlights sample_Date_parse sample_Date_toString sample_opt
                      sample_world)))
    as (path & _ & Hr).
  - vm_compute. reflexivity.
  - exists path. exact Hr.
Defined.

Lemma getFlightResults_cost_witness :
  exists new,
    requests (snd (getFlightResults sample_Date_parse sample_Date_toString sample_trip Depart
                     sample_world))
    = requests sample_world ++ new
    /\ length (searches new) = 1%nat.
Proof.
  destruct (getFlightResults_cost sample_Date_parse sample_Date_toString sample_trip Depart
              {| origins := ["Budapest"]; destinations := ["Corfu"]; dates := ["2025-09-11"] |}
              sample_world
              (match fst (getFlightResults sample_Date_parse sample_Date_toString sample_trip
                            Depart sample_world) with Ok l => l | Err _ => [] end)
              (snd (getFlightResults sample_Date_parse sample_Date_toString sample_trip Depart
                      sample_world)))
    as (new & Hr & Hs & _).
  - reflexivity.
  - vm_compute. reflexivity.
  - exists new. split; [exact Hr | exact Hs].
Defined.

Lemma getFlightResults_nothing_to_search_witness :
  getFlightResults sample_Date_parse sample_Date_toString dateless_trip Depart keyless_world
  = (Ok [], keyless_world).
Proof.
  apply (getFlightResults_nothing_to_search sample_Date_parse sample_Date_toString
           dateless_trip Depart
           {| origins := ["Budapest"; "Berlin"]; destinations := ["Corfu"]; dates := [] |}).
  - reflexivity.
  - right. right. reflexivity.
Defined.

Lemma resolved_never_asked_again_witness :
  lookup_cityInfo "Budapest"
    (run sample_Date_parse sample_Date_toString [OpMain sample_trip] resolved_world)
  = lookup_cityInfo "Budapest" resolved_world
  /\ exists new,
       requests (run sample_Date_parse sample_Date_toString [OpMain sample_trip]
                   resolved_world)
       = requests resolved_world ++ new
       /\ ~ In (lookup_request "Budapest") new.
Proof.
  apply (resolved_never_asked_again sample_Date_parse sample_Date_toString
           [OpMain sample_trip] resolved_world "Budapest").
  unfold resolved. vm_compute. reflexivity.
Defined.

Lemma getFlights_results_shape_witness :
  fst (getFlights sample_Date_parse sample_Date_toString sample_opt sample_world) = Ok []
  \/ exists url,
       flightUrl sample_Date_toString (VStr "BUD") (VStr "CFU") "2025-09-11" = Ok url
       /\ Forall (fun r => get r "url" = Ok (VStr url))
            (match fst (getFlights sample_Date_parse sample_Date_toString sample_opt
                          sample_world) with Ok l => l | Err _ => [] end).
Proof.
  destruct (getFlights_results_shape sample_Date_parse sample_Date_toString sample_opt
              sample_world
              (match fst (getFlights sample_Date_parse sample_Date_toString sample_opt
                            sample_world) with Ok l => l | Err _ => [] end)
              (snd (getFlights sample_Date_parse sample_Date_toString sample_opt
                      sample_world)))
    as [Hnone | (o & d & url & Ho & Hd & Hurl & Hall)].
  - vm_compute. reflexivity.
  - left. vm_compute in Hnone. discriminate.
  - right. exists url. split.
    + vm_compute in Ho, Hd. injection Ho as <-. injection Hd as <-. exact Hurl.
    + eapply Forall_impl; [exact Hall|].
      intros r (? & ? & ? & ? & ? & ? & ->). reflexivity.
Defined.

Lemma cached_trip_is_kept_witness :
  exists j,
    JSON_image sample_result = Some j
    /\ cachedTrip sample_Date_parse sample_Date_toString nowhere_trip
         (snd (cachedTrip sample_Date_parse sample_Date_toString sample_trip sample_world))
       = (Ok j, snd (cachedTrip sample_Date_parse sample_Date_toString sample_trip
                       sample_world)).
Proof.
  destruct (cached_trip_is_kept sample_Date_parse sample_Date_toString sample_trip
              sample_world sample_result
              (snd (cachedTrip sample_Date_parse sample_Date_toString sample_trip
                      sample_world)))
    as (j & Hj & Hhit).
  - split.
    + intros history path reply. unfold sample_world, provider, sample_provider.
      repeat match goal with
             | |- context [if ?b then _ else _] => destruct b
             end; intros [= <-]; reflexivity.
    + apply map_Forall_empty.
  - left. reflexivity.
  - vm_compute. reflexivity.
  - exists j. split; [exact Hj | apply Hhit].
Defined.

Lemma useFileCache_unserializable_witness :
  useFileCache "results" (ret VUndefined) sample_world = (Err TypeError, sample_world)
  /\ useFileCache "results" (getCityInfo sample_Date_toString "constructor") sample_world
     = (Err TypeError, sample_world).
Proof.
  split.
  - apply (useFileCache_unserializable "results" (ret VUndefined) sample_world VUndefined
             sample_world).
    + left. reflexivity.
    + reflexivity.
    + left. reflexivity.
  - apply (useFileCache_unserializable "results"
             (getCityInfo sample_Date_toString "constructor") sample_world
             (VNative "constructor") sample_world).
    + left. reflexivity.
    + reflexivity.
    + right. exists "constructor". split; [discriminate | reflexivity].
Defined.

(** The prototype object itself has a text, and is cached. *)
Example prototype_object_is_cached :
  useFileCache "results" (getCityInfo sample_Date_toString "__proto__") sample_world
  = (Ok (VNative "__proto__"),
     with_files (<[cache_path "results" := "{}"]> (files sample_world)) sample_world).
Proof. reflexivity. Qed.


Lemma render_failure_keeps_cache_witness :
  main sample_Date_parse sample_Date_toString sample_trip refusing_world
  = (Err (FetchError "The caller does not have permission"),
     snd (cachedTrip sample_Date_parse sample_Date_toString sample_trip refusing_world))
  /\ files (snd (cachedTrip sample_Date_parse sample_Date_toString sample_trip
                   refusing_world)) !! cache_path "results"
     = Some sample_result_text.
Proof.
  destruct (render_failure_keeps_cache sample_Date_parse sample_Date_toString sample_trip
              refusing_world sample_result
              (snd (cachedTrip sample_Date_parse sample_Date_toString sample_trip
                      refusing_world))
              (FetchError "The caller does not have permission"))
    as (Hmain & _ & text & Htext & Hfile).
  - left. reflexivity.
  - vm_compute. reflexivity.
  - reflexivity.
  - split; [exact Hmain|]. rewrite Hfile. f_equal.
    unfold sample_result_text. now rewrite Htext.
Defined.

Lemma data_layout_witness :
  exists rows,
    data sample_Date_parse sample_Date_toString sample_LocalTZA
      sample_Date_toLocaleTimeString [cached_flight] [cached_flight; VNull]
    = Ok (VArr headers :: rows)
    /\ length rows = 4%nat
    /\ rows !! 1%nat = Some (VArr []).
Proof.
  destruct (data_layout sample_Date_parse sample_Date_toString sample_LocalTZA
              sample_Date_toLocaleTimeString [cached_flight] [cached_flight; VNull]
              (match data sample_Date_parse sample_Date_toString sample_LocalTZA
                       sample_Date_toLocaleTimeString [cached_flight] [cached_flight; VNull]
               with Ok sheet => sheet | Err _ => [] end))
    as (rows & Hsheet & _ & Hlen & Hblank & _).
  - vm_compute. reflexivity.
  - exists rows. split; [|split; [exact Hlen | exact Hblank]].
    rewrite <- Hsheet. vm_compute. reflexivity.
Defined.

Lemma formatDate_local_day_witness :
  formatDate sample_Date_parse sample_Date_toString sample_LocalTZA
    (VStr "2025-09-11T00:00:00Z")
  = Ok "09.11."
  /\ formatDate sample_Date_parse sample_Date_toString western_LocalTZA
       (VStr "2024-03-01T00:00:00Z")
     = Ok "02.29.".
Proof.
  split.
  - destruct (formatDate_local_day sample_Date_parse sample_Date_toString sample_LocalTZA
                "2025-09-11T00:00:00Z" 2025 9 11) as [Hahead _].
    + reflexivity.
    + vm_compute. reflexivity.
    + apply Hahead. unfold sample_LocalTZA. lia.
  - destruct (formatDate_local_day sample_Date_parse sample_Date_toString western_LocalTZA
                "2024-03-01T00:00:00Z" 2024 3 1) as [_ Hbehind].
    + reflexivity.
    + vm_compute. reflexivity.
    + apply Hbehind. unfold western_LocalTZA. lia.
Defined.

Lemma cached_sheet_agrees_witness :
  exists departing cached_departing sheet,
    fst (searchTrip iso_Date_parse sample_Date_toString sample_trip sample_world)
    = Ok (VObj [("depart", VArr departing); ("return", VArr [])])
    /\ JSON_image (VObj [("depart", VArr departing); ("return", VArr [])])
       = Some (VObj [("depart", VArr cached_departing); ("return", VArr [])])
    /\ rbind (index0 (VArr departing)) (fun f => get f "departsAt")
       = Ok (VDate (Some 1757570400000%Z))
    /\ rbind (index0 (VArr cached_departing)) (fun f => get f "departsAt")
       = Ok (VStr "2025-09-11T06:00:00.000Z")
    /\ data iso_Date_parse sample_Date_toString sample_LocalTZA
         sample_Date_toLocaleTimeString departing []
       = Ok sheet
    /\ data iso_Date_parse sample_Date_toString sample_LocalTZA
         sample_Date_toLocaleTimeString cached_departing []
       = Ok sheet.
Proof.
  destruct (cached_sheet_agrees iso_Date_parse sample_Date_toString sample_LocalTZA
              sample_Date_toLocaleTimeString sample_trip sample_world
              (match fst (searchTrip iso_Date_parse sample_Date_toString sample_trip
                            sample_world) with Ok r => r | Err _ => VUndefined end)
              (snd (searchTrip iso_Date_parse sample_Date_toString sample_trip
                      sample_world)))
    as (ds & rs & cds & crs & sheet & Hresult & Himage & Hsheet & Hcached).
  - intros history path reply. unfold sample_world, provider, sample_provider.
    repeat match goal with
           | |- context [if ?b then _ else _] => destruct b
           end; intros [= <-]; reflexivity.
  - vm_compute. reflexivity.
  - vm_compute in Hresult. injection Hresult as <- <-.
    vm_compute in Himage. injection Himage as <- <-.
    eexists _, _, sheet.
    split; [vm_compute; reflexivity|]. split; [vm_compute; reflexivity|].
    split; [vm_compute; reflexivity|]. split; [vm_compute; reflexivity|].
    split; [exact Hsheet|]. apply Hcached.
    repeat constructor. eexists _, _.
    split; [reflexivity|]. split; [reflexivity|]. split; vm_compute; reflexivity.
Defined.

Lemma incomplete_itinerary_fails_witness :
  nonstopFlights sample_Date_parse sample_Date_toString sample_opt
    (VObj [("skyId", VStr "BUD")]) (VObj [("skyId", VStr "CFU")]) priceless_reply
  = Err TypeError.
Proof.
  apply (incomplete_itinerary_fails sample_Date_parse sample_Date_toString sample_opt
           (VObj [("skyId", VStr "BUD")]) (VObj [("skyId", VStr "CFU")]) priceless_reply
           (VObj [("items", VArr [itinerary 0 123 "Test Air"; priceless_itinerary])])
           [itinerary 0 123 "Test Air"; priceless_itinerary] priceless_itinerary).
  - reflexivity.
  - reflexivity.
  - reflexivity.
  - right. left. reflexivity.
  - reflexivity.
  - intros (? & ? & ? & ? & ? & ? & price & _ & _ & _ & _ & _ & _ & _ & _ & _ & _ & Hp & Hn).
    vm_compute in Hp. injection Hp as <-. discriminate.
Defined.
